(** * petiteplatypus: scaffolding of a note-taking vault and its registration

    A shallow embedding of the Go program (main.go and its two sibling
    revisions) together with the properties of its specification.

    Go strings are byte strings and are modelled by [string]; Go maps are
    [gmap]s, with the nil map told apart from the empty one by [option].
    The operating system is a record of the directory tree and of the answers
    the environment gives (working directory, configuration directory,
    randomness, permissions).  Every function that touches it is written in a
    state-and-error monad whose state survives a failure, as files already on
    disk do.

    The three revisions of the program under study are main.go, its
    predecessor (the same text without the diagnostics) and the revision that
    embeds its templates and reads crypto/rand.  They share generateVault and
    updateGlobalConfig word for word and differ in generateVaultID and in the
    two functions that write the vault's files.  The calls to debugLog only
    write diagnostics to the log and are left out of these definitions;
    main.go with its diagnostics in place comes after them, and is shown to
    do the same.  Command-line parsing is outside the model. *)

From Stdlib Require Import ZArith Ascii List Lia Permutation DecimalString DecimalZ.
From Stdlib.Strings Require Import Byte.
From Stdlib Require String.
From stdpp Require Import base option list gmap strings sorting.

Local Open Scope Z_scope.
Local Open Scope stdpp_scope.

(** ** Errors *)

(** The causes the runtime and the libraries report. *)
Inductive cause : Type :=
  | ENOENT            (* no such file or directory: os.ErrNotExist *)
  | EEXIST
  | ENOTDIR
  | EISDIR
  | EACCES
  | EIO
  | EOF               (* io.EOF *)
  | ErrUnexpectedEOF  (* io.ErrUnexpectedEOF *)
  | ErrGetwd          (* the working directory cannot be determined *)
  | ErrNoConfigDir    (* neither $XDG_CONFIG_HOME nor $HOME is defined *)
  | ErrSyntax         (* *json.SyntaxError *)
  | ErrType           (* *json.UnmarshalTypeError *)
  | ErrMarshal.       (* *json.UnsupportedValueError and the like *)

(** [Wrap msg e] is [fmt.Errorf(msg + ": %w", e)]. *)
Inductive error : Type :=
  | Base (c : cause)
  | Wrap (msg : string) (e : error).

Inductive result (A : Type) : Type :=
  | Ok (a : A)
  | Err (e : error).
Arguments Ok {A} a.
Arguments Err {A} e.

Global Instance cause_eq_dec : EqDecision cause.
Proof. solve_decision. Defined.

Global Instance error_eq_dec : EqDecision error.
Proof. solve_decision. Defined.

(** The innermost cause, as [errors.Is] finds it through the %w chain. *)
Fixpoint root_cause (e : error) : cause :=
  match e with
  | Base c => c
  | Wrap _ e' => root_cause e'
  end.

(** [errors.Is(err, os.ErrNotExist)] *)
Definition IsNotExist (e : error) : bool :=
  bool_decide (root_cause e = ENOENT).

(** ** Paths *)

Definition slash : ascii := Ascii.ascii_of_nat 47.

(** The pieces of a string between slashes, empty pieces included. *)
Fixpoint split (s : string) : list string :=
  match s with
  | EmptyString => [EmptyString]
  | String c s' =>
      if Ascii.eqb c slash then EmptyString :: split s'
      else match split s' with
           | h :: t => String c h :: t
           | [] => [String c EmptyString]
           end
  end.

Definition nonempty (s : string) : bool :=
  match s with EmptyString => false | _ => true end.

(** How the kernel reads an absolute path: the names from the root down. *)
Definition components (s : string) : list string :=
  List.filter nonempty (split s).

Module filepath.

(** [filepath.Join]: the non-empty elements separated by slashes.  The
    elements the program joins are clean names, on which the final
    [Clean] of the library changes nothing that [components] sees. *)
Fixpoint Join (elems : list string) : string :=
  match elems with
  | [] => EmptyString
  | e :: rest =>
      match e, Join rest with
      | EmptyString, r => r
      | _, EmptyString => e
      | _, r => e +:+ String slash r
      end
  end.

(** The text before the last slash, if there is a slash. *)
Fixpoint before_last_slash (s : string) : option string :=
  match s with
  | EmptyString => None
  | String c s' =>
      match before_last_slash s' with
      | Some d => Some (String c d)
      | None => if Ascii.eqb c slash then Some EmptyString else None
      end
  end.

(** [filepath.Dir]: all but the last element of the path. *)
Definition Dir (s : string) : string :=
  match before_last_slash s with
  | Some EmptyString => String slash EmptyString
  | Some d => d
  | None => "."
  end.

End filepath.

(** ** The operating system *)

Inductive node : Type :=
  | Directory
  | Regular (data : string).

Global Instance node_eq_dec : EqDecision node.
Proof. solve_decision. Defined.

Inductive event : Type :=
  | EvAbs (p : string)
  | EvMkdirAll (p : string)
  | EvRandom
  | EvTemplate (name : string)
  | EvWriteFile (p : string)
  | EvReadFile (p : string)
  | EvUserConfigDir
  | EvPrint (text : string).

Record World : Type := mkWorld {
  (** the directory tree: what lies at each absolute path below the root *)
  fs : gmap (list string) node;
  (** places where the process may not create or write an entry *)
  readonly : gset (list string);
  (** files whose content the process may not read *)
  unreadable : gset (list string);
  (** what [filepath.Abs] answers in this process *)
  abs : string → result string;
  (** what [os.UserConfigDir] answers *)
  configDir : result string;
  (** the randomness device: [Err e] when it cannot be opened, otherwise the
      bytes one read delivers and the error that read returns *)
  random : result (list byte * option error);
  (** wall-clock time, in milliseconds since the epoch *)
  now : Z;
  (** the calls made so far, oldest first *)
  trace : list event
}.

Definition set_fs (w : World) (f : gmap (list string) node) : World :=
  mkWorld f (readonly w) (unreadable w) (abs w) (configDir w) (random w)
          (now w) (trace w).

Definition record (ev : event) (w : World) : World :=
  mkWorld (fs w) (readonly w) (unreadable w) (abs w) (configDir w) (random w)
          (now w) (trace w ++ [ev]).

(** What is at path [p]; the root itself is always a directory. *)
Definition stat (w : World) (p : list string) : option node :=
  match p with
  | [] => Some Directory
  | _ => fs w !! p
  end.

(** ** A state-and-error monad *)

Definition M (A : Type) : Type := World → result A * World.

Definition ret {A} (a : A) : M A := fun w => (Ok a, w).
Definition fail {A} (e : error) : M A := fun w => (Err e, w).
Definition bind {A B} (m : M A) (k : A → M B) : M B :=
  fun w => match m w with
           | (Ok a, w') => k a w'
           | (Err e, w') => (Err e, w')
           end.

(** [if err != nil { return fmt.Errorf(msg + ": %w", err) }] *)
Definition wrapping {A} (msg : string) (m : M A) : M A :=
  fun w => match m w with
           | (Ok a, w') => (Ok a, w')
           | (Err e, w') => (Err (Wrap msg e), w')
           end.

Declare Scope go_scope.
Delimit Scope go_scope with go.
Notation "'let*' x ':=' m 'in' k" := (bind m (fun x => k))
  (at level 20, x name, m at level 100, k at level 200) : go_scope.
Local Open Scope go_scope.

Module os.

(** [os.Mkdir] at a path known to be absent. *)
Definition Mkdir (p : list string) : M unit := fun w =>
  match stat w (removelast p) with
  | Some Directory =>
      match stat w p with
      | Some _ => (Err (Base EEXIST), w)
      | None =>
          if decide (p ∈ readonly w) then (Err (Base EACCES), w)
          else (Ok tt, set_fs w (<[p := Directory]> (fs w)))
      end
  | Some (Regular _) => (Err (Base ENOTDIR), w)
  | None => (Err (Base ENOENT), w)
  end.

(** The recursion of [os.MkdirAll], on the path written last name first:
    succeed at once on a directory, refuse a file, otherwise make the
    parent and then the directory itself. *)
Fixpoint mkdirAll (rp : list string) : M unit := fun w =>
  match stat w (rev rp) with
  | Some Directory => (Ok tt, w)
  | Some (Regular _) => (Err (Base ENOTDIR), w)
  | None =>
      match rp with
      | [] => (Ok tt, w)
      | _ :: parent =>
          match mkdirAll parent w with
          | (Ok _, w1) => Mkdir (rev rp) w1
          | (Err e, w1) => (Err e, w1)
          end
      end
  end.

Definition MkdirAll (path : string) : M unit := fun w =>
  mkdirAll (rev (components path)) (record (EvMkdirAll path) w).

(** [os.WriteFile]: create or truncate, then write everything. *)
Definition WriteFile (path : string) (data : string) : M unit := fun w =>
  let w := record (EvWriteFile path) w in
  let p := components path in
  match stat w p with
  | Some Directory => (Err (Base EISDIR), w)
  | _ =>
      match stat w (removelast p) with
      | Some Directory =>
          if decide (p ∈ readonly w) then (Err (Base EACCES), w)
          else (Ok tt, set_fs w (<[p := Regular data]> (fs w)))
      | Some (Regular _) => (Err (Base ENOTDIR), w)
      | None => (Err (Base ENOENT), w)
      end
  end.

Definition ReadFile (path : string) : M string := fun w =>
  let w := record (EvReadFile path) w in
  let p := components path in
  match stat w p with
  | Some (Regular data) =>
      if decide (p ∈ unreadable w) then (Err (Base EACCES), w)
      else (Ok data, w)
  | Some Directory => (Err (Base EISDIR), w)
  | None => (Err (Base ENOENT), w)
  end.

Definition UserConfigDir : M string := fun w =>
  (configDir w, record EvUserConfigDir w).

End os.

Definition Abs (path : string) : M string := fun w =>
  (abs w path, record (EvAbs path) w).

(** [fmt.Printf] to the standard output. *)
Definition Print (text : string) : M unit := fun w =>
  (Ok tt, record (EvPrint text) w).

(** ** The randomness device *)

Definition zeros (n : nat) : list byte := replicate n x00.

Module file.

(** [File.Read]: the bytes delivered overwrite the start of the
    buffer and the rest of the buffer keeps what it held; a read that
    delivers nothing and has no error of its own reports [io.EOF]. *)
Definition Read (f : list byte * option error) (buf : list byte)
  : list byte * nat * option error :=
  let got := take (length buf) (fst f) in
  let buf' := got ++ drop (length got) buf in
  match got, snd f with
  | [], None => (buf', 0%nat, Some (Base EOF))
  | _, err => (buf', length got, err)
  end.

End file.

Module rand.

(** [crypto/rand.Read] is [io.ReadFull] on the system's source: it fills
    the whole buffer or fails. *)
Definition Read (buf : list byte) : M (list byte * nat) := fun w =>
  let w := record EvRandom w in
  match random w with
  | Err e => (Err e, w)
  | Ok (delivered, rerr) =>
      if decide (length buf ≤ length delivered)%nat
      then (Ok (take (length buf) delivered, length buf), w)
      else match rerr, delivered with
           | Some e, _ => (Err e, w)
           | None, [] => (Err (Base EOF), w)
           | None, _ => (Err (Base ErrUnexpectedEOF), w)
           end
  end.

End rand.

(** [os.Open("/dev/urandom")] *)
Definition OpenRandom : M (list byte * option error) := fun w =>
  (random w, record EvRandom w).

(** ** Formatting bytes with %x *)

Definition hexdigits : list ascii :=
  String.list_ascii_of_string "0123456789abcdef".

Definition hexdigit (n : N) : ascii :=
  nth (N.to_nat n) hexdigits (Ascii.ascii_of_nat 48).

Definition hex_of_byte (b : byte) : string :=
  String (hexdigit (N.shiftr (Byte.to_N b) 4))
    (String (hexdigit (N.land (Byte.to_N b) 15)) EmptyString).

(** [fmt.Sprintf("%x", bytes)] for a byte slice: two digits per byte. *)
Fixpoint Sprintf_x (bytes : list byte) : string :=
  match bytes with
  | [] => EmptyString
  | b :: rest => hex_of_byte b +:+ Sprintf_x rest
  end.

(** ** The registry document *)

Record VaultConfig : Type := mkVaultConfig {
  Path : string;   (* json:"path" *)
  Ts : Z;          (* json:"ts", an int64 *)
  Open : bool      (* json:"open" *)
}.

(** A nil map is [None]; [Some ∅] is a map that was made and is empty. *)
Record ObsidianConfig : Type := mkObsidianConfig {
  Vaults : option (gmap string VaultConfig);   (* json:"vaults" *)
  OpenSchemes : option (gmap string bool)      (* json:"openSchemes" *)
}.

Global Instance VaultConfig_eq_dec : EqDecision VaultConfig.
Proof. solve_decision. Defined.

Global Instance ObsidianConfig_eq_dec : EqDecision ObsidianConfig.
Proof. solve_decision. Defined.

(** [var config ObsidianConfig] *)
Definition zeroConfig : ObsidianConfig := mkObsidianConfig None None.

Module json.

(** The two entry points of encoding/json the program calls, at the type
    it calls them with. *)
Class Codec : Type := {
  (** [json.Unmarshal(data, &config)] into a zero [config] *)
  Unmarshal : string → result ObsidianConfig;
  (** [json.MarshalIndent] of [config] with no prefix and a two-space
      indent *)
  MarshalIndent : ObsidianConfig → result string
}.

(** What is written can be read back. *)
Class Lossless (C : Codec) : Prop :=
  lossless : ∀ config data,
    MarshalIndent config = Ok data → Unmarshal data = Ok config.

(** Values of this type always serialise. *)
Class Total (C : Codec) : Prop :=
  total : ∀ config, ∃ data, MarshalIndent config = Ok data.

End json.

(** ** The global registry (updateGlobalConfig, the same in every revision) *)

Definition defaultOpenSchemes : gmap string bool :=
  <["vscode" := true]> (<["chrome-extension" := true]> ∅).

(** [config.Vaults[vaultID] = v]; the map has been made by then. *)
Definition setVault (config : ObsidianConfig) (vaultID : string)
    (v : VaultConfig) : ObsidianConfig :=
  mkObsidianConfig (insert vaultID v <$> Vaults config) (OpenSchemes config).

(** Where the registry lives below the user's configuration directory. *)
Definition registryFile (configDir : string) : string :=
  filepath.Join [configDir; "obsidian"; "obsidian.json"].

Section Registry.
Context {codec : json.Codec}.

(** Read the existing configuration or start from the zero value. *)
Definition readConfig (obsidianConfigPath : string) : M ObsidianConfig :=
  fun w =>
    match os.ReadFile obsidianConfigPath w with
    | (Ok data, w1) =>
        match json.Unmarshal data with
        | Ok config => (Ok config, w1)
        | Err err => (Err (Wrap "failed to parse existing config" err), w1)
        end
    | (Err err, w1) =>
        if negb (IsNotExist err)
        then (Err (Wrap "failed to read config file" err), w1)
        else (Ok zeroConfig, w1)
    end.

(** Initialise the maps if they are nil. *)
Definition initMaps (config : ObsidianConfig) : ObsidianConfig :=
  let config :=
    match Vaults config with
    | None => mkObsidianConfig (Some ∅) (OpenSchemes config)
    | Some _ => config
    end in
  match OpenSchemes config with
  | None => mkObsidianConfig (Vaults config) (Some defaultOpenSchemes)
  | Some _ => config
  end.

Definition updateGlobalConfig (vaultPath vaultID : string) : M unit :=
  let* configDir :=
    wrapping "failed to get user config directory" os.UserConfigDir in
  let obsidianConfigPath := registryFile configDir in
  let configDirPath := filepath.Dir obsidianConfigPath in
  let* _ := wrapping "failed to create obsidian config directory"
              (os.MkdirAll configDirPath) in
  let* config := readConfig obsidianConfigPath in
  let config := initMaps config in
  let config :=
    setVault config vaultID
      (mkVaultConfig vaultPath 1757173820641 (* timestamp from example *)
                     true) in
  let* data := wrapping "failed to marshal config"
                 (fun w => (json.MarshalIndent config, w)) in
  let* _ := wrapping "failed to write config file"
              (os.WriteFile obsidianConfigPath data) in
  ret tt.

End Registry.

(** ** The orchestrator (generateVault, the same in every revision) *)

Definition newline : string := String (Ascii.ascii_of_nat 10) EmptyString.

Section Orchestrator.
Context {codec : json.Codec}.
(** The three steps on which the revisions differ. *)
Variable generateVaultID : M string.
Variable createObsidianFiles : string → M unit.
Variable createInitialFiles : string → M unit.

Definition generateVault (vaultPath : string) : M unit :=
  let* absVaultPath :=
    wrapping "failed to get absolute path" (Abs vaultPath) in
  let* _ := wrapping "failed to create vault directory"
              (os.MkdirAll absVaultPath) in
  let obsidianDir := filepath.Join [absVaultPath; ".obsidian"] in
  let* _ := wrapping "failed to create .obsidian directory"
              (os.MkdirAll obsidianDir) in
  let* vaultID := wrapping "failed to generate vault ID" generateVaultID in
  let* _ := wrapping "failed to create obsidian config files"
              (createObsidianFiles obsidianDir) in
  let* _ := wrapping "failed to create initial files"
              (createInitialFiles absVaultPath) in
  let* _ := wrapping "failed to update global config"
              (updateGlobalConfig absVaultPath vaultID) in
  let* _ := Print ("Successfully created vault at: " +:+ absVaultPath
                   +:+ newline) in
  let* _ := Print ("Vault ID: " +:+ vaultID +:+ newline) in
  ret tt.

End Orchestrator.

(** ** main.go (and its predecessor): /dev/urandom and inline documents *)

Module MainGo.

Definition generateVaultID : M string :=
  let bytes := zeros 8 in
  let* file := OpenRandom in
  let '(bytes, _, err) := file.Read file bytes in
  match err with
  | Some err => fail err
  | None => ret (Sprintf_x bytes)
  end.

Section Files.
(** The order in which a [range] over a map yields its entries. *)
Variable range : list (string * string) → list (string * string).
(** The long document literals of the source, taken as they are. *)
Variable corePlugins graph workspace : string.

Definition welcome : string :=
"This is your new *vault*.

Make a note of something, [[create a link]], or try [the Importer](https://help.obsidian.md/Plugins/Importer)!

When you're ready, delete this note and make the vault your own.".

Definition configFiles : list (string * string) :=
  [ ("app.json", "{}");
    ("appearance.json", "{}");
    ("core-plugins.json", corePlugins);
    ("graph.json", graph);
    ("workspace.json", workspace) ].

Definition initialFiles : list (string * string) :=
  [ ("Welcome.md", welcome) ].

Fixpoint writeFiles (dir : string) (entries : list (string * string))
  : M unit :=
  match entries with
  | [] => ret tt
  | (filename, content) :: rest =>
      let filePath := filepath.Join [dir; filename] in
      let* _ := wrapping ("failed to write " +:+ filename)
                  (os.WriteFile filePath content) in
      writeFiles dir rest
  end.

Definition createObsidianFiles (obsidianDir : string) : M unit :=
  writeFiles obsidianDir (range configFiles).

Definition createInitialFiles (vaultPath : string) : M unit :=
  writeFiles vaultPath (range initialFiles).

(** The orchestrator above, with this revision's three steps. *)
Definition generateVault {codec : json.Codec} : string → M unit :=
  generateVault generateVaultID createObsidianFiles createInitialFiles.

End Files.

(** This revision's registry update: the text shared by all of them. *)
Definition updateGlobalConfig {codec : json.Codec}
  : string → string → M unit := updateGlobalConfig.

End MainGo.

(** ** The revision with embedded templates and crypto/rand *)

Module Embedded.

Definition generateVaultID : M string :=
  let bytes := zeros 8 in
  let* r := wrapping "failed to generate random bytes" (rand.Read bytes) in
  let bytes := fst r in
  ret (Sprintf_x bytes).

Section Files.
Variable range : list (string * string) → list (string * string).
(** The content of the embedded templates directory. *)
Variable templatesFS : gmap string string.

Definition ReadTemplate (filename : string) : M string := fun w =>
  let w := record (EvTemplate filename) w in
  match templatesFS !! filename with
  | Some content => (Ok content, w)
  | None => (Err (Base ENOENT), w)
  end.

Definition loadEmbeddedTemplate (filename : string) : M string :=
  wrapping ("failed to read embedded template file " +:+ filename)
    (ReadTemplate filename).

Definition configTemplates : list (string * string) :=
  [ ("app.json", "templates/app.json");
    ("appearance.json", "templates/appearance.json");
    ("core-plugins.json", "templates/core-plugins.json");
    ("graph.json", "templates/graph.json");
    ("workspace.json", "templates/workspace.json") ].

Definition initialTemplates : list (string * string) :=
  [ ("Welcome.md", "templates/Welcome.md") ].

Fixpoint writeTemplates (dir : string) (entries : list (string * string))
  : M unit :=
  match entries with
  | [] => ret tt
  | (filename, templatePath) :: rest =>
      let* content := loadEmbeddedTemplate templatePath in
      let filePath := filepath.Join [dir; filename] in
      let* _ := wrapping ("failed to write " +:+ filename)
                  (os.WriteFile filePath content) in
      writeTemplates dir rest
  end.

Definition createObsidianFiles (obsidianDir : string) : M unit :=
  writeTemplates obsidianDir (range configTemplates).

Definition createInitialFiles (vaultPath : string) : M unit :=
  writeTemplates vaultPath (range initialTemplates).

(** The orchestrator above, with this revision's three steps. *)
Definition generateVault {codec : json.Codec} : string → M unit :=
  generateVault generateVaultID createObsidianFiles createInitialFiles.

End Files.

(** This revision's registry update: the text shared by all of them. *)
Definition updateGlobalConfig {codec : json.Codec}
  : string → string → M unit := updateGlobalConfig.

End Embedded.

(** ** A reference codec

    A small encoder and decoder for registry documents, enough to run the
    program on concrete worlds.  The encoder lays a document out as
    [json.MarshalIndent] does (two-space indent, keys in byte order); it
    escapes only the quote and the backslash.  The decoder reads that
    layout and any other spacing of it. *)

Module RefJSON.

Definition quote : ascii := Ascii.ascii_of_nat 34.
Definition backslash : ascii := Ascii.ascii_of_nat 92.
Definition space : ascii := Ascii.ascii_of_nat 32.
Definition lf : ascii := Ascii.ascii_of_nat 10.

(** *** Encoding: every printer puts its text in front of [rest] *)

Fixpoint indent (depth : nat) (rest : string) : string :=
  match depth with
  | O => rest
  | S d => String space (String space (indent d rest))
  end.

Definition nl (depth : nat) (rest : string) : string :=
  String lf (indent depth rest).

Definition escaped (c : ascii) : bool :=
  Ascii.eqb c quote || Ascii.eqb c backslash.

Fixpoint escape (s rest : string) : string :=
  match s with
  | EmptyString => rest
  | String c s' =>
      if escaped c then String backslash (String c (escape s' rest))
      else String c (escape s' rest)
  end.

Definition put_string (s rest : string) : string :=
  String quote (escape s (String quote rest)).

Definition put_bool (b : bool) (rest : string) : string :=
  if b then "true" +:+ rest else "false" +:+ rest.

Definition put_int (z : Z) (rest : string) : string :=
  DecimalString.NilZero.string_of_int (Z.to_int z) +:+ rest.

Fixpoint put_members {A} (put : nat → A → string → string) (depth : nat)
    (l : list (string * A)) (rest : string) : string :=
  match l with
  | [] => rest
  | (k, v) :: l' =>
      put_string k
        (String ":" (String space
           (put depth v
              match l' with
              | [] => rest
              | _ => String "," (nl depth (put_members put depth l' rest))
              end)))
  end.

Definition put_object {A} (put : nat → A → string → string) (depth : nat)
    (l : list (string * A)) (rest : string) : string :=
  match l with
  | [] => String "{" (String "}" rest)
  | _ => String "{" (nl (S depth)
           (put_members put (S depth) l (nl depth (String "}" rest))))
  end.

Inductive scalar : Type :=
  | SStr (s : string)
  | SInt (z : Z)
  | SBool (b : bool).

Definition put_scalar (depth : nat) (v : scalar) (rest : string) : string :=
  match v with
  | SStr s => put_string s rest
  | SInt z => put_int z rest
  | SBool b => put_bool b rest
  end.

Definition vault_fields (v : VaultConfig) : list (string * scalar) :=
  [ ("path", SStr (Path v)); ("ts", SInt (Ts v)); ("open", SBool (Open v)) ].

Definition put_vault (depth : nat) (v : VaultConfig) (rest : string)
  : string :=
  put_object put_scalar depth (vault_fields v) rest.

(** Map entries in the byte order of their keys. *)
Definition sorted_entries {A} (m : gmap string A) : list (string * A) :=
  merge_sort (λ a b, String.le a.1 b.1) (map_to_list m).

Definition put_map {A} (put : nat → A → string → string) (depth : nat)
    (m : option (gmap string A)) (rest : string) : string :=
  match m with
  | None => "null" +:+ rest
  | Some m => put_object put depth (sorted_entries m) rest
  end.

Inductive field : Type :=
  | FVaults (m : option (gmap string VaultConfig))
  | FSchemes (m : option (gmap string bool)).

Definition put_field (depth : nat) (f : field) (rest : string) : string :=
  match f with
  | FVaults m => put_map put_vault depth m rest
  | FSchemes m => put_map (λ _, put_bool) depth m rest
  end.

Definition config_fields (c : ObsidianConfig) : list (string * field) :=
  [ ("vaults", FVaults (Vaults c));
    ("openSchemes", FSchemes (OpenSchemes c)) ].

Definition encode (c : ObsidianConfig) : string :=
  put_object put_field 0 (config_fields c) EmptyString.

(** *** Decoding *)

Definition parser (A : Type) : Type := string → option (A * string).

Definition is_ws (c : ascii) : bool :=
  Ascii.eqb c space || Ascii.eqb c lf
  || Ascii.eqb c (Ascii.ascii_of_nat 9) || Ascii.eqb c (Ascii.ascii_of_nat 13).

Fixpoint skip_ws (s : string) : string :=
  match s with
  | EmptyString => EmptyString
  | String c s' => if is_ws c then skip_ws s' else s
  end.

(** The input after the text [lit], if it starts with it. *)
Fixpoint literal (lit s : string) : option string :=
  match lit with
  | EmptyString => Some s
  | String c lit' =>
      match s with
      | EmptyString => None
      | String c' s' => if Ascii.eqb c c' then literal lit' s' else None
      end
  end.

Definition token (lit : string) : parser unit := fun s =>
  match literal lit (skip_ws s) with
  | Some rest => Some (tt, rest)
  | None => None
  end.

(** The text of a string up to its closing quote. *)
Fixpoint read_string (s : string) : option (string * string) :=
  match s with
  | EmptyString => None
  | String c s' =>
      if Ascii.eqb c quote then Some (EmptyString, s')
      else if Ascii.eqb c backslash then
        match s' with
        | EmptyString => None
        | String c' s'' =>
            if escaped c' then
              match read_string s'' with
              | Some (v, rest) => Some (String c' v, rest)
              | None => None
              end
            else None
        end
      else
        match read_string s' with
        | Some (v, rest) => Some (String c v, rest)
        | None => None
        end
  end.

Definition get_string : parser string := fun s =>
  match skip_ws s with
  | String c s' => if Ascii.eqb c quote then read_string s' else None
  | EmptyString => None
  end.

Definition get_bool : parser bool := fun s =>
  match literal "true" (skip_ws s) with
  | Some rest => Some (true, rest)
  | None =>
      match literal "false" (skip_ws s) with
      | Some rest => Some (false, rest)
      | None => None
      end
  end.

Definition is_num (c : ascii) : bool :=
  Ascii.eqb c "-" || ((48 <=? Ascii.nat_of_ascii c)%nat
                      && (Ascii.nat_of_ascii c <=? 57)%nat).

Fixpoint span_num (s : string) : string * string :=
  match s with
  | EmptyString => (EmptyString, EmptyString)
  | String c s' =>
      if is_num c then let '(a, b) := span_num s' in (String c a, b)
      else (EmptyString, s)
  end.

Definition get_int : parser Z := fun s =>
  let '(num, rest) := span_num (skip_ws s) in
  match DecimalString.NilZero.int_of_string num with
  | Some i => Some (Z.of_int i, rest)
  | None => None
  end.

Definition get_scalar : parser scalar := fun s =>
  match skip_ws s with
  | EmptyString => None
  | String c _ =>
      if Ascii.eqb c quote then
        match get_string s with
        | Some (v, rest) => Some (SStr v, rest)
        | None => None
        end
      else if is_num c then
        match get_int s with
        | Some (v, rest) => Some (SInt v, rest)
        | None => None
        end
      else
        match get_bool s with
        | Some (v, rest) => Some (SBool v, rest)
        | None => None
        end
  end.

(** The members of an object after its opening brace, up to and
    including the closing brace. *)
Fixpoint get_members {A} (get : string → parser A) (fuel : nat)
  : parser (list (string * A)) := fun s =>
  match fuel with
  | O => None
  | S fuel' =>
      match get_string s with
      | None => None
      | Some (k, s1) =>
          match token ":" s1 with
          | None => None
          | Some (_, s2) =>
              match get k s2 with
              | None => None
              | Some (v, s3) =>
                  match skip_ws s3 with
                  | String c s4 =>
                      if Ascii.eqb c "," then
                        match get_members get fuel' s4 with
                        | Some (l, rest) => Some ((k, v) :: l, rest)
                        | None => None
                        end
                      else if Ascii.eqb c "}" then Some ([(k, v)], s4)
                      else None
                  | EmptyString => None
                  end
              end
          end
      end
  end.

Definition get_object {A} (get : string → parser A) (fuel : nat)
  : parser (list (string * A)) := fun s =>
  match token "{" s with
  | None => None
  | Some (_, s1) =>
      match skip_ws s1 with
      | String c s2 =>
          if Ascii.eqb c "}" then Some ([], s2)
          else get_members get fuel s1
      | EmptyString => None
      end
  end.

(** A record from its fields: a missing field keeps its zero value, an
    unknown one is skipped, one of the wrong type is an error. *)
Fixpoint vault_of_fields (l : list (string * scalar)) (v : VaultConfig)
  : option VaultConfig :=
  match l with
  | [] => Some v
  | (k, x) :: l' =>
      if decide (k = "path") then
        match x with
        | SStr s => vault_of_fields l' (mkVaultConfig s (Ts v) (Open v))
        | _ => None
        end
      else if decide (k = "ts") then
        match x with
        | SInt z => vault_of_fields l' (mkVaultConfig (Path v) z (Open v))
        | _ => None
        end
      else if decide (k = "open") then
        match x with
        | SBool b => vault_of_fields l' (mkVaultConfig (Path v) (Ts v) b)
        | _ => None
        end
      else vault_of_fields l' v
  end.

Definition get_vault (fuel : nat) : parser VaultConfig := fun s =>
  match get_object (λ _, get_scalar) fuel s with
  | Some (l, rest) =>
      match vault_of_fields l (mkVaultConfig EmptyString 0 false) with
      | Some v => Some (v, rest)
      | None => None
      end
  | None => None
  end.

(** A map or [null]; of two entries with one key the later one stays. *)
Definition get_map {A} (get : parser A) (fuel : nat)
  : parser (option (gmap string A)) := fun s =>
  match literal "null" (skip_ws s) with
  | Some rest => Some (None, rest)
  | None =>
      match get_object (λ _, get) fuel s with
      | Some (l, rest) => Some (Some (list_to_map (reverse l)), rest)
      | None => None
      end
  end.

Definition get_field (fuel : nat) (k : string) : parser field := fun s =>
  if decide (k = "vaults") then
    match get_map (get_vault fuel) fuel s with
    | Some (m, rest) => Some (FVaults m, rest)
    | None => None
    end
  else if decide (k = "openSchemes") then
    match get_map get_bool fuel s with
    | Some (m, rest) => Some (FSchemes m, rest)
    | None => None
    end
  else None.

Fixpoint config_of_fields (l : list (string * field)) (c : ObsidianConfig)
  : ObsidianConfig :=
  match l with
  | [] => c
  | (_, FVaults (Some m)) :: l' =>
      config_of_fields l' (mkObsidianConfig (Some m) (OpenSchemes c))
  | (_, FSchemes (Some m)) :: l' =>
      config_of_fields l' (mkObsidianConfig (Vaults c) (Some m))
  | _ :: l' => config_of_fields l' c
  end.

Definition decode (data : string) : result ObsidianConfig :=
  match literal "null" (skip_ws data) with
  | Some rest =>
      match skip_ws rest with
      | EmptyString => Ok zeroConfig
      | _ => Err (Base ErrSyntax)
      end
  | None =>
      match get_object (get_field (String.length data))
              (String.length data) data with
      | Some (l, rest) =>
          match skip_ws rest with
          | EmptyString => Ok (config_of_fields l zeroConfig)
          | _ => Err (Base ErrSyntax)
          end
      | None => Err (Base ErrSyntax)
      end
  end.

(** The next character, if any, cannot continue a number. *)
Definition no_num_ahead (s : string) : Prop :=
  match s with
  | EmptyString => True
  | String c _ => is_num c = false
  end.

Definition all_num (s : string) : Prop :=
  Forall (λ c, is_num c = true) (String.list_ascii_of_string s).

Definition codec : json.Codec :=
  {| json.Unmarshal := decode;
     json.MarshalIndent := λ c, Ok (encode c) |}.

End RefJSON.

(** ** Vocabulary of the properties *)

(** Two worlds with the same environment: only the tree and the trace may
    differ. *)
Definition env_eq (w w' : World) : Prop :=
  readonly w' = readonly w ∧ unreadable w' = unreadable w ∧ abs w' = abs w ∧
  configDir w' = configDir w ∧ random w' = random w ∧ now w' = now w.

(** A directory can be made when every name on the way is a directory or
    is absent from a place where creation is allowed. *)
Definition creatable (w : World) (p : list string) : Prop :=
  ∀ q, q `prefix_of` p →
       stat w q = Some Directory ∨ (stat w q = None ∧ q ∉ readonly w).

(** What the registry held before the call, as the call reads it: the zero
    value when there is no file, the parsed document of a readable file. *)
Definition prior_registry {codec : json.Codec} (w : World) (dir : string)
    (prior : ObsidianConfig) : Prop :=
  match fs w !! components (registryFile dir) with
  | None => prior = zeroConfig
  | Some (Regular d) =>
      (components (registryFile dir) ∉ unreadable w)
      ∧ json.Unmarshal d = Ok prior
  | Some Directory => False
  end.

(** A lowercase hexadecimal digit. *)
Definition lower_hex (c : ascii) : bool :=
  existsb (Ascii.eqb c) hexdigits.

Definition hex_value (c : ascii) : option N :=
  (λ i, N.of_nat i.1) <$> list_find (λ d, d = c) hexdigits.

(** The bytes a string of hexadecimal digit pairs stands for. *)
Fixpoint unhex (s : string) : option (list byte) :=
  match s with
  | EmptyString => Some []
  | String _ EmptyString => None
  | String c1 (String c2 rest) =>
      match hex_value c1, hex_value c2, unhex rest with
      | Some h, Some l, Some bytes =>
          match Byte.of_N (16 * h + l) with
          | Some b => Some (b :: bytes)
          | None => None
          end
      | _, _, _ => None
      end
  end.

(** A registration stores the timestamp [ts]: in the document it writes, the
    record bound to the identifier carries [ts] of the world it ran in. *)
Definition stores_timestamp {codec : json.Codec}
    (register : string → string → M unit) (ts : World → Z) : Prop :=
  ∀ vaultPath vaultID w w',
    register vaultPath vaultID w = (Ok tt, w') →
    ∃ dir data config vaults v,
      configDir w = Ok dir
      ∧ fs w' !! components (registryFile dir) = Some (Regular data)
      ∧ json.Unmarshal data = Ok config
      ∧ Vaults config = Some vaults
      ∧ vaults !! vaultID = Some v
      ∧ Ts v = ts w.

(** *** The phases of a vault creation *)

Inductive phase : Type :=
  | ResolvePath       (* resolve path *)
  | CreateRoot        (* create directories: the vault root *)
  | CreateConfigDir   (* create directories: the configuration directory *)
  | GenerateID        (* generate ID *)
  | WriteConfig       (* write config documents *)
  | WriteStarter      (* write starter document *)
  | Register.         (* register in the global registry *)

Definition all_phases : list phase :=
  [ ResolvePath; CreateRoot; CreateConfigDir; GenerateID; WriteConfig;
    WriteStarter; Register ].

(** The words with which the orchestrator names a failing phase. *)
Definition label (ph : phase) : string :=
  match ph with
  | ResolvePath => "failed to get absolute path"
  | CreateRoot => "failed to create vault directory"
  | CreateConfigDir => "failed to create .obsidian directory"
  | GenerateID => "failed to generate vault ID"
  | WriteConfig => "failed to create obsidian config files"
  | WriteStarter => "failed to create initial files"
  | Register => "failed to update global config"
  end.

(** What a run has established so far. *)
Record progress : Type := mkProgress {
  resolved : string;     (* the absolute path of the vault *)
  identifier : string    (* the identifier of the vault *)
}.

Definition start : progress := mkProgress EmptyString EmptyString.

Section Phases.
Context {codec : json.Codec}.
Variable generateVaultID : M string.
Variable createObsidianFiles : string → M unit.
Variable createInitialFiles : string → M unit.

(** One phase, on its own. *)
Definition step (vaultPath : string) (ph : phase) (c : progress)
  : M progress :=
  match ph with
  | ResolvePath =>
      let* p := Abs vaultPath in ret (mkProgress p (identifier c))
  | CreateRoot =>
      let* _ := os.MkdirAll (resolved c) in ret c
  | CreateConfigDir =>
      let* _ := os.MkdirAll (filepath.Join [resolved c; ".obsidian"]) in
      ret c
  | GenerateID =>
      let* i := generateVaultID in ret (mkProgress (resolved c) i)
  | WriteConfig =>
      let* _ := createObsidianFiles
                  (filepath.Join [resolved c; ".obsidian"]) in
      ret c
  | WriteStarter =>
      let* _ := createInitialFiles (resolved c) in ret c
  | Register =>
      let* _ := updateGlobalConfig (resolved c) (identifier c) in ret c
  end.

(** The phases one after the other: the first failure ends the run with
    the error of that phase under its label, in the world that phase
    left. *)
Fixpoint run (vaultPath : string) (phases : list phase) (c : progress)
  : M progress :=
  match phases with
  | [] => ret c
  | ph :: rest =>
      let* c' := wrapping (label ph) (step vaultPath ph c) in
      run vaultPath rest c'
  end.

(** The two lines printed after the last phase. *)
Definition report (c : progress) : M unit :=
  let* _ := Print ("Successfully created vault at: " +:+ resolved c
                   +:+ newline) in
  let* _ := Print ("Vault ID: " +:+ identifier c +:+ newline) in
  ret tt.

End Phases.

(** *** The layout of a vault *)



Definition configNames : list string :=
  [ "app.json"; "appearance.json"; "core-plugins.json"; "graph.json";
    "workspace.json" ].




(** What is on disk stays on disk, and a directory stays a directory. *)
Definition persists (w w' : World) : Prop :=
  ∀ p n, fs w !! p = Some n →
         ∃ n', fs w' !! p = Some n' ∧ (n = Directory → n' = Directory).

(** From [w] to [w'] the environment is the same, the tree has changed at
    most at the paths in [P], and nothing has been removed. *)
Definition evolves (P : list string → Prop) (w w' : World) : Prop :=
  env_eq w w' ∧ (∀ q, ¬ P q → fs w' !! q = fs w !! q) ∧ persists w w'.


(** The embedded template for a file name. *)
Definition embedded (templatesFS : gmap string string) (name : string)
  : option string :=
  templatesFS !! ("templates/" +:+ name).

(** The orchestrator built from three steps runs the phases in order and
    stops at the first failure: it is the run of all phases followed by the
    report; and when it fails, the phases before some phase succeeded, that
    phase failed, the error returned is that phase's error under its label,
    the world returned is the one that phase left, and what was on disk
    before the run and before the failing phase is still there. *)
Definition runs_phases_and_aborts {codec : json.Codec}
    (generateVaultID : M string)
    (createObsidianFiles createInitialFiles : string → M unit) : Prop :=
  ∀ vaultPath w,
    generateVault generateVaultID createObsidianFiles createInitialFiles
      vaultPath w
    = bind (run generateVaultID createObsidianFiles createInitialFiles
              vaultPath all_phases start) report w
    ∧ ∀ e w',
        generateVault generateVaultID createObsidianFiles createInitialFiles
          vaultPath w = (Err e, w') →
        ∃ before ph after c0 w0 e0,
          all_phases = before ++ ph :: after
          ∧ run generateVaultID createObsidianFiles createInitialFiles
              vaultPath before start w = (Ok c0, w0)
          ∧ step generateVaultID createObsidianFiles createInitialFiles
              vaultPath ph c0 w0 = (Err e0, w')
          ∧ e = Wrap (label ph) e0
          ∧ persists w w0 ∧ persists w0 w'.

(** ** Example worlds *)

Module Example.

Definition tree (entries : list (list string * node))
  : gmap (list string) node := list_to_map entries.

(** A machine with a home directory and /tmp, and nothing else. *)
Definition bare : gmap (list string) node :=
  tree [ (["home"], Directory); (["home"; "u"], Directory);
         (["tmp"], Directory) ].

Definition world (t : gmap (list string) node)
    (rnd : result (list byte * option error)) : World :=
  {| fs := t; readonly := ∅; unreadable := ∅;
     abs := λ p, Ok p;
     configDir := Ok "/home/u/.config";
     random := rnd;
     now := 1761868800000;
     trace := [] |}.

Definition entropy : list byte :=
  [x3f; x00; xa7; x1c; x9e; x52; xd4; x08].

(** Nothing registered yet. *)
Definition clean : World := world bare (Ok (entropy, None)).

Definition registry : list string :=
  ["home"; "u"; ".config"; "obsidian"; "obsidian.json"].

Definition configured (document : string) : gmap (list string) node :=
  tree [ (["home"], Directory); (["home"; "u"], Directory);
         (["home"; "u"; ".config"], Directory);
         (["home"; "u"; ".config"; "obsidian"], Directory);
         (registry, Regular document);
         (["tmp"], Directory) ].

(** A registry file that is not a document. *)
Definition corrupt : World :=
  world (configured "{ not json") (Ok (entropy, None)).

Definition other : VaultConfig :=
  mkVaultConfig "/srv/notes" 1700000000000 false.

(** A registry with one vault and one scheme switched off. *)
Definition known : ObsidianConfig :=
  mkObsidianConfig (Some {["00000000000000aa" := other]})
                   (Some {["vscode" := false]}).

Definition populated : World :=
  world (configured (RefJSON.encode known)) (Ok (entropy, None)).

(** A registry whose maps are both null. *)
Definition nulls : World :=
  world (configured (RefJSON.encode zeroConfig)) (Ok (entropy, None)).

(** The device delivers three bytes and then nothing more. *)
Definition starved : World :=
  world bare (Ok ([xa1; xb2; xc3], None)).

(** The device cannot be opened. *)
Definition blind : World := world bare (Err (Base ENOENT)).


(** An embedded templates directory. *)
Definition templates : gmap string string :=
  list_to_map
    [ ("templates/app.json", "{}");
      ("templates/appearance.json", "{}");
      ("templates/core-plugins.json", "{ plugins }");
      ("templates/graph.json", "{ graph }");
      ("templates/workspace.json", "{ workspace }");
      ("templates/Welcome.md", "This is your new *vault*.") ].

(** The map iteration that yields the entries as they were written. *)
Definition in_order (l : list (string * string)) : list (string * string) :=
  l.

End Example.
(** ** The registry update as two processes see it *)

(** The update reads the registry and later overwrites it, with nothing
    that keeps another process from doing the same in between.  Its text
    falls into the part up to the read and the part from there on. *)
Section RegistryHalves.
Context {codec : json.Codec}.

(** From the start of updateGlobalConfig to the end of the read: the path of
    the registry and the configuration read from it. *)
Definition loadRegistry : M (string * ObsidianConfig) :=
  let* configDir :=
    wrapping "failed to get user config directory" os.UserConfigDir in
  let obsidianConfigPath := registryFile configDir in
  let configDirPath := filepath.Dir obsidianConfigPath in
  let* _ := wrapping "failed to create obsidian config directory"
              (os.MkdirAll configDirPath) in
  let* config := readConfig obsidianConfigPath in
  ret (obsidianConfigPath, config).

(** From the initialisation of the maps to the end of updateGlobalConfig,
    with the local variables the first part has set. *)
Definition storeRegistry (vaultPath vaultID : string)
    (loaded : string * ObsidianConfig) : M unit :=
  let obsidianConfigPath := fst loaded in
  let config := initMaps (snd loaded) in
  let config :=
    setVault config vaultID
      (mkVaultConfig vaultPath 1757173820641 true) in
  let* data := wrapping "failed to marshal config"
                 (fun w => (json.MarshalIndent config, w)) in
  let* _ := wrapping "failed to write config file"
              (os.WriteFile obsidianConfigPath data) in
  ret tt.

End RegistryHalves.
(** ** More vocabulary *)

(** The tree has only grown by directories. *)
Definition only_directories_added (w w' : World) : Prop :=
  ∀ q, fs w' !! q = fs w !! q
       ∨ (fs w !! q = None ∧ fs w' !! q = Some Directory).

(** The file [name] of directory [dir] can be written: no directory has
    that name and the process may write there. *)
Definition writable (w : World) (dir : list string) (name : string) : Prop :=
  stat w (dir ++ [name]) ≠ Some Directory ∧ dir ++ [name] ∉ readonly w.

(** The calls of a writing loop over [entries] when every write succeeds:
    for each entry what loading its content calls, then the write. *)
Definition loop_calls (calls : string → list event) (dir : string)
    (entries : list (string * string)) : list event :=
  flat_map (λ e, calls e.2 ++ [EvWriteFile (filepath.Join [dir; e.1])])
    entries.

(** From [w] to [w'] calls have been made, and all of them are of the kind
    [Q]. *)
Definition appends (Q : event → Prop) (w w' : World) : Prop :=
  ∃ evs, trace w' = trace w ++ evs ∧ Forall Q evs.

(** A line printed on the standard output. *)
Definition is_print (ev : event) : bool :=
  match ev with EvPrint _ => true | _ => false end.

(** The calls with which the registry is located and read. *)
Definition consults_registry (ev : event) : bool :=
  match ev with EvUserConfigDir | EvReadFile _ => true | _ => false end.


(** A call that neither prints nor consults the registry. *)
Definition quiet (ev : event) : Prop :=
  is_print ev = false ∧ consults_registry ev = false.



(** ** More example worlds *)

Module Scenario.

(** The machine of the examples with some places closed to the process. *)
Definition world_with (t : gmap (list string) node)
    (ro un : gset (list string))
    (rnd : result (list byte * option error)) : World :=
  {| fs := t; readonly := ro; unreadable := un;
     abs := λ p, Ok p;
     configDir := Ok "/home/u/.config";
     random := rnd;
     now := 1761868800000;
     trace := [] |}.

(** A registry the process may not read. *)
Definition locked : World :=
  world_with (Example.configured (RefJSON.encode Example.known))
    ∅ {[ Example.registry ]} (Ok (Example.entropy, None)).

(** A registry the process may not write. *)
Definition sealed : World :=
  world_with (Example.configured (RefJSON.encode Example.known))
    {[ Example.registry ]} ∅ (Ok (Example.entropy, None)).

(** A file where the directory of the registry should be. *)
Definition blocked : World :=
  Example.world
    (Example.tree [ (["home"], Directory); (["home"; "u"], Directory);
                    (["home"; "u"; ".config"], Directory);
                    (["home"; "u"; ".config"; "obsidian"], Regular "notes");
                    (["tmp"], Directory) ])
    (Ok (Example.entropy, None)).

Definition vault : list (list string * node) :=
  [ (["home"], Directory); (["home"; "u"], Directory);
    (["tmp"], Directory); (["tmp"; "vault"], Directory);
    (["tmp"; "vault"; ".obsidian"], Directory) ].

(** The two directories of the vault are there, and nothing in them. *)
Definition prepared : World :=
  Example.world (Example.tree vault) (Ok (Example.entropy, None)).

(** The same, with one document the process may not write. *)
Definition guarded : World :=
  world_with (Example.tree vault)
    {[ ["tmp"; "vault"; ".obsidian"; "core-plugins.json"] ]} ∅
    (Ok (Example.entropy, None)).

(** An embedded templates directory that lacks one document. *)
Definition incomplete : gmap string string :=
  delete "templates/graph.json" Example.templates.

(** The map iteration that yields the entries last first. *)
Definition backwards (l : list (string * string)) : list (string * string) :=
  reverse l.



End Scenario.
(** ** The program with its diagnostics *)

(** main.go is its predecessor with calls of debugLog added, and the
    revision with embedded templates has them too.  Here are both once more
    with these calls in place.  A computation now also depends on the
    verbosity the command line has set and yields the calls of log.Printf it
    has made. *)

(** An operand of a format. *)
Inductive arg : Type :=
  | AString (s : string)
  | AInt (n : Z)
  | AError (e : error).

(** One call of log.Printf: the format and its operands. *)
Record line : Type := mkLine {
  format : string;
  operands : list arg
}.

(** [fmt.Sprintf("%d", n)] *)
Definition decimal (n : Z) : string :=
  DecimalString.NilZero.string_of_int (Z.to_int n).

(** [debugLog(level, format, args...)] when the variable verbosity holds
    [verbosity]. *)
Definition debugLog (verbosity level : Z) (format : string)
    (args : list arg) : list line :=
  if (level <=? verbosity)%Z
  then let prefix := "[DEBUG" +:+ decimal level +:+ "] " in
       [mkLine (prefix +:+ format) args]
  else [].

Definition L (A : Type) : Type := Z → World → result A * World * list line.

Definition retL {A} (a : A) : L A := fun _ w => (Ok a, w, []).
Definition failL {A} (e : error) : L A := fun _ w => (Err e, w, []).
Definition bindL {A B} (m : L A) (k : A → L B) : L B :=
  fun v w => match m v w with
             | (Ok a, w1, l1) =>
                 match k a v w1 with
                 | (r, w2, l2) => (r, w2, l1 ++ l2)
                 end
             | (Err e, w1, l1) => (Err e, w1, l1)
             end.

Notation "'let+' x ':=' m 'in' k" := (bindL m (fun x => k))
  (at level 20, x name, m at level 100, k at level 200) : go_scope.

(** A call of the operating system that logs nothing. *)
Definition lift {A} (m : M A) : L A := fun _ w => (m w, []).
(** The same call, with its error handed to the caller. *)
Definition call {A} (m : M A) : L (result A) :=
  fun _ w => match m w with (r, w1) => (Ok r, w1, []) end.
(** A value or an error computed without the operating system. *)
Definition pure {A} (r : result A) : L A := fun _ w => (r, w, []).
(** The variable verbosity. *)
Definition verbosity : L Z := fun v w => (Ok v, w, []).

Definition say (level : Z) (format : string) (args : list arg) : L unit :=
  fun v w => (Ok tt, w, debugLog v level format args).

(** [if err != nil { debugLog(level, format, args...); return wrap(err) }] *)
Definition attempt {A} (m : L A) (level : Z) (format : string)
    (args : error → list arg) (wrap : error → error) : L A :=
  fun v w => match m v w with
             | (Ok a, w1, l) => (Ok a, w1, l)
             | (Err err, w1, l) =>
                 (Err (wrap err), w1, l ++ debugLog v level format (args err))
             end.

(** [len(m)] of a map that may be nil. *)
Definition len {A} (m : option (gmap string A)) : Z :=
  match m with
  | Some m => Z.of_nat (size m)
  | None => 0
  end.

Module Verbose.

(** *** updateGlobalConfig, the same in both *)

Section Registry.
Context {codec : json.Codec}.

Definition readConfig (obsidianConfigPath : string) : L ObsidianConfig :=
  let+ read := call (os.ReadFile obsidianConfigPath) in
  match read with
  | Ok data =>
      let+ _ := say 3 "Found existing config file, parsing JSON" [] in
      let+ config := attempt (pure (json.Unmarshal data))
                       2 "Failed to parse existing config: %v"
                       (fun err => [AError err])
                       (Wrap "failed to parse existing config") in
      let+ _ := say 3 "Successfully parsed existing config with %d vaults"
                  [AInt (len (Vaults config))] in
      retL config
  | Err err =>
      if negb (IsNotExist err)
      then let+ _ := say 2 "Failed to read config file: %v" [AError err] in
           failL (Wrap "failed to read config file" err)
      else let+ _ := say 3 "No existing config file found, creating new one"
                       [] in
           retL zeroConfig
  end.

Definition initMaps (config : ObsidianConfig) : L ObsidianConfig :=
  let+ config :=
    match Vaults config with
    | None =>
        let+ _ := say 3 "Initializing empty vaults map" [] in
        retL (mkObsidianConfig (Some ∅) (OpenSchemes config))
    | Some _ => retL config
    end in
  match OpenSchemes config with
  | None =>
      let+ _ := say 3 "Initializing default open schemes" [] in
      retL (mkObsidianConfig (Vaults config) (Some defaultOpenSchemes))
  | Some _ => retL config
  end.

Definition updateGlobalConfig (vaultPath vaultID : string) : L unit :=
  let+ _ := say 2 "Getting user config directory" [] in
  let+ configDir :=
    attempt (lift os.UserConfigDir)
      2 "Failed to get user config directory: %v" (fun err => [AError err])
      (Wrap "failed to get user config directory") in
  let+ _ := say 2 "User config directory: %s" [AString configDir] in
  let obsidianConfigPath := registryFile configDir in
  let+ _ := say 1 "Global Obsidian config path: %s"
              [AString obsidianConfigPath] in
  let configDirPath := filepath.Dir obsidianConfigPath in
  let+ _ := say 2 "Ensuring config directory exists: %s"
              [AString configDirPath] in
  let+ _ := attempt (lift (os.MkdirAll configDirPath))
              2 "Failed to create obsidian config directory: %v"
              (fun err => [AError err])
              (Wrap "failed to create obsidian config directory") in
  let+ _ := say 3 "Config directory created/verified" [] in
  let+ _ := say 2 "Reading existing global config" [] in
  let+ config := readConfig obsidianConfigPath in
  let+ config := initMaps config in
  let+ _ := say 2 "Adding new vault to config: %s -> %s"
              [AString vaultID; AString vaultPath] in
  let config :=
    setVault config vaultID
      (mkVaultConfig vaultPath 1757173820641 (* timestamp from example *)
                     true) in
  let+ _ := say 3 "Vault added to config" [] in
  let+ _ := say 2 "Marshaling updated config to JSON" [] in
  let+ data := attempt (pure (json.MarshalIndent config))
                 2 "Failed to marshal config: %v" (fun err => [AError err])
                 (Wrap "failed to marshal config") in
  let+ _ := say 3 "Config marshaled successfully" [] in
  let+ _ := say 2 "Writing updated config to: %s"
              [AString obsidianConfigPath] in
  let+ _ := attempt (lift (os.WriteFile obsidianConfigPath data))
              2 "Failed to write config file: %v" (fun err => [AError err])
              (Wrap "failed to write config file") in
  let+ _ := say 3 "Global config file written successfully" [] in
  retL tt.

End Registry.

(** *** generateVault, the same in both *)

Section Orchestrator.
Context {codec : json.Codec}.
Variable generateVaultID : L string.
Variable createObsidianFiles : string → L unit.
Variable createInitialFiles : string → L unit.

Definition generateVault (vaultPath : string) : L unit :=
  let+ _ := say 1 "Starting vault generation for path: %s"
              [AString vaultPath] in
  let+ v := verbosity in
  let+ _ := say 2 "Verbosity level: %d" [AInt v] in
  let+ _ := say 1 "Converting to absolute path" [] in
  let+ absVaultPath :=
    attempt (lift (Abs vaultPath))
      1 "Failed to get absolute path: %v" (fun err => [AError err])
      (Wrap "failed to get absolute path") in
  let+ _ := say 1 "Absolute vault path: %s" [AString absVaultPath] in
  let+ _ := say 1 "Creating vault directory: %s" [AString absVaultPath] in
  let+ _ := attempt (lift (os.MkdirAll absVaultPath))
              1 "Failed to create vault directory: %v"
              (fun err => [AError err])
              (Wrap "failed to create vault directory") in
  let+ _ := say 2 "Successfully created vault directory" [] in
  let obsidianDir := filepath.Join [absVaultPath; ".obsidian"] in
  let+ _ := say 1 "Creating .obsidian directory: %s" [AString obsidianDir] in
  let+ _ := attempt (lift (os.MkdirAll obsidianDir))
              1 "Failed to create .obsidian directory: %v"
              (fun err => [AError err])
              (Wrap "failed to create .obsidian directory") in
  let+ _ := say 2 "Successfully created .obsidian directory" [] in
  let+ _ := say 1 "Generating vault ID" [] in
  let+ vaultID :=
    attempt generateVaultID
      1 "Failed to generate vault ID: %v" (fun err => [AError err])
      (Wrap "failed to generate vault ID") in
  let+ _ := say 1 "Generated vault ID: %s" [AString vaultID] in
  let+ _ := say 1 "Creating Obsidian config files" [] in
  let+ _ := attempt (createObsidianFiles obsidianDir)
              1 "Failed to create obsidian config files: %v"
              (fun err => [AError err])
              (Wrap "failed to create obsidian config files") in
  let+ _ := say 2 "Successfully created Obsidian config files" [] in
  let+ _ := say 1 "Creating initial markdown files" [] in
  let+ _ := attempt (createInitialFiles absVaultPath)
              1 "Failed to create initial files: %v"
              (fun err => [AError err])
              (Wrap "failed to create initial files") in
  let+ _ := say 2 "Successfully created initial markdown files" [] in
  let+ _ := say 1 "Updating global Obsidian configuration" [] in
  let+ _ := attempt (updateGlobalConfig absVaultPath vaultID)
              1 "Failed to update global config: %v"
              (fun err => [AError err])
              (Wrap "failed to update global config") in
  let+ _ := say 2 "Successfully updated global configuration" [] in
  let+ _ := lift (Print ("Successfully created vault at: " +:+ absVaultPath
                         +:+ newline)) in
  let+ _ := lift (Print ("Vault ID: " +:+ vaultID +:+ newline)) in
  let+ _ := say 1 "Vault generation completed successfully" [] in
  retL tt.

End Orchestrator.

(** *** main.go *)

Module Main.

Definition generateVaultID : L string :=
  let+ _ := say 2 "Opening /dev/urandom for vault ID generation" [] in
  let bytes := zeros 8 in
  let+ opened := call OpenRandom in
  match opened with
  | Err err =>
      let+ _ := say 2 "Failed to open /dev/urandom: %v" [AError err] in
      failL err
  | Ok file =>
      let+ _ := say 3 "Successfully opened /dev/urandom" [] in
      let+ _ := say 2 "Reading 8 random bytes" [] in
      let '(bytes, _, err) := file.Read file bytes in
      match err with
      | Some err =>
          let+ _ := say 2 "Failed to read from /dev/urandom: %v"
                      [AError err] in
          failL err
      | None =>
          let vaultID := Sprintf_x bytes in
          let+ _ := say 2 "Generated vault ID: %s" [AString vaultID] in
          retL vaultID
      end
  end.

Section Files.
Variable range : list (string * string) → list (string * string).
Variable corePlugins graph workspace : string.

(** The loop of createObsidianFiles and of createInitialFiles; the two
    differ in the words of two messages. *)
Fixpoint writeFiles (writing wrote : string) (dir : string)
    (entries : list (string * string)) : L unit :=
  match entries with
  | [] => retL tt
  | (filename, content) :: rest =>
      let filePath := filepath.Join [dir; filename] in
      let+ _ := say 3 writing [AString filePath] in
      let+ _ := attempt (lift (os.WriteFile filePath content))
                  2 "Failed to write %s: %v"
                  (fun err => [AString filename; AError err])
                  (Wrap ("failed to write " +:+ filename)) in
      let+ _ := say 3 wrote [AString filename] in
      writeFiles writing wrote dir rest
  end.

Definition createObsidianFiles (obsidianDir : string) : L unit :=
  let+ _ := say 2 "Defining Obsidian config files" [] in
  let files := MainGo.configFiles corePlugins graph workspace in
  let+ _ := say 2 "Writing %d Obsidian config files"
              [AInt (Z.of_nat (length files))] in
  writeFiles "Writing file: %s" "Successfully wrote file: %s"
    obsidianDir (range files).

Definition createInitialFiles (vaultPath : string) : L unit :=
  let+ _ := say 2 "Creating initial markdown files" [] in
  let files := MainGo.initialFiles in
  let+ _ := say 2 "Writing %d initial files"
              [AInt (Z.of_nat (length files))] in
  writeFiles "Writing initial file: %s" "Successfully wrote initial file: %s"
    vaultPath (range files).

Definition generateVault {codec : json.Codec} : string → L unit :=
  generateVault generateVaultID createObsidianFiles createInitialFiles.

End Files.

End Main.

(** *** The revision with embedded templates and crypto/rand *)

Module Embed.

Definition generateVaultID : L string :=
  let+ _ := say 2 "Generating cryptographically secure random vault ID"
              [] in
  let bytes := zeros 8 in
  let+ r := attempt (lift (rand.Read bytes))
              2 "Failed to generate random bytes: %v"
              (fun err => [AError err])
              (Wrap "failed to generate random bytes") in
  let bytes := fst r in
  let vaultID := Sprintf_x bytes in
  let+ _ := say 2 "Generated vault ID: %s" [AString vaultID] in
  retL vaultID.

Section Files.
Variable range : list (string * string) → list (string * string).
Variable templatesFS : gmap string string.

Definition loadEmbeddedTemplate (filename : string) : L string :=
  let+ _ := say 3 "Loading embedded template file: %s"
              [AString filename] in
  let+ content :=
    attempt (lift (Embedded.ReadTemplate templatesFS filename))
      2 "Failed to read embedded template file %s: %v"
      (fun err => [AString filename; AError err])
      (Wrap ("failed to read embedded template file " +:+ filename)) in
  let+ _ := say 3 "Successfully loaded embedded template file: %s"
              [AString filename] in
  retL content.

Fixpoint writeTemplates (writing wrote : string) (dir : string)
    (entries : list (string * string)) : L unit :=
  match entries with
  | [] => retL tt
  | (filename, templatePath) :: rest =>
      let+ _ := say 3 "Loading embedded template for: %s"
                  [AString filename] in
      let+ content := loadEmbeddedTemplate templatePath in
      let filePath := filepath.Join [dir; filename] in
      let+ _ := say 3 writing [AString filePath] in
      let+ _ := attempt (lift (os.WriteFile filePath content))
                  2 "Failed to write %s: %v"
                  (fun err => [AString filename; AError err])
                  (Wrap ("failed to write " +:+ filename)) in
      let+ _ := say 3 wrote [AString filename] in
      writeTemplates writing wrote dir rest
  end.

Definition createObsidianFiles (obsidianDir : string) : L unit :=
  let+ _ := say 2 "Defining Obsidian config files from embedded templates"
              [] in
  let templateFiles := Embedded.configTemplates in
  let+ _ := say 2 "Writing %d Obsidian config files"
              [AInt (Z.of_nat (length templateFiles))] in
  writeTemplates "Writing file: %s" "Successfully wrote file: %s"
    obsidianDir (range templateFiles).

Definition createInitialFiles (vaultPath : string) : L unit :=
  let+ _ := say 2 "Creating initial markdown files" [] in
  let templateFiles := Embedded.initialTemplates in
  let+ _ := say 2 "Writing %d initial files"
              [AInt (Z.of_nat (length templateFiles))] in
  writeTemplates "Writing initial file: %s"
    "Successfully wrote initial file: %s" vaultPath (range templateFiles).

Definition generateVault {codec : json.Codec} : string → L unit :=
  generateVault generateVaultID createObsidianFiles createInitialFiles.

End Files.

End Embed.

End Verbose.

(** *** What a line of the log looks like *)

Definition percent : ascii := Ascii.ascii_of_nat 37.

(** The verbs of a format: the characters that follow a percent sign. *)
Fixpoint verbs (s : string) : list ascii :=
  match s with
  | EmptyString => []
  | String c rest =>
      if Ascii.eqb c percent
      then match rest with
           | EmptyString => []
           | String verb rest' => verb :: verbs rest'
           end
      else verbs rest
  end.

(** The verb under which the program formats an operand. *)
Definition verb (a : arg) : ascii :=
  match a with
  | AString _ => Ascii.ascii_of_nat 115   (* %s *)
  | AInt _ => Ascii.ascii_of_nat 100      (* %d *)
  | AError _ => Ascii.ascii_of_nat 118    (* %v *)
  end.

(** A line as debugLog makes it at verbosity [v]: the tag of a level from
    1 to 3 that is at most [v], then a text whose verbs are those of the
    operands, one for one. *)
Definition well_formed (v : Z) (l : line) : Prop :=
  ∃ level text,
    format l = ("[DEBUG" +:+ decimal level +:+ "] ") +:+ text
    ∧ 1 ≤ level ≤ 3 ∧ level ≤ v
    ∧ verbs text = verb <$> operands l.

(** [m] with its diagnostics taken out is [f]: at every verbosity it
    returns what [f] returns and leaves the world [f] leaves. *)
Definition erases {A} (m : L A) (f : M A) : Prop :=
  ∀ v w, (m v w).1 = f w.

(** Every line [m] logs is well formed. *)
Definition says {A} (m : L A) : Prop :=
  ∀ v w, Forall (well_formed v) (m v w).2.

(** The line that tells how a run has ended: that it is complete, or which
    step has failed and over what error. *)
Definition closing_line (r : result unit) (l : line) : Prop :=
  match r with
  | Ok _ => l = mkLine "[DEBUG1] Vault generation completed successfully" []
  | Err e =>
      ∃ what e0,
        e = Wrap ("failed to " +:+ what) e0
        ∧ l = mkLine ("[DEBUG1] Failed to " +:+ what +:+ ": %v") [AError e0]
  end.

(** [m] run at verbosity [v] in [w] ends its log with that line. *)
Definition closes (m : L unit) (v : Z) (w : World) : Prop :=
  ∃ l, last (m v w).2 = Some l ∧ closing_line (m v w).1.1 l.


(** * Properties *)

(** ** Strings and paths *)

Lemma length_append (a b : string) :
  String.length (a +:+ b) = (String.length a + String.length b)%nat.
Proof. induction a as [|c a IH]; simpl; [done|]. by rewrite IH. Qed.

Lemma split_not_nil (s : string) : split s ≠ [].
Proof.
  induction s as [|c s IH]; simpl; [done|].
  destruct (Ascii.eqb c slash); [done|].
  destruct (split s); done.
Qed.

Lemma split_app_slash (a b : string) :
  split (a +:+ String slash b) = split a ++ split b.
Proof.
  induction a as [|c a IH]; simpl.
  - done.
  - rewrite IH. destruct (Ascii.eqb c slash); [done|].
    pose proof (split_not_nil a) as Hne.
    destruct (split a); [done|]. done.
Qed.

Lemma components_app_slash (a b : string) :
  components (a +:+ String slash b) = components a ++ components b.
Proof. unfold components. by rewrite split_app_slash, List.filter_app. Qed.

Lemma components_empty : components EmptyString = [].
Proof. done. Qed.

Lemma components_Join (elems : list string) :
  components (filepath.Join elems) = concat (components <$> elems).
Proof.
  induction elems as [|e rest IH]; [done|].
  rewrite fmap_cons. cbn [concat]. rewrite <- IH. cbn [filepath.Join].
  destruct e as [|c e]; [done|].
  destruct (filepath.Join rest) as [|c' r] eqn:Hr.
  - by rewrite components_empty, app_nil_r.
  - by rewrite components_app_slash.
Qed.

Lemma before_last_slash_prepend (d s x : string) :
  filepath.before_last_slash s = Some x →
  filepath.before_last_slash (d +:+ s) = Some (d +:+ x).
Proof.
  intros Hs. induction d as [|c d IH]; simpl; [done|]. by rewrite IH.
Qed.

Lemma components_registryFile (dir : string) :
  components (registryFile dir) = components dir ++ ["obsidian"; "obsidian.json"].
Proof. unfold registryFile. by rewrite components_Join. Qed.

Lemma components_registryDir (dir : string) :
  components (filepath.Dir (registryFile dir)) = components dir ++ ["obsidian"].
Proof.
  unfold registryFile. destruct dir as [|c d]; [done|].
  change (filepath.Join [String c d; "obsidian"; "obsidian.json"])
    with (String c d +:+ String slash "obsidian/obsidian.json").
  unfold filepath.Dir.
  rewrite (before_last_slash_prepend _ _ (String slash "obsidian")) by done.
  simpl. apply (components_app_slash (String c d) "obsidian").
Qed.

(** ** The operating system model *)

Lemma env_eq_refl w : env_eq w w.
Proof. by repeat split. Qed.

Lemma env_eq_trans w1 w2 w3 : env_eq w1 w2 → env_eq w2 w3 → env_eq w1 w3.
Proof. unfold env_eq. intros (?&?&?&?&?&?) (?&?&?&?&?&?). repeat split; congruence. Qed.

Lemma env_eq_record ev w : env_eq w (record ev w).
Proof. by repeat split. Qed.

Lemma env_eq_set_fs w f : env_eq w (set_fs w f).
Proof. by repeat split. Qed.

Lemma Mkdir_ok p w w' :
  os.Mkdir p w = (Ok tt, w') →
  w' = set_fs w (<[p := Directory]> (fs w)) ∧ stat w p = None
  ∧ stat w (removelast p) = Some Directory ∧ p ∉ readonly w.
Proof.
  unfold os.Mkdir. destruct (stat w (removelast p)) as [[|d]|]; [|done..].
  destruct (stat w p); [done|]. case_decide; [done|].
  intros [= <-]. done.
Qed.

Lemma Mkdir_err p w e w' : os.Mkdir p w = (Err e, w') → w' = w.
Proof.
  unfold os.Mkdir. destruct (stat w (removelast p)) as [[|d]|]; try by intros [= _ <-].
  destruct (stat w p); [by intros [= _ <-]|]. case_decide; [by intros [= _ <-]|done].
Qed.

Lemma stat_nonroot w x p : stat w (p ++ [x]) = fs w !! (p ++ [x]).
Proof. unfold stat. by destruct p. Qed.

Lemma mkdirAll_frame rp w r w' :
  os.mkdirAll rp w = (r, w') →
  env_eq w w' ∧ trace w' = trace w ∧
  ∀ q, fs w' !! q = fs w !! q
       ∨ (q `prefix_of` rev rp ∧ fs w !! q = None ∧ fs w' !! q = Some Directory).
Proof.
  revert w r w'. induction rp as [|x parent IH]; intros w r w'; simpl.
  - intros [= <- <-]. split; [apply env_eq_refl|]. split; [done|]. by left.
  - destruct (stat w (rev parent ++ [x])) as [[|d]|] eqn:Hst.
    + intros [= <- <-]. split; [apply env_eq_refl|]. split; [done|]. by left.
    + intros [= <- <-]. split; [apply env_eq_refl|]. split; [done|]. by left.
    + destruct (os.mkdirAll parent w) as [[[]|e] w1] eqn:Hrec.
      * destruct (IH _ _ _ Hrec) as (Henv & Htr & Hfs).
        destruct r as [[]|e].
        -- intros Hmk. apply Mkdir_ok in Hmk as (-> & Hnone & _ & _).
           split; [eapply env_eq_trans; [done|apply env_eq_set_fs]|].
           split; [done|]. intros q. simpl.
           destruct (decide (q = rev parent ++ [x])) as [->|Hne].
           ++ right. split; [done|]. rewrite stat_nonroot in Hst, Hnone.
              by rewrite lookup_insert_eq.
           ++ rewrite lookup_insert_ne by done.
              destruct (Hfs q) as [?|(Hpre & ? & ?)]; [by left|right].
              split; [|done]. by apply prefix_app_r.
        -- intros Hmk. apply Mkdir_err in Hmk as ->.
           split; [done|]. split; [done|]. intros q.
           destruct (Hfs q) as [?|(Hpre & ? & ?)]; [by left|right].
           split; [|done]. by apply prefix_app_r.
      * intros [= <- <-]. destruct (IH _ _ _ Hrec) as (Henv & Htr & Hfs).
        split; [done|]. split; [done|]. intros q.
        destruct (Hfs q) as [?|(Hpre & ? & ?)]; [by left|right].
        split; [|done]. by apply prefix_app_r.
Qed.

Lemma mkdirAll_ok_dir rp w w' :
  os.mkdirAll rp w = (Ok tt, w') → stat w' (rev rp) = Some Directory.
Proof.
  destruct rp as [|x parent]; simpl.
  - by intros [= <-].
  - destruct (stat w (rev parent ++ [x])) as [[|d]|] eqn:Hst.
    + by intros [= <-].
    + done.
    + destruct (os.mkdirAll parent w) as [[[]|e] w1] eqn:Hrec; [|done].
      intros Hmk. apply Mkdir_ok in Hmk as (-> & _).
      rewrite stat_nonroot. simpl. by rewrite lookup_insert_eq.
Qed.

Lemma mkdirAll_creatable rp w :
  (∀ q, q `prefix_of` rev rp →
        stat w q = Some Directory ∨ (stat w q = None ∧ q ∉ readonly w)) →
  ∃ w', os.mkdirAll rp w = (Ok tt, w').
Proof.
  revert w. induction rp as [|x parent IH]; intros w Hq; simpl.
  - eauto.
  - destruct (stat w (rev parent ++ [x])) as [[|d]|] eqn:Hst; [eauto| |].
    + destruct (Hq (rev parent ++ [x])) as [?|[? _]]; [done|congruence..].
    + destruct (IH w) as [w1 Hrec].
      { intros q Hpre. apply Hq. simpl. by apply prefix_app_r. }
      rewrite Hrec.
      destruct (mkdirAll_frame _ _ _ _ Hrec) as (Henv & _ & Hfs).
      pose proof (mkdirAll_ok_dir _ _ _ Hrec) as Hdir.
      unfold os.Mkdir. rewrite removelast_last, Hdir.
      rewrite stat_nonroot in *.
      destruct (Hfs (rev parent ++ [x])) as [->|(Hpre & _)].
      * rewrite Hst.
        destruct (Hq (rev parent ++ [x])) as [?|[_ Hro]];
          [done|rewrite stat_nonroot in *; congruence|].
        destruct Henv as (-> & _). rewrite decide_False by done. eauto.
      * apply prefix_length in Hpre. rewrite length_app in Hpre. simpl in Hpre. lia.
Qed.

Lemma MkdirAll_frame path w r w' :
  os.MkdirAll path w = (r, w') →
  env_eq w w' ∧ trace w' = trace w ++ [EvMkdirAll path] ∧
  ∀ q, fs w' !! q = fs w !! q
       ∨ (q `prefix_of` components path ∧ fs w !! q = None
          ∧ fs w' !! q = Some Directory).
Proof.
  intros H. apply mkdirAll_frame in H as (Henv & Htr & Hfs).
  rewrite rev_involutive in Hfs. repeat split; try apply Henv; done.
Qed.

Lemma MkdirAll_ok_dir path w w' :
  os.MkdirAll path w = (Ok tt, w') → stat w' (components path) = Some Directory.
Proof.
  intros H. apply mkdirAll_ok_dir in H. by rewrite rev_involutive in H.
Qed.

Lemma WriteFile_ok path data w w' :
  os.WriteFile path data w = (Ok tt, w') →
  w' = set_fs (record (EvWriteFile path) w)
         (<[components path := Regular data]> (fs w))
  ∧ stat w (removelast (components path)) = Some Directory
  ∧ stat w (components path) ≠ Some Directory
  ∧ components path ∉ readonly w.
Proof.
  unfold os.WriteFile.
  set (p := components path). cbn zeta.
  change (stat (record (EvWriteFile path) w)) with (stat w).
  destruct (stat w p) as [[|d]|] eqn:Hp; [done| |];
    (destruct (stat w (removelast p)) as [[|d']|]; [|done..]);
    (case_decide; [done|]); intros [= <-]; done.
Qed.

Lemma WriteFile_err path data w e w' :
  os.WriteFile path data w = (Err e, w') → w' = record (EvWriteFile path) w.
Proof.
  unfold os.WriteFile.
  set (p := components path). cbn zeta.
  destruct (stat _ p) as [[|d]|] eqn:Hp; [by intros [= _ <-]| |];
    (destruct (stat _ (removelast p)) as [[|d']|]; [|by intros [= _ <-]..]);
    (case_decide; [by intros [= _ <-]|done]).
Qed.

(** ** The monad *)

Lemma bind_ok {A B} (m : M A) (k : A → M B) w b w' :
  bind m k w = (Ok b, w') → ∃ a w1, m w = (Ok a, w1) ∧ k a w1 = (Ok b, w').
Proof. unfold bind. destruct (m w) as [[a|e] w1]; [eauto|done]. Qed.

Lemma bind_err {A B} (m : M A) (k : A → M B) w e w' :
  bind m k w = (Err e, w') →
  m w = (Err e, w') ∨ ∃ a w1, m w = (Ok a, w1) ∧ k a w1 = (Err e, w').
Proof. unfold bind. destruct (m w) as [[a|e0] w1]; [eauto|]. intros [= -> ->]. eauto. Qed.

Lemma wrapping_ok {A} msg (m : M A) w a w' :
  wrapping msg m w = (Ok a, w') → m w = (Ok a, w').
Proof. unfold wrapping. by destruct (m w) as [[?|?] ?]. Qed.

Lemma wrapping_err {A} msg (m : M A) w e w' :
  wrapping msg m w = (Err e, w') → ∃ e0, e = Wrap msg e0 ∧ m w = (Err e0, w').
Proof.
  unfold wrapping. destruct (m w) as [[?|e0] ?]; [done|]. intros [= <- <-]. eauto.
Qed.

(** ** How the tree evolves *)

Lemma persists_refl w : persists w w.
Proof. intros p n Hp. by exists n. Qed.

Lemma persists_trans w1 w2 w3 :
  persists w1 w2 → persists w2 w3 → persists w1 w3.
Proof.
  intros H12 H23 p n Hp. destruct (H12 p n Hp) as (n2 & Hp2 & Hd2).
  destruct (H23 p n2 Hp2) as (n3 & Hp3 & Hd3). exists n3. split; [done|].
  intros Hn. apply Hd3, Hd2, Hn.
Qed.

Lemma evolves_refl P w : evolves P w w.
Proof. split; [apply env_eq_refl|]. split; [done|apply persists_refl]. Qed.

Lemma evolves_weaken (P Q : list string → Prop) w w' :
  (∀ q, P q → Q q) → evolves P w w' → evolves Q w w'.
Proof.
  intros HPQ (Henv & Hfs & Hper). split; [done|]. split; [|done].
  intros q Hq. apply Hfs. auto.
Qed.

Lemma evolves_trans (P : list string → Prop) w1 w2 w3 :
  evolves P w1 w2 → evolves P w2 w3 → evolves P w1 w3.
Proof.
  intros (He1 & H1 & Hp1) (He2 & H2 & Hp2).
  split; [by eapply env_eq_trans|]. split; [|by eapply persists_trans].
  intros q Hq. by rewrite H2, H1.
Qed.

Lemma evolves_record P ev w : evolves P w (record ev w).
Proof.
  split; [apply env_eq_record|]. split; [done|].
  intros p n Hp. by exists n.
Qed.

Lemma MkdirAll_evolves path w r w' :
  os.MkdirAll path w = (r, w') →
  evolves (λ q, q `prefix_of` components path) w w'.
Proof.
  intros H. apply MkdirAll_frame in H as (Henv & _ & Hfs).
  split; [done|]. split.
  - intros q Hq. by destruct (Hfs q) as [?|[? _]].
  - intros p n Hp. destruct (Hfs p) as [Heq|(_ & Hnone & _)]; [|congruence].
    exists n. by rewrite Heq.
Qed.

Lemma WriteFile_evolves path data w r w' :
  os.WriteFile path data w = (r, w') →
  evolves (λ q, q = components path) w w'.
Proof.
  destruct r as [[]|e]; intros H.
  - apply WriteFile_ok in H as (-> & _ & Hnd & _).
    split; [by repeat split|]. split.
    + intros q Hq. simpl. by rewrite lookup_insert_ne.
    + intros p n Hp. simpl.
      destruct (decide (p = components path)) as [->|Hne].
      * rewrite lookup_insert_eq. eexists. split; [done|].
        intros ->. destruct (components path); [done|].
        unfold stat in Hnd. congruence.
      * rewrite lookup_insert_ne by done. by exists n.
  - apply WriteFile_err in H as ->. apply evolves_record.
Qed.

Lemma components_Join2 dir name :
  components name = [name] →
  components (filepath.Join [dir; name]) = components dir ++ [name].
Proof.
  intros Hn. rewrite components_Join. simpl. by rewrite Hn, app_nil_r.
Qed.


(** ** The reference codec reads back what it writes *)

Module RefJSONFacts.
Import RefJSON.

Lemma length_skip_ws s : (String.length (skip_ws s) ≤ String.length s)%nat.
Proof.
  induction s as [|c s IH]; simpl; [done|].
  destruct (is_ws c); simpl; lia.
Qed.

Lemma length_indent d rest :
  (String.length rest ≤ String.length (indent d rest))%nat.
Proof. induction d as [|d IH]; simpl; lia. Qed.

Lemma length_nl d rest : (String.length rest < String.length (nl d rest))%nat.
Proof. unfold nl. simpl. pose proof (length_indent d rest). lia. Qed.

Lemma skip_ws_indent d rest : skip_ws (indent d rest) = skip_ws rest.
Proof. induction d as [|d IH]; simpl; done. Qed.

Lemma skip_ws_nl d rest : skip_ws (nl d rest) = skip_ws rest.
Proof. unfold nl. simpl. apply skip_ws_indent. Qed.

Lemma length_escape s rest :
  (String.length rest ≤ String.length (escape s rest))%nat.
Proof.
  induction s as [|c s IH]; simpl; [done|].
  destruct (escaped c); simpl; lia.
Qed.

Lemma length_put_string s rest :
  (String.length rest + 2 ≤ String.length (put_string s rest))%nat.
Proof.
  unfold put_string. simpl.
  pose proof (length_escape s (String quote rest)). simpl in *. lia.
Qed.

Lemma read_string_escape v rest :
  read_string (escape v (String quote rest)) = Some (v, rest).
Proof.
  induction v as [|c v IH]; cbn [escape].
  - cbn [read_string]. by rewrite Ascii.eqb_refl.
  - destruct (escaped c) eqn:Hesc; cbn [read_string].
    + replace (Ascii.eqb backslash quote) with false by done.
      rewrite Ascii.eqb_refl, Hesc, IH. done.
    + unfold escaped in Hesc. apply orb_false_iff in Hesc as [-> ->].
      by rewrite IH.
Qed.

Lemma get_string_put s v rest :
  skip_ws s = put_string v rest → get_string s = Some (v, rest).
Proof.
  intros Hs. unfold get_string. rewrite Hs. unfold put_string.
  rewrite Ascii.eqb_refl. apply read_string_escape.
Qed.

Lemma get_bool_put s b rest :
  skip_ws s = put_bool b rest → get_bool s = Some (b, rest).
Proof. intros Hs. unfold get_bool. rewrite Hs. by destruct b. Qed.

Lemma all_num_uint d : all_num (DecimalString.NilEmpty.string_of_uint d).
Proof. induction d; simpl; constructor; done. Qed.

Lemma all_num_int z :
  all_num (DecimalString.NilZero.string_of_int (Z.to_int z)).
Proof.
  assert (∀ d, all_num (DecimalString.NilZero.string_of_uint d)) as Hu.
  { intros d. destruct d; try apply all_num_uint. by constructor. }
  destruct z; simpl; [by constructor|apply Hu|].
  constructor; [done|apply Hu].
Qed.

Lemma span_num_app a rest :
  all_num a → no_num_ahead rest → span_num (a +:+ rest) = (a, rest).
Proof.
  intros Ha Hr. induction a as [|c a IH]; simpl.
  - destruct rest as [|c r]; [done|]. simpl in *. by rewrite Hr.
  - inversion Ha as [|? ? Hc Ha']; subst. rewrite Hc, IH; done.
Qed.

Lemma int_of_string_to_int z :
  DecimalString.NilZero.int_of_string
    (DecimalString.NilZero.string_of_int (Z.to_int z)) = Some (Z.to_int z).
Proof.
  apply DecimalString.NilZero.isi; destruct z; simpl; try done.
  - intros [= H]. by apply DecimalPos.Unsigned.to_uint_nonnil in H.
  - intros [= H]. by apply DecimalPos.Unsigned.to_uint_nonnil in H.
Qed.

Lemma is_num_not_ws c : is_num c = true → is_ws c = false.
Proof.
  destruct c as [[] [] [] [] [] [] [] []]; done.
Qed.

Lemma put_int_head z rest :
  ∃ c r, put_int z rest = String c r ∧ is_num c = true.
Proof.
  unfold put_int. pose proof (all_num_int z) as Hall.
  pose proof (int_of_string_to_int z) as Hne.
  destruct (DecimalString.NilZero.string_of_int (Z.to_int z)) as [|c r];
    [done|].
  inversion Hall as [|? ? Hc Hall']; subst. by exists c, (r +:+ rest).
Qed.

Lemma get_int_put s z rest :
  skip_ws s = put_int z rest → no_num_ahead rest →
  get_int s = Some (z, rest).
Proof.
  intros Hs Hr. unfold get_int. rewrite Hs. unfold put_int.
  rewrite span_num_app by (done || apply all_num_int).
  by rewrite int_of_string_to_int, DecimalZ.of_to.
Qed.

Lemma length_put_int z rest :
  (String.length rest ≤ String.length (put_int z rest))%nat.
Proof. unfold put_int. rewrite length_append. lia. Qed.

Lemma length_put_bool b rest :
  (String.length rest ≤ String.length (put_bool b rest))%nat.
Proof. destruct b; unfold put_bool; rewrite length_append; lia. Qed.

Lemma get_scalar_put s d v rest :
  skip_ws s = put_scalar d v rest → no_num_ahead rest →
  get_scalar s = Some (v, rest).
Proof.
  intros Hs Hr. unfold get_scalar. destruct v as [x|z|b]; simpl in Hs.
  - rewrite (get_string_put _ _ _ Hs), Hs. unfold put_string.
    by rewrite Ascii.eqb_refl.
  - destruct (put_int_head z rest) as (c & r & Heq & Hc).
    rewrite (get_int_put _ _ _ Hs Hr), Hs, Heq, Hc.
    destruct (Ascii.eqb c quote) eqn:Hq; [|done].
    apply Ascii.eqb_eq in Hq as ->. done.
  - rewrite (get_bool_put _ _ _ Hs), Hs. by destruct b.
Qed.

Lemma length_put_scalar d v rest :
  (String.length rest ≤ String.length (put_scalar d v rest))%nat.
Proof.
  destruct v as [x|z|b]; cbn [put_scalar].
  - pose proof (length_put_string x rest). lia.
  - apply length_put_int.
  - apply length_put_bool.
Qed.

Lemma skip_ws_put_scalar d v rest :
  skip_ws (put_scalar d v rest) = put_scalar d v rest.
Proof.
  destruct v as [x|z|b]; simpl.
  - done.
  - destruct (put_int_head z rest) as (c & r & -> & Hc).
    simpl. by rewrite (is_num_not_ws c).
  - by destruct b.
Qed.

Lemma token_put c s rest :
  skip_ws s = String c rest →
  token (String c EmptyString) s = Some (tt, rest).
Proof.
  intros Hs. unfold token. rewrite Hs. cbn [literal].
  by rewrite Ascii.eqb_refl.
Qed.

Lemma length_put_members {A} (put : nat → A → string → string) d l rest :
  (∀ d v r, (String.length r ≤ String.length (put d v r))%nat) →
  (String.length rest ≤ String.length (put_members put d l rest))%nat.
Proof.
  intros Hmono. induction l as [|[k v] l IH]; cbn [put_members]; [done|].
  pose proof (length_put_string k
    (String ":" (String space (put d v
       match l with
       | [] => rest
       | _ => String "," (nl d (put_members put d l rest))
       end)))) as H1.
  cbn [String.length] in H1.
  pose proof (Hmono d v
       match l with
       | [] => rest
       | _ => String "," (nl d (put_members put d l rest))
       end) as H2.
  destruct l as [|e l']; [lia|].
  cbn [String.length] in H2.
  pose proof (length_nl d (put_members put d (e :: l') rest)). lia.
Qed.

Lemma get_members_put {A} (put : nat → A → string → string)
    (get : string → parser A) (F : nat) d l :
  (∀ d v r, (String.length r ≤ String.length (put d v r))%nat) →
  (∀ d v r, skip_ws (put d v r) = put d v r) →
  (∀ k v s r, (k, v) ∈ l → (String.length s ≤ F)%nat →
              skip_ws s = put d v r → no_num_ahead r →
              get k s = Some (v, r)) →
  l ≠ [] →
  ∀ fuel s rest d',
    (String.length s ≤ fuel)%nat → (fuel ≤ F)%nat →
    skip_ws s = put_members put d l (nl d' (String "}" rest)) →
    get_members get fuel s = Some (l, rest).
Proof.
  intros Hmono Hhead. induction l as [|[k v] l IH]; [done|].
  intros Hget _ fuel s rest d' Hlen HF Hs.
  cbn [put_members] in Hs.
  set (X := match l with
            | [] => nl d' (String "}" rest)
            | _ => String "," (nl d (put_members put d l
                                       (nl d' (String "}" rest))))
            end) in *.
  pose proof (length_skip_ws s) as Hl1. rewrite Hs in Hl1.
  pose proof (length_put_string k
                (String ":" (String space (put d v X)))) as Hl2.
  cbn [String.length] in Hl2.
  pose proof (Hmono d v X) as Hl3.
  destruct fuel as [|fuel']; [lia|].
  cbn [get_members]. rewrite (get_string_put _ _ _ Hs).
  rewrite (token_put ":" _ (String space (put d v X))) by done.
  rewrite (Hget k v (String space (put d v X)) X).
  2: { by left. }
  2: { cbn [String.length]. lia. }
  2: { replace (skip_ws (String space (put d v X)))
         with (skip_ws (put d v X)) by done. apply Hhead. }
  2: { subst X. by destruct l. }
  destruct l as [|e l'].
  - subst X. rewrite skip_ws_nl. 
    replace (skip_ws (String "}" rest)) with (String "}" rest) by done.
    done.
  - subst X.
    replace (skip_ws (String "," (nl d (put_members put d (e :: l')
                                (nl d' (String "}" rest))))))
      with (String "," (nl d (put_members put d (e :: l')
                                (nl d' (String "}" rest))))) by done.
    rewrite Ascii.eqb_refl.
    rewrite (IH ltac:(intros; eapply Hget; [by right|done..]) ltac:(done)
               fuel' _ rest d').
    + done.
    + pose proof (length_nl d (put_members put d (e :: l')
                                 (nl d' (String "}" rest)))) as Hl4.
      cbn [String.length] in Hl3. lia.
    + lia.
    + rewrite skip_ws_nl. by destruct e.
Qed.

Lemma get_object_put {A} (put : nat → A → string → string)
    (get : string → parser A) (F : nat) d l s rest :
  (∀ d v r, (String.length r ≤ String.length (put d v r))%nat) →
  (∀ d v r, skip_ws (put d v r) = put d v r) →
  (∀ k v s r, (k, v) ∈ l → (String.length s ≤ F)%nat →
              skip_ws s = put (S d) v r → no_num_ahead r →
              get k s = Some (v, r)) →
  (String.length s ≤ F)%nat →
  skip_ws s = put_object put d l rest →
  get_object get F s = Some (l, rest).
Proof.
  intros Hmono Hhead Hget Hlen Hs. unfold get_object.
  destruct l as [|e l']; cbn [put_object] in *.
  - rewrite (token_put "{" _ _ Hs). done.
  - rewrite (token_put "{" _ _ Hs).
    pose proof (length_skip_ws s) as Hl. rewrite Hs in Hl.
    cbn [String.length] in Hl.
    assert (skip_ws (put_members put (S d) (e :: l')
                       (nl d (String "}" rest)))
            = put_members put (S d) (e :: l') (nl d (String "}" rest)))
      as Hsk by (by destruct e).
    rewrite skip_ws_nl, Hsk.
    assert (∃ r, put_members put (S d) (e :: l') (nl d (String "}" rest))
                 = String quote r) as [r Hq] by (destruct e; by eexists).
    rewrite Hq. replace (Ascii.eqb quote "}") with false by done.
    apply (get_members_put put get F (S d) (e :: l') Hmono Hhead Hget
             ltac:(done) F _ rest d).
    + rewrite <- Hq. lia.
    + done.
    + by rewrite skip_ws_nl, <- Hq.
Qed.

Lemma length_put_object {A} (put : nat → A → string → string) d l rest :
  (∀ d v r, (String.length r ≤ String.length (put d v r))%nat) →
  (String.length rest ≤ String.length (put_object put d l rest))%nat.
Proof.
  intros Hmono. destruct l as [|e l']; cbn [put_object String.length]; [lia|].
  pose proof (length_nl (S d) (put_members put (S d) (e :: l')
                                 (nl d (String "}" rest)))).
  pose proof (length_put_members put (S d) (e :: l')
                (nl d (String "}" rest)) Hmono).
  pose proof (length_nl d (String "}" rest)).
  cbn [String.length] in *. lia.
Qed.

Lemma skip_ws_put_object {A} (put : nat → A → string → string) d l rest :
  skip_ws (put_object put d l rest) = put_object put d l rest.
Proof. by destruct l. Qed.

Lemma get_vault_put F d v s rest :
  (String.length s ≤ F)%nat →
  skip_ws s = put_vault d v rest →
  get_vault F s = Some (v, rest).
Proof.
  intros Hlen Hs. unfold get_vault.
  rewrite (get_object_put put_scalar (λ _, get_scalar) F d (vault_fields v)
             s rest).
  - by destruct v.
  - apply length_put_scalar.
  - apply skip_ws_put_scalar.
  - intros k x s' r _ _. apply get_scalar_put.
  - done.
  - done.
Qed.

Lemma decode_sorted_entries {A} (m : gmap string A) :
  list_to_map (reverse (sorted_entries m)) = m.
Proof.
  unfold sorted_entries.
  rewrite <- (list_to_map_to_list m) at 2.
  apply list_to_map_proper.
  - rewrite reverse_Permutation, merge_sort_Permutation.
    apply NoDup_fst_map_to_list.
  - by rewrite reverse_Permutation, merge_sort_Permutation.
Qed.

Lemma get_map_put {A} (put : nat → A → string → string) (get : parser A)
    F d m s rest :
  (∀ d v r, (String.length r ≤ String.length (put d v r))%nat) →
  (∀ d v r, skip_ws (put d v r) = put d v r) →
  (∀ d v s r, (String.length s ≤ F)%nat → skip_ws s = put d v r →
              no_num_ahead r → get s = Some (v, r)) →
  (String.length s ≤ F)%nat →
  skip_ws s = put_map put d m rest →
  get_map get F s = Some (m, rest).
Proof.
  intros Hmono Hhead Hget Hlen Hs. unfold get_map. rewrite Hs.
  destruct m as [m|]; cbn [put_map].
  - replace (literal "null" (put_object put d (sorted_entries m) rest))
      with (@None string) by (by destruct (sorted_entries m)).
    rewrite (get_object_put put (λ _, get) F d (sorted_entries m) s rest
               Hmono Hhead); [|by eauto|done|done].
    by rewrite decode_sorted_entries.
  - done.
Qed.

Lemma length_put_map {A} (put : nat → A → string → string) d m rest :
  (∀ d v r, (String.length r ≤ String.length (put d v r))%nat) →
  (String.length rest ≤ String.length (put_map put d m rest))%nat.
Proof.
  intros Hmono. destruct m as [m|]; cbn [put_map].
  - by apply length_put_object.
  - rewrite length_append. lia.
Qed.

Lemma skip_ws_put_map {A} (put : nat → A → string → string) d m rest :
  skip_ws (put_map put d m rest) = put_map put d m rest.
Proof. destruct m; [apply skip_ws_put_object|done]. Qed.

Lemma length_put_vault d v rest :
  (String.length rest ≤ String.length (put_vault d v rest))%nat.
Proof. apply length_put_object, length_put_scalar. Qed.

Lemma length_put_field d f rest :
  (String.length rest ≤ String.length (put_field d f rest))%nat.
Proof.
  destruct f; cbn [put_field]; apply length_put_map.
  - apply length_put_vault.
  - intros _. apply length_put_bool.
Qed.

Lemma skip_ws_put_field d f rest :
  skip_ws (put_field d f rest) = put_field d f rest.
Proof. destruct f; apply skip_ws_put_map. Qed.

Lemma get_field_put F c k f d s rest :
  (k, f) ∈ config_fields c →
  (String.length s ≤ F)%nat →
  skip_ws s = put_field d f rest →
  get_field F k s = Some (f, rest).
Proof.
  intros Hin Hlen Hs. unfold config_fields in Hin.
  apply elem_of_cons in Hin as [[= -> ->]|Hin].
  - unfold get_field. rewrite decide_True by done.
    rewrite (get_map_put put_vault (get_vault F) F d (Vaults c) s rest);
      [done|..].
    + apply length_put_vault.
    + intros. apply skip_ws_put_object.
    + intros d' v s' r Hl' Hs' _. by eapply get_vault_put.
    + done.
    + done.
  - apply list_elem_of_singleton in Hin as [= -> ->].
    unfold get_field. rewrite decide_False by done.
    rewrite decide_True by done.
    rewrite (get_map_put (λ _, put_bool) get_bool F d (OpenSchemes c) s
               rest); [done|..].
    + intros _. apply length_put_bool.
    + intros _ b r. by destruct b.
    + intros d' v s' r _ Hs' _. by apply get_bool_put.
    + done.
    + done.
Qed.

(** The reference codec is lossless. *)
Lemma decode_encode c : decode (encode c) = Ok c.
Proof.
  unfold decode.
  assert (skip_ws (encode c) = encode c) as Hsk by done.
  rewrite Hsk.
  replace (literal "null" (encode c)) with (@None string) by done.
  rewrite (get_object_put put_field (get_field (String.length (encode c)))
             (String.length (encode c)) 0 (config_fields c) (encode c)
             EmptyString).
  - destruct c as [[v|] [o|]]; done.
  - apply length_put_field.
  - apply skip_ws_put_field.
  - intros k f s r Hin Hlen Hs _. by eapply get_field_put.
  - done.
  - done.
Qed.

End RefJSONFacts.

Global Instance RefJSON_lossless : json.Lossless RefJSON.codec.
Proof.
  intros config data [= <-]. apply RefJSONFacts.decode_encode.
Qed.

Global Instance RefJSON_total : json.Total RefJSON.codec.
Proof. intros config. by eexists. Qed.


(** ** The registry update *)

Section RegistryFacts.
Context {codec : json.Codec}.

Lemma readConfig_inv path w r w' :
  readConfig path w = (r, w') →
  w' = record (EvReadFile path) w ∧
  r = match stat w (components path) with
      | Some (Regular d) =>
          if decide (components path ∈ unreadable w)
          then Err (Wrap "failed to read config file" (Base EACCES))
          else match json.Unmarshal d with
               | Ok config => Ok config
               | Err err => Err (Wrap "failed to parse existing config" err)
               end
      | Some Directory => Err (Wrap "failed to read config file" (Base EISDIR))
      | None => Ok zeroConfig
      end.
Proof.
  unfold readConfig, os.ReadFile. cbn zeta.
  change (stat (record (EvReadFile path) w)) with (stat w).
  change (unreadable (record (EvReadFile path) w)) with (unreadable w).
  destruct (stat w (components path)) as [[|d]|].
  - by intros [= <- <-].
  - case_decide; [by intros [= <- <-]|].
    destruct (json.Unmarshal d); by intros [= <- <-].
  - by intros [= <- <-].
Qed.

Lemma registryFile_not_prefix dir :
  ¬ (components (registryFile dir)
     `prefix_of` components (filepath.Dir (registryFile dir))).
Proof.
  rewrite components_registryFile, components_registryDir.
  intros H%prefix_length. rewrite !length_app in H. simpl in H. lia.
Qed.

Lemma registryFile_parent dir :
  removelast (components (registryFile dir))
  = components (filepath.Dir (registryFile dir)).
Proof.
  rewrite components_registryFile, components_registryDir.
  change ["obsidian"; "obsidian.json"] with (["obsidian"] ++ ["obsidian.json"]).
  by rewrite app_assoc, removelast_last.
Qed.

Lemma stat_registryFile w dir :
  stat w (components (registryFile dir))
  = fs w !! components (registryFile dir).
Proof.
  rewrite components_registryFile.
  change ["obsidian"; "obsidian.json"] with (["obsidian"] ++ ["obsidian.json"]).
  rewrite app_assoc. apply stat_nonroot.
Qed.

Lemma updateGlobalConfig_success vaultPath vaultID w w' :
  updateGlobalConfig vaultPath vaultID w = (Ok tt, w') →
  ∃ dir prior data,
    configDir w = Ok dir
    ∧ prior_registry w dir prior
    ∧ json.MarshalIndent
        (setVault (initMaps prior) vaultID
           (mkVaultConfig vaultPath 1757173820641 true)) = Ok data
    ∧ fs w' !! components (registryFile dir) = Some (Regular data)
    ∧ (∀ q, q ≠ components (registryFile dir) →
         fs w' !! q = fs w !! q
         ∨ (q `prefix_of` components (filepath.Dir (registryFile dir))
            ∧ fs w !! q = None ∧ fs w' !! q = Some Directory))
    ∧ env_eq w w'.
Proof.
  unfold updateGlobalConfig. intros H.
  apply bind_ok in H as (dir & w1 & Hdir%wrapping_ok & H).
  apply bind_ok in H as ([] & w2 & Hmk%wrapping_ok & H).
  apply bind_ok in H as (prior & w3 & Hread & H).
  apply bind_ok in H as (data & w4 & Hmar%wrapping_ok & H).
  apply bind_ok in H as ([] & w5 & Hwr%wrapping_ok & H).
  injection H as <-. injection Hmar as Hmar <-.
  unfold os.UserConfigDir in Hdir. injection Hdir as Hdir <-.
  apply MkdirAll_frame in Hmk as (Henv2 & _ & Hfs2).
  apply readConfig_inv in Hread as (-> & Hprior).
  apply WriteFile_ok in Hwr as (-> & _ & _ & _).
  exists dir, prior, data. split; [done|].
  assert (fs w2 !! components (registryFile dir)
          = fs w !! components (registryFile dir)) as Hsame.
  { destruct (Hfs2 (components (registryFile dir))) as [?|[Hpre _]]; [done|].
    by apply registryFile_not_prefix in Hpre. }
  split; [|split; [done|split; [|split]]].
  - unfold prior_registry. rewrite <- Hsame.
    rewrite stat_registryFile in Hprior.
    destruct Henv2 as (_ & Hun & _). simpl in Hun. rewrite Hun in Hprior.
    destruct (fs w2 !! _) as [[|d]|]; [done| |by injection Hprior].
    case_decide; [done|]. destruct (json.Unmarshal d); [|done].
    by injection Hprior as ->.
  - simpl. by rewrite lookup_insert_eq.
  - intros q Hq. simpl. rewrite lookup_insert_ne by done.
    destruct (Hfs2 q) as [?|?]; [by left|by right].
  - eapply env_eq_trans; [apply Henv2|]. by repeat split.
Qed.

Lemma WriteFile_succeeds path data w :
  stat w (removelast (components path)) = Some Directory →
  stat w (components path) ≠ Some Directory →
  components path ∉ readonly w →
  os.WriteFile path data w
  = (Ok tt, set_fs (record (EvWriteFile path) w)
              (<[components path := Regular data]> (fs w))).
Proof.
  intros Hpar Hnd Hro. unfold os.WriteFile. cbn zeta.
  change (stat (record (EvWriteFile path) w)) with (stat w).
  change (readonly (record (EvWriteFile path) w)) with (readonly w).
  rewrite Hpar. rewrite decide_False by done.
  by destruct (stat w (components path)) as [[|d]|].
Qed.

Lemma updateGlobalConfig_succeeds vaultPath vaultID w dir prior data :
  configDir w = Ok dir →
  creatable w (components (filepath.Dir (registryFile dir))) →
  prior_registry w dir prior →
  components (registryFile dir) ∉ readonly w →
  json.MarshalIndent
    (setVault (initMaps prior) vaultID
       (mkVaultConfig vaultPath 1757173820641 true)) = Ok data →
  ∃ w', updateGlobalConfig vaultPath vaultID w = (Ok tt, w').
Proof.
  intros Hdir Hcr Hprior Hro Hmar.
  unfold updateGlobalConfig, bind, wrapping, os.UserConfigDir. rewrite Hdir.
  destruct (mkdirAll_creatable
              (rev (components (filepath.Dir (registryFile dir))))
              (record (EvMkdirAll (filepath.Dir (registryFile dir)))
                 (record EvUserConfigDir w))) as [w2 Hmk].
  { rewrite rev_involutive. exact Hcr. }
  change (os.MkdirAll (filepath.Dir (registryFile dir))
            (record EvUserConfigDir w) = (Ok tt, w2)) in Hmk.
  rewrite Hmk.
  pose proof (MkdirAll_ok_dir _ _ _ Hmk) as Hisdir.
  apply MkdirAll_frame in Hmk as (Henv & _ & Hfs).
  destruct Henv as (Hro2 & Hun2 & _). simpl in Hro2, Hun2.
  assert (fs w2 !! components (registryFile dir)
          = fs w !! components (registryFile dir)) as Hsame.
  { destruct (Hfs (components (registryFile dir))) as [?|[Hpre _]]; [done|].
    by apply registryFile_not_prefix in Hpre. }
  destruct (readConfig (registryFile dir) w2) as [r w3] eqn:Hread.
  apply readConfig_inv in Hread as [-> ->].
  rewrite stat_registryFile, Hsame, Hun2.
  unfold prior_registry in Hprior.
  assert (stat w2 (components (registryFile dir)) ≠ Some Directory) as Hnd.
  { rewrite stat_registryFile, Hsame. by destruct (fs w !! _) as [[|d]|]. }
  destruct (fs w !! components (registryFile dir)) as [[|d]|] eqn:Hfile;
    [done| |].
  - destruct Hprior as [Hrd Hparse]. rewrite decide_False by done.
    rewrite Hparse, Hmar.
    rewrite WriteFile_succeeds; [eauto|..].
    + by rewrite registryFile_parent.
    + done.
    + simpl. by rewrite Hro2.
  - subst prior. rewrite Hmar.
    rewrite WriteFile_succeeds; [eauto|..].
    + by rewrite registryFile_parent.
    + done.
    + simpl. by rewrite Hro2.
Qed.

End RegistryFacts.


Lemma updateGlobalConfig_evolves {codec : json.Codec} vaultPath vaultID
    w r w' dir :
  updateGlobalConfig vaultPath vaultID w = (r, w') →
  configDir w = Ok dir →
  evolves (λ q, q = components (registryFile dir)
                ∨ q `prefix_of` components (filepath.Dir (registryFile dir)))
    w w'.
Proof.
  intros H Hdir. unfold updateGlobalConfig in H.
  unfold bind at 1 in H. unfold wrapping at 1 in H.
  unfold os.UserConfigDir in H. rewrite Hdir in H.
  eapply evolves_trans; [apply (evolves_record _ EvUserConfigDir)|].
  revert H. generalize (record EvUserConfigDir w). clear w Hdir. intros w H.
  unfold bind at 1 in H. unfold wrapping at 1 in H.
  destruct (os.MkdirAll _ w) as [[[]|e] w2] eqn:Hmk.
  2: { injection H as _ <-. eapply evolves_weaken;
       [|by eapply MkdirAll_evolves]. tauto. }
  eapply evolves_trans.
  { eapply evolves_weaken; [|by eapply MkdirAll_evolves]. cbn beta. tauto. }
  clear Hmk w. unfold bind at 1 in H.
  destruct (readConfig _ w2) as [[prior|e] w3] eqn:Hread;
    apply readConfig_inv in Hread as [-> _].
  2: { injection H as _ <-. apply evolves_record. }
  eapply evolves_trans;
    [apply (evolves_record _ (EvReadFile (registryFile dir)))|].
  revert H. generalize (record (EvReadFile (registryFile dir)) w2).
  clear w2. intros w H.
  unfold bind at 1 in H. unfold wrapping at 1 in H.
  destruct (json.MarshalIndent _) as [data|e].
  2: { injection H as _ <-. apply evolves_refl. }
  unfold bind at 1 in H. unfold wrapping at 1 in H.
  destruct (os.WriteFile _ data w) as [[[]|e] w5] eqn:Hwr.
  - injection H as _ <-. eapply evolves_weaken; [|by eapply WriteFile_evolves].
    cbn beta. tauto.
  - injection H as _ <-. eapply evolves_weaken; [|by eapply WriteFile_evolves].
    cbn beta. tauto.
Qed.

Lemma updateGlobalConfig_persists {codec : json.Codec} vaultPath vaultID
    w r w' :
  updateGlobalConfig vaultPath vaultID w = (r, w') → persists w w'.
Proof.
  intros H. destruct (configDir w) as [dir|e] eqn:Hdir.
  - by destruct (updateGlobalConfig_evolves _ _ _ _ _ dir H Hdir)
      as (_ & _ & Hp).
  - unfold updateGlobalConfig, bind, wrapping, os.UserConfigDir in H.
    rewrite Hdir in H. injection H as _ <-. intros p n Hp. by exists n.
Qed.

(** ** The steps on which the revisions differ *)

Lemma generateVaultID_evolves w r w' :
  MainGo.generateVaultID w = (r, w') ∨ Embedded.generateVaultID w = (r, w') →
  evolves (λ _, False) w w'.
Proof.
  assert (w' = record EvRandom w → evolves (λ _, False) w w') as Hrec
    by (intros ->; apply evolves_record).
  intros [H|H]; apply Hrec.
  - unfold MainGo.generateVaultID, bind, OpenRandom, file.Read in H.
    destruct (random w) as [[delivered rerr]|e]; [|by injection H].
    cbn [fst snd] in H.
    destruct (take _ delivered), rerr; by injection H.
  - unfold Embedded.generateVaultID, bind, wrapping, rand.Read in H.
    cbn [random record] in H.
    destruct (random w) as [[delivered rerr]|e]; [|by injection H].
    case_decide; [by injection H|].
    destruct rerr; [by injection H|]. destruct delivered; by injection H.
Qed.

(** The writing loops of both revisions have one shape: load the content
    of an entry, write it under the entry's name, go on. *)
Section WritingLoop.
Variable load : string → M string.
Variable loop : string → list (string * string) → M unit.
Variable blob : string → option string.

Hypothesis loop_nil : ∀ dir, loop dir [] = ret tt.
Hypothesis loop_cons : ∀ dir filename x rest,
  loop dir ((filename, x) :: rest)
  = (let* content := load x in
     let* _ := wrapping ("failed to write " +:+ filename)
                 (os.WriteFile (filepath.Join [dir; filename]) content) in
     loop dir rest).
Hypothesis load_spec : ∀ x w r w',
  load x w = (r, w') →
  evolves (λ _, False) w w' ∧ ∀ content, r = Ok content → blob x = Some content.

Lemma loop_evolves dir entries w r w' :
  loop dir entries w = (r, w') →
  (∀ n, n ∈ entries.*1 → components n = [n]) →
  evolves (λ q, ∃ n, n ∈ entries.*1 ∧ q = components dir ++ [n]) w w'.
Proof.
  revert w. induction entries as [|[n x] rest IH]; intros w H Hsimple.
  - rewrite loop_nil in H. injection H as _ <-. apply evolves_refl.
  - rewrite loop_cons in H. unfold bind at 1 in H.
    destruct (load x w) as [[c|e] w1] eqn:Hload;
      apply load_spec in Hload as [Hev1 _].
    2: { injection H as _ <-. eapply evolves_weaken; [|done]. done. }
    eapply evolves_trans; [eapply evolves_weaken; [|done]; done|].
    unfold bind at 1 in H. unfold wrapping at 1 in H.
    destruct (os.WriteFile _ c w1) as [[[]|e] w2] eqn:Hwr;
      apply WriteFile_evolves in Hwr;
      rewrite components_Join2 in Hwr
        by (apply Hsimple; rewrite fmap_cons; by left).
    + eapply evolves_trans.
      * eapply evolves_weaken; [|done]. intros q ->. exists n.
        split; [rewrite fmap_cons; by left|done].
      * eapply evolves_weaken; [|apply (IH _ H)].
        -- intros q (n' & Hn' & ->). exists n'.
           split; [rewrite fmap_cons; by right|done].
        -- intros n' Hn'. apply Hsimple. rewrite fmap_cons. by right.
    + injection H as _ <-.
      eapply evolves_weaken; [|done]. intros q ->. exists n.
      split; [rewrite fmap_cons; by left|done].
Qed.

Lemma loop_persists dir entries w r w' :
  loop dir entries w = (r, w') → persists w w'.
Proof.
  revert w. induction entries as [|[n x] rest IH]; intros w H.
  - rewrite loop_nil in H. injection H as _ <-. apply persists_refl.
  - rewrite loop_cons in H. unfold bind at 1 in H.
    destruct (load x w) as [[c|e] w1] eqn:Hload;
      apply load_spec in Hload as [(_ & _ & Hp1) _].
    2: { by injection H as _ <-. }
    eapply persists_trans; [done|].
    unfold bind at 1 in H. unfold wrapping at 1 in H.
    destruct (os.WriteFile _ c w1) as [[[]|e] w2] eqn:Hwr;
      apply WriteFile_evolves in Hwr as (_ & _ & Hp2).
    + eapply persists_trans; [done|]. by eapply IH.
    + by injection H as _ <-.
Qed.

Lemma loop_written dir entries w w' :
  loop dir entries w = (Ok tt, w') →
  NoDup entries.*1 →
  (∀ n, n ∈ entries.*1 → components n = [n]) →
  ∀ n x, (n, x) ∈ entries →
         ∃ content, blob x = Some content
                    ∧ fs w' !! (components dir ++ [n])
                      = Some (Regular content).
Proof.
  revert w. induction entries as [|[n x] rest IH]; intros w H Hnd Hsimple.
  - intros n x Hin. by apply elem_of_nil in Hin.
  - rewrite loop_cons in H.
    apply bind_ok in H as (c & w1 & Hload & H).
    apply bind_ok in H as ([] & w2 & Hwr%wrapping_ok & H).
    apply load_spec in Hload as [_ Hblob].
    apply WriteFile_ok in Hwr as (Hw2 & _).
    rewrite components_Join2 in Hw2
      by (apply Hsimple; rewrite fmap_cons; by left).
    subst w2.
    rewrite fmap_cons in Hnd. apply NoDup_cons in Hnd as [Hn Hnd].
    pose proof (loop_evolves _ _ _ _ _ H
                  (λ n' Hn', Hsimple n' ltac:(rewrite fmap_cons; by right)))
      as (_ & Hkeep & _).
    intros n' x' Hin. apply elem_of_cons in Hin as [[= -> ->]|Hin].
    + exists c. split; [by apply Hblob|].
      rewrite Hkeep.
      * cbn [fs set_fs]. apply lookup_insert_eq.
      * intros (n' & Hn' & Heq). apply app_inj_tail in Heq as [_ ->]. done.
    + eapply IH; [done|done| |done].
      intros m Hm. apply Hsimple. rewrite fmap_cons. by right.
Qed.

End WritingLoop.

Section RevisionFacts.
Context {codec : json.Codec}.
Variable range : list (string * string) → list (string * string).
Hypothesis range_perm : ∀ l, range l ≡ₚ l.




(** *** The revision with embedded templates *)

Variable templatesFS : gmap string string.

Lemma loadEmbeddedTemplate_spec x w r w' :
  Embedded.loadEmbeddedTemplate templatesFS x w = (r, w') →
  evolves (λ _, False) w w'
  ∧ ∀ content, r = Ok content → templatesFS !! x = Some content.
Proof.
  unfold Embedded.loadEmbeddedTemplate, wrapping, Embedded.ReadTemplate.
  destruct (templatesFS !! x) as [c|]; intros [= <- <-];
    (split; [apply evolves_record|]); [by intros ? [= ->]|done].
Qed.



(** *** main.go *)

Variable corePlugins graph workspace : string.

Lemma ret_spec (x : string) w r w' :
  ret x w = (r, w') →
  evolves (λ _, False) w w' ∧ ∀ content, r = Ok content → Some x = Some content.
Proof.
  intros [= <- <-]. split; [apply evolves_refl|]. by intros ? [= ->].
Qed.



Lemma Embedded_files_persist dir w r w' :
  Embedded.createObsidianFiles range templatesFS dir w = (r, w')
  ∨ Embedded.createInitialFiles range templatesFS dir w = (r, w') →
  persists w w'.
Proof.
  intros [H|H];
    by eapply (loop_persists (Embedded.loadEmbeddedTemplate templatesFS)
                 (Embedded.writeTemplates templatesFS)
                 (λ x, templatesFS !! x) ltac:(done) ltac:(done)
                 loadEmbeddedTemplate_spec).
Qed.

Lemma MainGo_files_persist dir w r w' :
  MainGo.createObsidianFiles range corePlugins graph workspace dir w = (r, w')
  ∨ MainGo.createInitialFiles range dir w = (r, w') →
  persists w w'.
Proof.
  intros [H|H];
    by eapply (loop_persists ret MainGo.writeFiles Some ltac:(done)
                 ltac:(done) ret_spec).
Qed.

End RevisionFacts.

(** ** Claims about the registry update *)

Lemma mkdirAll_existing rp w :
  stat w (rev rp) = Some Directory → os.mkdirAll rp w = (Ok tt, w).
Proof.
  destruct rp as [|x parent]; [done|]. simpl. intros Hs. by rewrite Hs.
Qed.

Lemma initMaps_Vaults config :
  Vaults (initMaps config) = Some (default ∅ (Vaults config)).
Proof. by destruct config as [[v|] [o|]]. Qed.

Lemma initMaps_OpenSchemes config :
  OpenSchemes (initMaps config)
  = Some (default defaultOpenSchemes (OpenSchemes config)).
Proof. by destruct config as [[v|] [o|]]. Qed.

(** C1.  When the registry file holds bytes that do not parse, the update
    fails with the parse error wrapped as "failed to parse existing config"
    (the RegistryCorrupt of the specification), and nothing on disk changes:
    the file keeps the content it had. *)
Theorem corrupt_registry_untouched {codec : json.Codec}
    (vaultPath vaultID : string) (w : World) (dir data : string)
    (err : error) :
  configDir w = Ok dir →
  stat w (components (filepath.Dir (registryFile dir))) = Some Directory →
  fs w !! components (registryFile dir) = Some (Regular data) →
  components (registryFile dir) ∉ unreadable w →
  json.Unmarshal data = Err err →
  ∃ w', updateGlobalConfig vaultPath vaultID w
        = (Err (Wrap "failed to parse existing config" err), w')
        ∧ fs w' = fs w
        ∧ fs w' !! components (registryFile dir) = Some (Regular data).
Proof.
  intros Hdir Hisdir Hfile Hrd Hparse.
  unfold updateGlobalConfig, bind, wrapping, os.UserConfigDir, os.MkdirAll.
  rewrite Hdir.
  rewrite mkdirAll_existing by (by rewrite rev_involutive).
  destruct (readConfig _ _) as [r w3] eqn:Hread.
  apply readConfig_inv in Hread as [-> ->].
  rewrite stat_registryFile. simpl. rewrite Hfile.
  rewrite decide_False by done. rewrite Hparse.
  eexists. split; [done|]. by split.
Qed.

(** C2.  With no registry file the update succeeds and writes the document
    of a registry with exactly the new record and the default schemes; and
    when a registry that parses has a nil vault map or a nil scheme map, the
    same defaults take its place. *)
Theorem missing_registry_defaults {codec : json.Codec}
    {total : json.Total codec}
    (vaultPath vaultID : string) (w : World) (dir : string) :
  configDir w = Ok dir →
  creatable w (components (filepath.Dir (registryFile dir))) →
  components (registryFile dir) ∉ readonly w →
  (fs w !! components (registryFile dir) = None →
   ∃ w' data,
     updateGlobalConfig vaultPath vaultID w = (Ok tt, w')
     ∧ fs w' !! components (registryFile dir) = Some (Regular data)
     ∧ json.MarshalIndent
         (mkObsidianConfig
            (Some {[vaultID := mkVaultConfig vaultPath 1757173820641 true]})
            (Some (<["vscode" := true]> (<["chrome-extension" := true]> ∅))))
       = Ok data)
  ∧ (∀ d prior,
       fs w !! components (registryFile dir) = Some (Regular d) →
       components (registryFile dir) ∉ unreadable w →
       json.Unmarshal d = Ok prior →
       ∃ w' data written,
         updateGlobalConfig vaultPath vaultID w = (Ok tt, w')
         ∧ fs w' !! components (registryFile dir) = Some (Regular data)
         ∧ json.MarshalIndent written = Ok data
         ∧ (Vaults prior = None →
            Vaults written
            = Some {[vaultID := mkVaultConfig vaultPath 1757173820641 true]})
         ∧ (OpenSchemes prior = None →
            OpenSchemes written
            = Some (<["vscode" := true]> (<["chrome-extension" := true]> ∅)))).
Proof.
  intros Hdir Hcr Hro.
  assert (∀ prior, prior_registry w dir prior →
            ∃ w' data,
              updateGlobalConfig vaultPath vaultID w = (Ok tt, w')
              ∧ fs w' !! components (registryFile dir) = Some (Regular data)
              ∧ json.MarshalIndent
                  (setVault (initMaps prior) vaultID
                     (mkVaultConfig vaultPath 1757173820641 true))
                = Ok data) as Hrun.
  { intros prior Hprior.
    destruct (total (setVault (initMaps prior) vaultID
                       (mkVaultConfig vaultPath 1757173820641 true)))
      as [data Hdata].
    destruct (updateGlobalConfig_succeeds vaultPath vaultID w dir prior data
                Hdir Hcr Hprior Hro Hdata) as [w' Hok].
    exists w', data. split; [done|].
    apply updateGlobalConfig_success in Hok
      as (dir' & prior' & data' & Hdir' & Hprior' & Hdata' & Hfile & _).
    assert (dir' = dir) as -> by congruence.
    assert (prior' = prior) as ->.
    { unfold prior_registry in *.
      destruct (fs w !! _) as [[|d]|]; [done| |congruence].
      destruct Hprior as [_ H1], Hprior' as [_ H2]. congruence. }
    assert (data' = data) as -> by congruence. done. }
  split.
  - intros Hnone. destruct (Hrun zeroConfig) as (w' & data & Hok & Hfile & Hm).
    { unfold prior_registry. by rewrite Hnone. }
    exists w', data. split; [done|]. split; [done|].
    rewrite <- Hm. unfold setVault. simpl. by rewrite insert_empty.
  - intros d prior Hfile Hrd Hparse.
    destruct (Hrun prior) as (w' & data & Hok & Hfile' & Hm).
    { unfold prior_registry. by rewrite Hfile. }
    exists w', data, (setVault (initMaps prior) vaultID
                        (mkVaultConfig vaultPath 1757173820641 true)).
    split; [done|]. split; [done|]. split; [done|]. split.
    + intros Hnil. unfold setVault. cbn [Vaults].
      rewrite initMaps_Vaults, Hnil. simpl. by rewrite insert_empty.
    + intros Hnil. unfold setVault. cbn [OpenSchemes].
      by rewrite initMaps_OpenSchemes, Hnil.
Qed.

(** What a successful update wrote, given what the registry held. *)
Lemma updateGlobalConfig_written {codec : json.Codec}
    (vaultPath vaultID : string) (w w' : World) (dir d : string)
    (prior : ObsidianConfig) :
  updateGlobalConfig vaultPath vaultID w = (Ok tt, w') →
  configDir w = Ok dir →
  fs w !! components (registryFile dir) = Some (Regular d) →
  json.Unmarshal d = Ok prior →
  ∃ data,
    fs w' !! components (registryFile dir) = Some (Regular data)
    ∧ json.MarshalIndent
        (setVault (initMaps prior) vaultID
           (mkVaultConfig vaultPath 1757173820641 true)) = Ok data.
Proof.
  intros Hok Hdir Hfile Hparse.
  apply updateGlobalConfig_success in Hok
    as (dir' & prior' & data & Hdir' & Hprior' & Hdata & Hfile' & _).
  assert (dir' = dir) as -> by congruence.
  unfold prior_registry in Hprior'. rewrite Hfile in Hprior'.
  destruct Hprior' as [_ H2]. assert (prior' = prior) as -> by congruence.
  by exists data.
Qed.

(** C3.  After a successful update of a registry that parsed, the vault map
    of the document written is the prior map with the new record bound to
    the identifier: the identifier maps to the new record, whatever it was
    bound to before, and every other identifier keeps its record. *)
Theorem register_keeps_other_vaults {codec : json.Codec}
    (vaultPath vaultID : string) (w w' : World) (dir d : string)
    (prior : ObsidianConfig) :
  updateGlobalConfig vaultPath vaultID w = (Ok tt, w') →
  configDir w = Ok dir →
  fs w !! components (registryFile dir) = Some (Regular d) →
  json.Unmarshal d = Ok prior →
  ∃ data written vaults,
    fs w' !! components (registryFile dir) = Some (Regular data)
    ∧ json.MarshalIndent written = Ok data
    ∧ Vaults written = Some vaults
    ∧ vaults = <[vaultID := mkVaultConfig vaultPath 1757173820641 true]>
                 (default ∅ (Vaults prior))
    ∧ vaults !! vaultID = Some (mkVaultConfig vaultPath 1757173820641 true)
    ∧ ∀ other, other ≠ vaultID →
               vaults !! other = default ∅ (Vaults prior) !! other.
Proof.
  intros Hok Hdir Hfile Hparse.
  destruct (updateGlobalConfig_written _ _ _ _ _ _ _ Hok Hdir Hfile Hparse)
    as (data & Hfile' & Hdata).
  exists data, (setVault (initMaps prior) vaultID
                  (mkVaultConfig vaultPath 1757173820641 true)),
    (<[vaultID := mkVaultConfig vaultPath 1757173820641 true]>
       (default ∅ (Vaults prior))).
  split; [done|]. split; [done|]. split.
  { unfold setVault. cbn [Vaults]. by rewrite initMaps_Vaults. }
  split; [done|]. split.
  - apply lookup_insert_eq.
  - intros other Hne. by rewrite lookup_insert_ne.
Qed.


(** C10.  A scheme map that is not nil, be it empty or with schemes mapped
    to false, is written back as it was read; the defaults appear only in
    place of a nil map and are never merged into an existing one. *)
Theorem open_schemes_kept {codec : json.Codec}
    (vaultPath vaultID : string) (w w' : World) (dir d : string)
    (prior : ObsidianConfig) :
  updateGlobalConfig vaultPath vaultID w = (Ok tt, w') →
  configDir w = Ok dir →
  fs w !! components (registryFile dir) = Some (Regular d) →
  json.Unmarshal d = Ok prior →
  ∃ data written,
    fs w' !! components (registryFile dir) = Some (Regular data)
    ∧ json.MarshalIndent written = Ok data
    ∧ (∀ schemes, OpenSchemes prior = Some schemes →
                  OpenSchemes written = Some schemes)
    ∧ (OpenSchemes prior = None →
       OpenSchemes written = Some defaultOpenSchemes).
Proof.
  intros Hok Hdir Hfile Hparse.
  destruct (updateGlobalConfig_written _ _ _ _ _ _ _ Hok Hdir Hfile Hparse)
    as (data & Hfile' & Hdata).
  exists data, (setVault (initMaps prior) vaultID
                  (mkVaultConfig vaultPath 1757173820641 true)).
  split; [done|]. split; [done|].
  unfold setVault. cbn [OpenSchemes]. rewrite initMaps_OpenSchemes.
  split; [intros schemes ->|intros ->]; done.
Qed.

Lemma creatable_nil w : creatable w [].
Proof. intros q Hq%prefix_nil_inv. subst. by left. Qed.

Lemma creatable_snoc w p x :
  creatable w p →
  stat w (p ++ [x]) = Some Directory
  ∨ (stat w (p ++ [x]) = None ∧ p ++ [x] ∉ readonly w) →
  creatable w (p ++ [x]).
Proof.
  intros Hp Hx q Hq.
  destruct (decide (q = p ++ [x])) as [->|Hne]; [done|].
  apply Hp. destruct Hq as [k Hk].
  destruct (decide (k = [])) as [->|Hk'].
  - rewrite app_nil_r in Hk. congruence.
  - destruct (exists_last Hk') as (k' & y & ->).
    rewrite app_assoc in Hk. apply app_inj_tail in Hk as [-> _].
    by exists k'.
Qed.

Lemma corrupt_registry_untouched_witness :
  ∃ w', updateGlobalConfig (codec := RefJSON.codec)
          "/tmp/vault" "3f00a71c9e52d408" Example.corrupt
        = (Err (Wrap "failed to parse existing config" (Base ErrSyntax)), w')
        ∧ fs w' = fs Example.corrupt
        ∧ fs w' !! components (registryFile "/home/u/.config")
          = Some (Regular "{ not json").
Proof.
  apply (corrupt_registry_untouched (codec := RefJSON.codec)
           "/tmp/vault" "3f00a71c9e52d408" Example.corrupt
           "/home/u/.config" "{ not json" (Base ErrSyntax)).
  - reflexivity.
  - vm_compute. reflexivity.
  - vm_compute. reflexivity.
  - apply not_elem_of_empty.
  - vm_compute. reflexivity.
Defined.

Lemma creatable_config_dir (t : gmap (list string) node) rnd :
  t !! ["home"] = Some Directory →
  t !! ["home"; "u"] = Some Directory →
  (t !! ["home"; "u"; ".config"] = Some Directory
   ∨ t !! ["home"; "u"; ".config"] = None) →
  (t !! ["home"; "u"; ".config"; "obsidian"] = Some Directory
   ∨ t !! ["home"; "u"; ".config"; "obsidian"] = None) →
  creatable (Example.world t rnd)
    (components (filepath.Dir (registryFile "/home/u/.config"))).
Proof.
  intros H1 H2 H3 H4. rewrite components_registryDir.
  apply (creatable_snoc _ ["home"; "u"; ".config"] "obsidian");
    [apply (creatable_snoc _ ["home"; "u"] ".config");
     [apply (creatable_snoc _ ["home"] "u");
      [apply (creatable_snoc _ [] "home"); [apply creatable_nil|]|]|]|].
  - by left.
  - by left.
  - destruct H3; [by left|right]. split; [done|apply not_elem_of_empty].
  - destruct H4; [by left|right]. split; [done|apply not_elem_of_empty].
Qed.

Lemma missing_registry_defaults_witness :
  (∃ w' data,
     updateGlobalConfig (codec := RefJSON.codec)
       "/tmp/vault" "3f00a71c9e52d408" Example.clean = (Ok tt, w')
     ∧ fs w' !! components (registryFile "/home/u/.config")
       = Some (Regular data)
     ∧ json.MarshalIndent (Codec := RefJSON.codec)
         (mkObsidianConfig
            (Some {["3f00a71c9e52d408"
                    := mkVaultConfig "/tmp/vault" 1757173820641 true]})
            (Some (<["vscode" := true]> (<["chrome-extension" := true]> ∅))))
       = Ok data)
  ∧ (∃ w' data written,
       updateGlobalConfig (codec := RefJSON.codec)
         "/tmp/vault" "3f00a71c9e52d408" Example.nulls = (Ok tt, w')
       ∧ fs w' !! components (registryFile "/home/u/.config")
         = Some (Regular data)
       ∧ json.MarshalIndent (Codec := RefJSON.codec) written = Ok data
       ∧ Vaults written
         = Some {["3f00a71c9e52d408"
                  := mkVaultConfig "/tmp/vault" 1757173820641 true]}
       ∧ OpenSchemes written
         = Some (<["vscode" := true]> (<["chrome-extension" := true]> ∅))).
Proof.
  split.
  - refine (proj1 (missing_registry_defaults (codec := RefJSON.codec)
                     (total := RefJSON_total)
                     "/tmp/vault" "3f00a71c9e52d408" Example.clean
                     "/home/u/.config" _ _ _) _).
    + reflexivity.
    + apply creatable_config_dir;
        first [reflexivity | right; reflexivity].
    + apply not_elem_of_empty.
    + vm_compute. reflexivity.
  - assert (Hdir : creatable Example.nulls
                     (components
                        (filepath.Dir (registryFile "/home/u/.config")))).
    { apply creatable_config_dir; first [reflexivity | left; reflexivity]. }
    destruct (proj2 (missing_registry_defaults (codec := RefJSON.codec)
                       (total := RefJSON_total)
                       "/tmp/vault" "3f00a71c9e52d408" Example.nulls
                       "/home/u/.config" eq_refl Hdir
                       (not_elem_of_empty _))
                (RefJSON.encode zeroConfig) zeroConfig eq_refl
                (not_elem_of_empty _) (RefJSONFacts.decode_encode zeroConfig))
      as (w' & data & written & Hok & Hfile & Hdata & Hv & Hs).
    exists w', data, written.
    split; [exact Hok|]. split; [exact Hfile|]. split; [exact Hdata|].
    split; [exact (Hv eq_refl)|exact (Hs eq_refl)].
Defined.

Lemma register_keeps_other_vaults_witness :
  ∃ data written vaults,
    fs (updateGlobalConfig (codec := RefJSON.codec)
          "/tmp/vault" "3f00a71c9e52d408" Example.populated).2
      !! components (registryFile "/home/u/.config") = Some (Regular data)
    ∧ json.MarshalIndent (Codec := RefJSON.codec) written = Ok data
    ∧ Vaults written = Some vaults
    ∧ vaults = <["3f00a71c9e52d408"
                 := mkVaultConfig "/tmp/vault" 1757173820641 true]>
                 (default ∅ (Vaults Example.known))
    ∧ vaults !! "3f00a71c9e52d408"
      = Some (mkVaultConfig "/tmp/vault" 1757173820641 true)
    ∧ ∀ other, other ≠ "3f00a71c9e52d408" →
               vaults !! other = default ∅ (Vaults Example.known) !! other.
Proof.
  apply (register_keeps_other_vaults (codec := RefJSON.codec)
           "/tmp/vault" "3f00a71c9e52d408" Example.populated _
           "/home/u/.config" (RefJSON.encode Example.known) Example.known).
  - vm_compute. reflexivity.
  - reflexivity.
  - vm_compute. reflexivity.
  - apply RefJSONFacts.decode_encode.
Defined.


Lemma open_schemes_kept_witness :
  ∃ data written,
    fs (updateGlobalConfig (codec := RefJSON.codec)
          "/tmp/vault" "3f00a71c9e52d408" Example.populated).2
      !! components (registryFile "/home/u/.config") = Some (Regular data)
    ∧ json.MarshalIndent (Codec := RefJSON.codec) written = Ok data
    ∧ (∀ schemes, OpenSchemes Example.known = Some schemes →
                  OpenSchemes written = Some schemes)
    ∧ (OpenSchemes Example.known = None →
       OpenSchemes written = Some defaultOpenSchemes).
Proof.
  apply (open_schemes_kept (codec := RefJSON.codec)
           "/tmp/vault" "3f00a71c9e52d408" Example.populated _
           "/home/u/.config" (RefJSON.encode Example.known) Example.known).
  - vm_compute. reflexivity.
  - reflexivity.
  - vm_compute. reflexivity.
  - apply RefJSONFacts.decode_encode.
Defined.

(** ** Claims about the identifier *)

Lemma hex_of_byte_shape b :
  ∃ c1 c2, hex_of_byte b = String c1 (String c2 EmptyString)
           ∧ lower_hex c1 = true ∧ lower_hex c2 = true
           ∧ ∀ rest bytes, unhex rest = Some bytes →
                           unhex (String c1 (String c2 rest)) = Some (b :: bytes).
Proof.
  destruct b; eexists _, _; (split; [reflexivity|]);
    (split; [reflexivity|]); (split; [reflexivity|]);
    intros rest bytes Hr; cbn [unhex]; rewrite Hr; reflexivity.
Qed.

Lemma Sprintf_x_spec bytes :
  String.length (Sprintf_x bytes) = (2 * length bytes)%nat
  ∧ Forall (λ c, lower_hex c = true)
      (String.list_ascii_of_string (Sprintf_x bytes))
  ∧ unhex (Sprintf_x bytes) = Some bytes.
Proof.
  induction bytes as [|b bytes (IH1 & IH2 & IH3)]; [done|].
  cbn [Sprintf_x].
  destruct (hex_of_byte_shape b) as (c1 & c2 & -> & H1 & H2 & Hun).
  change (String c1 (String c2 EmptyString) +:+ Sprintf_x bytes)
    with (String c1 (String c2 (Sprintf_x bytes))).
  split; [|split].
  - cbn [String.length length]. lia.
  - cbn [String.list_ascii_of_string]. by repeat constructor.
  - by apply Hun.
Qed.

Lemma MainGo_generateVaultID_ok w id w' :
  MainGo.generateVaultID w = (Ok id, w') →
  ∃ delivered,
    random w = Ok (delivered, None) ∧ delivered ≠ []
    ∧ id = Sprintf_x (take 8 delivered
                      ++ drop (length (take 8 delivered)) (zeros 8)).
Proof.
  unfold MainGo.generateVaultID, bind, OpenRandom, file.Read.
  destruct (random w) as [[delivered rerr]|e]; [|done].
  cbn [fst snd]. change (length (zeros 8)) with 8%nat.
  destruct (take 8 delivered) as [|b got] eqn:Hgot.
  - destruct rerr; done.
  - destruct rerr as [e|]; [done|]. intros [= <- <-].
    exists delivered. split; [done|]. split; [|by rewrite Hgot].
    by intros ->.
Qed.

Lemma Embedded_generateVaultID_ok w id w' :
  Embedded.generateVaultID w = (Ok id, w') →
  ∃ delivered rerr,
    random w = Ok (delivered, rerr) ∧ (8 ≤ length delivered)%nat
    ∧ id = Sprintf_x (take 8 delivered).
Proof.
  unfold Embedded.generateVaultID, bind, wrapping, rand.Read.
  cbn [random record]. change (length (zeros 8)) with 8%nat.
  destruct (random w) as [[delivered rerr]|e]; [|done].
  case_decide as Hlen.
  - intros [= <- <-]. by exists delivered, rerr.
  - destruct rerr; [done|]. by destruct delivered.
Qed.



(** The revision that reads with crypto/rand never builds an identifier
    from fewer than eight bytes, and fails when the source does. *)
Lemma Embedded_generateVaultID_needs_eight w delivered rerr :
  random w = Ok (delivered, rerr) → (length delivered < 8)%nat →
  ∃ e, Embedded.generateVaultID w
       = (Err (Wrap "failed to generate random bytes" e), record EvRandom w).
Proof.
  intros Hrnd Hlen.
  unfold Embedded.generateVaultID, bind, wrapping, rand.Read.
  cbn [random record]. change (length (zeros 8)) with 8%nat. rewrite Hrnd.
  rewrite decide_False by lia.
  destruct rerr as [e|]; [by eexists|]. destruct delivered; by eexists.
Qed.

Lemma generateVaultID_unavailable w e :
  random w = Err e →
  MainGo.generateVaultID w = (Err e, record EvRandom w)
  ∧ Embedded.generateVaultID w
    = (Err (Wrap "failed to generate random bytes" e), record EvRandom w).
Proof.
  intros Hrnd.
  unfold MainGo.generateVaultID, Embedded.generateVaultID, bind, wrapping,
    rand.Read, OpenRandom.
  cbn [random record]. by rewrite Hrnd.
Qed.

(** C7.  In main.go a short read is not an error: when the device delivers
    three bytes and reports no error, the identifier is built from these
    three bytes and five zero bytes; the revision with crypto/rand fails
    on the same device. *)
Theorem short_read_is_accepted :
  MainGo.generateVaultID Example.starved
  = (Ok "a1b2c30000000000", record EvRandom Example.starved)
  ∧ Embedded.generateVaultID Example.starved
    = (Err (Wrap "failed to generate random bytes" (Base ErrUnexpectedEOF)),
       record EvRandom Example.starved).
Proof. split; reflexivity. Qed.

(** ** The stored timestamp *)

(** C9.  Every revision stores the same literal, 1757173820641, as the
    timestamp of the record it inserts, whatever the time of the call. *)
Theorem timestamp_is_the_example_literal {codec : json.Codec}
    {lossless : json.Lossless codec} :
  stores_timestamp MainGo.updateGlobalConfig (λ _, 1757173820641)
  ∧ stores_timestamp Embedded.updateGlobalConfig (λ _, 1757173820641).
Proof.
  assert (stores_timestamp updateGlobalConfig (λ _, 1757173820641)) as H.
  { intros vaultPath vaultID w w' Hok.
    apply updateGlobalConfig_success in Hok
      as (dir & prior & data & Hdir & _ & Hdata & Hfile & _).
    apply lossless in Hdata.
    exists dir, data, (setVault (initMaps prior) vaultID
                         (mkVaultConfig vaultPath 1757173820641 true)),
      (<[vaultID := mkVaultConfig vaultPath 1757173820641 true]>
         (default ∅ (Vaults prior))),
      (mkVaultConfig vaultPath 1757173820641 true).
    split; [done|]. split; [done|]. split; [done|]. split.
    { unfold setVault. cbn [Vaults]. by rewrite initMaps_Vaults. }
    split; [apply lookup_insert_eq|done]. }
  split; exact H.
Qed.

Lemma timestamp_is_the_example_literal_witness :
  stores_timestamp (codec := RefJSON.codec)
        (MainGo.updateGlobalConfig (codec := RefJSON.codec))
    (λ _, 1757173820641)
  ∧ stores_timestamp (codec := RefJSON.codec)
        (Embedded.updateGlobalConfig (codec := RefJSON.codec))
      (λ _, 1757173820641).
Proof.
  exact (timestamp_is_the_example_literal (codec := RefJSON.codec)
           (lossless := RefJSON_lossless)).
Defined.

(** Against C9 as it was stated: no revision stores the time of the call.
    In a world whose clock reads 1761868800000 each of them stores
    1757173820641. *)
Lemma no_revision_stores_the_creation_time :
  ¬ ((stores_timestamp (codec := RefJSON.codec)
        (MainGo.updateGlobalConfig (codec := RefJSON.codec))
        (λ _, 1757173820641)
      ∧ stores_timestamp (codec := RefJSON.codec)
        (Embedded.updateGlobalConfig (codec := RefJSON.codec))
          now)
     ∨ (stores_timestamp (codec := RefJSON.codec)
        (Embedded.updateGlobalConfig (codec := RefJSON.codec))
          (λ _, 1757173820641)
        ∧ stores_timestamp (codec := RefJSON.codec)
        (MainGo.updateGlobalConfig (codec := RefJSON.codec))
            now)).
Proof.
  assert (¬ stores_timestamp (codec := RefJSON.codec)
              (updateGlobalConfig (codec := RefJSON.codec)) now)
    as Hno.
  { intros H.
    pose proof (H "/tmp/vault" "3f00a71c9e52d408" Example.clean
                  (updateGlobalConfig (codec := RefJSON.codec)
                     "/tmp/vault" "3f00a71c9e52d408" Example.clean).2) as H1.
    destruct H1 as (dir & data & config & vaults & v & Hdir & Hfile & Hparse
                    & Hv & Hlook & Hts); [vm_compute; reflexivity|].
    injection Hdir as <-.
    vm_compute in Hfile. injection Hfile as <-.
    vm_compute in Hparse. injection Hparse as <-.
    injection Hv as <-.
    vm_compute in Hlook. injection Hlook as <-.
    vm_compute in Hts. discriminate Hts. }
  intros [[_ H]|[_ H]]; exact (Hno H).
Qed.

(** ** The orchestrator *)

Section OrchestratorFacts.
Context {codec : json.Codec}.
Variable generateVaultID : M string.
Variable createObsidianFiles : string → M unit.
Variable createInitialFiles : string → M unit.

Lemma generateVault_run vaultPath w :
  generateVault generateVaultID createObsidianFiles createInitialFiles
    vaultPath w
  = bind (run generateVaultID createObsidianFiles createInitialFiles
            vaultPath all_phases start) report w.
Proof.
  unfold generateVault, all_phases, report, start.
  cbn [run step label]. unfold bind, wrapping, ret.
  repeat (cbn [resolved identifier];
          match goal with
          | |- context [match ?m ?w with _ => _ end] =>
              destruct (m w) as [[?|?] ?]
          end); reflexivity.
Qed.

Lemma report_ok c w : ∃ w', report c w = (Ok tt, w').
Proof. unfold report, bind, Print, ret. by eexists. Qed.

Lemma run_failure vaultPath phs c w e w' :
  run generateVaultID createObsidianFiles createInitialFiles
    vaultPath phs c w = (Err e, w') →
  ∃ before ph after c0 w0 e0,
    phs = before ++ ph :: after
    ∧ run generateVaultID createObsidianFiles createInitialFiles
        vaultPath before c w = (Ok c0, w0)
    ∧ step generateVaultID createObsidianFiles createInitialFiles
        vaultPath ph c0 w0 = (Err e0, w')
    ∧ e = Wrap (label ph) e0.
Proof.
  revert c w. induction phs as [|ph phs IH]; intros c w; [done|].
  cbn [run]. intros H.
  apply bind_err in H as [H|(c1 & w1 & H1%wrapping_ok & H)].
  - apply wrapping_err in H as (e0 & -> & H).
    by exists [], ph, phs, c, w, e0.
  - destruct (IH _ _ H)
      as (before & ph' & after & c0 & w0 & e0 & -> & Hrun & Hstep & ->).
    exists (ph :: before), ph', after, c0, w0, e0.
    split; [done|]. split; [|done].
    cbn [run]. unfold bind, wrapping. by rewrite H1.
Qed.

Hypothesis generateVaultID_persists : ∀ w r w',
  generateVaultID w = (r, w') → persists w w'.
Hypothesis createObsidianFiles_persists : ∀ dir w r w',
  createObsidianFiles dir w = (r, w') → persists w w'.
Hypothesis createInitialFiles_persists : ∀ dir w r w',
  createInitialFiles dir w = (r, w') → persists w w'.

Lemma step_persists vaultPath ph c w r w' :
  step generateVaultID createObsidianFiles createInitialFiles
    vaultPath ph c w = (r, w') →
  persists w w'.
Proof.
  assert (∀ {A B} (m : M A) (f : A → B) w r w',
            (∀ r1 w1, m w = (r1, w1) → persists w w1) →
            bind m (λ a, ret (f a)) w = (r, w') → persists w w') as Hbind.
  { intros A B m f w0 r0 w0' Hm. unfold bind, ret.
    destruct (m w0) as [[a|e] w1] eqn:Heq; intros [= _ <-]; by eapply Hm. }
  destruct ph; cbn [step]; intros H; eapply Hbind in H; try done.
  - intros r1 w1 [= _ <-]. intros p n Hp. by exists n.
  - intros r1 w1 H1. by apply MkdirAll_evolves in H1 as (_ & _ & Hp).
  - intros r1 w1 H1. by apply MkdirAll_evolves in H1 as (_ & _ & Hp).
  - intros r1 w1 H1. by eapply generateVaultID_persists.
  - intros r1 w1 H1. by eapply createObsidianFiles_persists.
  - intros r1 w1 H1. by eapply createInitialFiles_persists.
  - intros r1 w1 H1. by eapply updateGlobalConfig_persists.
Qed.

Lemma run_persists vaultPath phs c w r w' :
  run generateVaultID createObsidianFiles createInitialFiles
    vaultPath phs c w = (r, w') →
  persists w w'.
Proof.
  revert c w. induction phs as [|ph phs IH]; intros c w.
  - intros [= _ <-]. apply persists_refl.
  - cbn [run]. unfold bind at 1. unfold wrapping at 1.
    destruct (step _ _ _ _ ph c w) as [[c1|e] w1] eqn:Hstep;
      apply step_persists in Hstep.
    + intros H. eapply persists_trans; [done|]. by eapply IH.
    + by intros [= _ <-].
Qed.

Lemma generateVault_aborts :
  runs_phases_and_aborts generateVaultID createObsidianFiles
    createInitialFiles.
Proof.
  intros vaultPath w. split; [apply generateVault_run|].
  intros e w'. rewrite generateVault_run. intros H.
  apply bind_err in H as [H|(c & w1 & _ & H)].
  - apply run_failure in H
      as (before & ph & after & c0 & w0 & e0 & Hall & Hrun & Hstep & ->).
    exists before, ph, after, c0, w0, e0.
    split; [done|]. split; [done|]. split; [done|]. split; [done|].
    split; [by eapply run_persists|by eapply step_persists].
  - destruct (report_ok c w1) as [w2 Hr]. congruence.
Qed.

End OrchestratorFacts.

(** C8.  In both revisions the orchestrator is the run of the seven phases
    in their order (path resolution, the two directories, the identifier,
    the configuration documents, the starter document, the registration)
    followed by the report.  When it fails, the phases before some phase
    succeeded in order, that phase failed, and the orchestrator returns
    that one error under the label of the phase, in exactly the world the
    failing phase left: no later phase has run, and everything that was on
    disk before the failing phase is still there. *)
Theorem phases_run_in_order_and_abort {codec : json.Codec}
    (range : list (string * string) → list (string * string))
    (corePlugins graph workspace : string)
    (templatesFS : gmap string string) :
  runs_phases_and_aborts MainGo.generateVaultID
    (MainGo.createObsidianFiles range corePlugins graph workspace)
    (MainGo.createInitialFiles range)
  ∧ runs_phases_and_aborts Embedded.generateVaultID
      (Embedded.createObsidianFiles range templatesFS)
      (Embedded.createInitialFiles range templatesFS).
Proof.
  split; apply generateVault_aborts.
  - intros w r w' H.
    by destruct (generateVaultID_evolves w r w' (or_introl H))
      as (_ & _ & Hp).
  - intros dir w r w' H.
    eapply (MainGo_files_persist range corePlugins graph workspace).
    by left.
  - intros dir w r w' H.
    eapply (MainGo_files_persist range corePlugins graph workspace).
    by right.
  - intros w r w' H.
    by destruct (generateVaultID_evolves w r w' (or_intror H))
      as (_ & _ & Hp).
  - intros dir w r w' H. eapply Embedded_files_persist. by left.
  - intros dir w r w' H. eapply Embedded_files_persist. by right.
Qed.

(** A run that fails at the identifier: the two directories made before
    are on disk when it returns. *)
Lemma phases_run_in_order_and_abort_witness :
  ∃ before ph after c0 w0 e0,
    all_phases = before ++ ph :: after
    ∧ run MainGo.generateVaultID
        (MainGo.createObsidianFiles Example.in_order "{}" "{}" "{}")
        (MainGo.createInitialFiles Example.in_order)
        (codec := RefJSON.codec) "/tmp/vault" before start Example.blind
      = (Ok c0, w0)
    ∧ step MainGo.generateVaultID
        (MainGo.createObsidianFiles Example.in_order "{}" "{}" "{}")
        (MainGo.createInitialFiles Example.in_order)
        (codec := RefJSON.codec) "/tmp/vault" ph c0 w0
      = (Err e0,
         (MainGo.generateVault (codec := RefJSON.codec) Example.in_order
            "{}" "{}" "{}" "/tmp/vault" Example.blind).2)
    ∧ Wrap "failed to generate vault ID" (Base ENOENT) = Wrap (label ph) e0
    ∧ persists Example.blind w0
    ∧ persists w0
        (MainGo.generateVault (codec := RefJSON.codec) Example.in_order
           "{}" "{}" "{}" "/tmp/vault" Example.blind).2.
Proof.
  apply (proj2 (proj1 (phases_run_in_order_and_abort (codec := RefJSON.codec)
                         Example.in_order "{}" "{}" "{}" Example.templates)
                  "/tmp/vault" Example.blind)).
  vm_compute. reflexivity.
Defined.

(** ** The layout of a vault *)



Section Layout.
Context {codec : json.Codec}.
Variable generateVaultID : M string.
Variable createObsidianFiles : string → M unit.
Variable createInitialFiles : string → M unit.
Variable blob : string → option string.

Hypothesis generateVaultID_keeps : ∀ w r w',
  generateVaultID w = (r, w') → evolves (λ _, False) w w'.
Hypothesis createObsidianFiles_spec : ∀ dir w w',
  createObsidianFiles dir w = (Ok tt, w') →
  evolves (λ q, ∃ n, n ∈ configNames ∧ q = components dir ++ [n]) w w'
  ∧ ∀ n, n ∈ configNames →
         ∃ content, blob n = Some content
                    ∧ fs w' !! (components dir ++ [n])
                      = Some (Regular content).
Hypothesis createInitialFiles_spec : ∀ dir w w',
  createInitialFiles dir w = (Ok tt, w') →
  evolves (λ q, q = components dir ++ ["Welcome.md"]) w w'
  ∧ ∃ content, blob "Welcome.md" = Some content
               ∧ fs w' !! (components dir ++ ["Welcome.md"])
                 = Some (Regular content).


End Layout.


Section Revisions.
Context {codec : json.Codec}.
Variable range : list (string * string) → list (string * string).
Hypothesis range_perm : ∀ l, range l ≡ₚ l.
Variable templatesFS : gmap string string.
Variable corePlugins graph workspace : string.


End Revisions.



(** ** Calls appended to the trace *)

Lemma appends_refl Q w : appends Q w w.
Proof. exists []. by rewrite app_nil_r. Qed.

Lemma appends_trans Q w1 w2 w3 :
  appends Q w1 w2 → appends Q w2 w3 → appends Q w1 w3.
Proof.
  intros (e1 & H1 & Q1) (e2 & H2 & Q2). exists (e1 ++ e2).
  split; [by rewrite H2, H1, app_assoc|by apply Forall_app].
Qed.

Lemma appends_record (Q : event → Prop) ev w : Q ev → appends Q w (record ev w).
Proof. intros HQ. exists [ev]. split; [done|by constructor]. Qed.

Lemma appends_weaken (Q Q' : event → Prop) w w' :
  (∀ ev, Q ev → Q' ev) → appends Q w w' → appends Q' w w'.
Proof.
  intros HQ (evs & H & HF). exists evs. split; [done|].
  eapply Forall_impl; [done|]. done.
Qed.

Lemma appends_set_fs Q w w' f : appends Q w w' → appends Q w (set_fs w' f).
Proof. done. Qed.

Lemma MkdirAll_appends (Q : event → Prop) path w r w' :
  Q (EvMkdirAll path) → os.MkdirAll path w = (r, w') → appends Q w w'.
Proof.
  intros HQ (_ & Htr & _)%MkdirAll_frame. exists [EvMkdirAll path].
  split; [done|by constructor].
Qed.

Lemma WriteFile_appends (Q : event → Prop) path data w r w' :
  Q (EvWriteFile path) → os.WriteFile path data w = (r, w') → appends Q w w'.
Proof.
  intros HQ H. destruct r as [[]|e].
  - apply WriteFile_ok in H as (-> & _). apply appends_set_fs.
    by apply appends_record.
  - apply WriteFile_err in H as ->. by apply appends_record.
Qed.

(** ** Further properties of the registry update *)

Section RegistryMore.
Context {codec : json.Codec}.

Lemma updateGlobalConfig_halves vaultPath vaultID w :
  updateGlobalConfig vaultPath vaultID w
  = bind loadRegistry (storeRegistry vaultPath vaultID) w.
Proof.
  unfold updateGlobalConfig, loadRegistry, storeRegistry, bind, wrapping, ret.
  destruct (os.UserConfigDir w) as [[dir|e] w1]; [|done].
  destruct (os.MkdirAll _ w1) as [[[]|e] w2]; [|done].
  by destruct (readConfig _ w2) as [[config|e] w3].
Qed.

Lemma MkdirAll_fails_not_creatable path w e w' :
  os.MkdirAll path w = (Err e, w') → ¬ creatable w (components path).
Proof.
  intros H Hcr.
  destruct (mkdirAll_creatable (rev (components path))
              (record (EvMkdirAll path) w)) as [w2 Hok].
  { rewrite rev_involutive. exact Hcr. }
  unfold os.MkdirAll in H. congruence.
Qed.

(** X1.  A registration that fails names the step that failed, and the step
    tells what was wrong: no configuration directory is known; or the directory
    of the registry could not be made; or the registry is a directory, or a
    file the process may not read; or its bytes do not parse; or the new
    registry does not serialise; or the file could not be written.  In every
    case but the last the tree has at most grown by directories: no file has
    been created, changed or removed. *)
Theorem registration_failure_taxonomy vaultPath vaultID w e w' :
  updateGlobalConfig vaultPath vaultID w = (Err e, w') →
  (∃ e0, e = Wrap "failed to get user config directory" e0
         ∧ configDir w = Err e0 ∧ fs w' = fs w)
  ∨ ∃ dir,
      configDir w = Ok dir
      ∧ ((∃ e0, e = Wrap "failed to create obsidian config directory" e0
                ∧ ¬ creatable w (components (filepath.Dir (registryFile dir)))
                ∧ only_directories_added w w')
         ∨ (e = Wrap "failed to read config file" (Base EISDIR)
            ∧ fs w !! components (registryFile dir) = Some Directory
            ∧ only_directories_added w w')
         ∨ (∃ d, e = Wrap "failed to read config file" (Base EACCES)
                 ∧ fs w !! components (registryFile dir) = Some (Regular d)
                 ∧ components (registryFile dir) ∈ unreadable w
                 ∧ only_directories_added w w')
         ∨ (∃ d e0, e = Wrap "failed to parse existing config" e0
                    ∧ fs w !! components (registryFile dir)
                      = Some (Regular d)
                    ∧ json.Unmarshal d = Err e0
                    ∧ only_directories_added w w')
         ∨ (∃ prior e0, e = Wrap "failed to marshal config" e0
                        ∧ prior_registry w dir prior
                        ∧ json.MarshalIndent
                            (setVault (initMaps prior) vaultID
                               (mkVaultConfig vaultPath 1757173820641 true))
                          = Err e0
                        ∧ only_directories_added w w')
         ∨ (∃ e0, e = Wrap "failed to write config file" e0)).
Proof.
  intros H. unfold updateGlobalConfig in H.
  unfold bind at 1 in H. unfold wrapping at 1 in H.
  unfold os.UserConfigDir in H.
  destruct (configDir w) as [dir|e0] eqn:Hdir.
  2: { injection H as <- <-. left. by exists e0. }
  right. exists dir. split; [done|].
  unfold bind at 1 in H. unfold wrapping at 1 in H.
  destruct (os.MkdirAll _ (record EvUserConfigDir w)) as [[[]|e0] w2] eqn:Hmk.
  2: { injection H as <- <-. left. exists e0. split; [done|].
       split; [by apply MkdirAll_fails_not_creatable in Hmk|].
       apply MkdirAll_frame in Hmk as (_ & _ & Hfs).
       intros q. destruct (Hfs q) as [?|(_ & ? & ?)]; [by left|by right]. }
  right.
  apply MkdirAll_frame in Hmk as (Henv & _ & Hfs).
  assert (only_directories_added w w2) as Hgrow.
  { intros q. destruct (Hfs q) as [?|(_ & ? & ?)]; [by left|by right]. }
  assert (fs w2 !! components (registryFile dir)
          = fs w !! components (registryFile dir)) as Hsame.
  { destruct (Hfs (components (registryFile dir))) as [?|[Hpre _]]; [done|].
    by apply registryFile_not_prefix in Hpre. }
  destruct Henv as (_ & Hun & _). cbn [unreadable record] in Hun.
  unfold bind at 1 in H.
  destruct (readConfig _ w2) as [[prior|e0] w3] eqn:Hread;
    apply readConfig_inv in Hread as [-> Hr];
    rewrite stat_registryFile, Hsame, Hun in Hr.
  2: { injection H as <- <-.
       destruct (fs w !! components (registryFile dir)) as [[|d]|] eqn:Hfile.
       - injection Hr as ->. by left.
       - case_decide as Hrd.
         + injection Hr as ->. right. left. by exists d.
         + destruct (json.Unmarshal d) as [c|err] eqn:Hparse; [done|].
           injection Hr as ->. right. right. left. by exists d, err.
       - done. }
  assert (prior_registry w dir prior) as Hprior.
  { unfold prior_registry.
    destruct (fs w !! components (registryFile dir)) as [[|d]|]; [done| |].
    - case_decide; [done|]. destruct (json.Unmarshal d); [|done].
      by injection Hr as ->.
    - by injection Hr as ->. }
  unfold bind at 1 in H. unfold wrapping at 1 in H.
  destruct (json.MarshalIndent _) as [data|e0] eqn:Hmar.
  2: { injection H as <- <-. do 3 right. left. by exists prior, e0. }
  unfold bind at 1 in H. unfold wrapping at 1 in H.
  destruct (os.WriteFile _ data _) as [[[]|e0] w5]; [done|].
  injection H as <- _. do 4 right. by exists e0.
Qed.

(** X2.  A registry that is there but cannot be read, because it is a
    directory or a file the process may not read, is not taken for a missing
    one: the update fails with the words failed to read config file and leaves
    the tree as it was. *)
Theorem unreadable_registry_is_not_reset vaultPath vaultID w dir :
  configDir w = Ok dir →
  stat w (components (filepath.Dir (registryFile dir))) = Some Directory →
  fs w !! components (registryFile dir) = Some Directory
  ∨ ((∃ d, fs w !! components (registryFile dir) = Some (Regular d))
     ∧ components (registryFile dir) ∈ unreadable w) →
  ∃ c w', updateGlobalConfig vaultPath vaultID w
          = (Err (Wrap "failed to read config file" (Base c)), w')
          ∧ fs w' = fs w.
Proof.
  intros Hdir Hisdir Hfile.
  unfold updateGlobalConfig, bind, wrapping, os.UserConfigDir, os.MkdirAll.
  rewrite Hdir.
  rewrite mkdirAll_existing by (by rewrite rev_involutive).
  destruct (readConfig _ _) as [r w3] eqn:Hread.
  apply readConfig_inv in Hread as [-> ->].
  rewrite stat_registryFile. cbn [fs record unreadable].
  destruct Hfile as [->|[[d ->] Hun]].
  - by eexists _, _.
  - rewrite decide_True by done. by eexists _, _.
Qed.

(** X3.  When a file stands where the directory of the registry should be,
    the update fails with the words failed to create obsidian config directory
    over ENOTDIR and leaves the tree as it was. *)
Theorem config_directory_blocked_by_a_file vaultPath vaultID w dir d :
  configDir w = Ok dir →
  fs w !! components (filepath.Dir (registryFile dir)) = Some (Regular d) →
  ∃ w', updateGlobalConfig vaultPath vaultID w
        = (Err (Wrap "failed to create obsidian config directory"
                  (Base ENOTDIR)), w')
        ∧ fs w' = fs w.
Proof.
  intros Hdir Hfile.
  unfold updateGlobalConfig, bind, wrapping, os.UserConfigDir, os.MkdirAll.
  rewrite Hdir.
  assert (os.mkdirAll
            (rev (components (filepath.Dir (registryFile dir))))
            (record (EvMkdirAll (filepath.Dir (registryFile dir)))
               (record EvUserConfigDir w))
          = (Err (Base ENOTDIR),
             record (EvMkdirAll (filepath.Dir (registryFile dir)))
               (record EvUserConfigDir w))) as ->.
  { rewrite components_registryDir in *. rewrite rev_app_distr. simpl.
    rewrite rev_involutive.
    change ((components dir ++ [ "obsidian" ])%list)
      with (components dir ++ ["obsidian"]).
    rewrite stat_nonroot. cbn [fs record]. by rewrite Hfile. }
  by eexists.
Qed.

(** X4.  When the process may not write the registry, the update fails with
    the words failed to write config file over EACCES, after the registry has
    been read and the new one serialised, and the tree is as it was, the
    registry with it. *)
Theorem read_only_registry_is_kept vaultPath vaultID w dir prior data :
  configDir w = Ok dir →
  stat w (components (filepath.Dir (registryFile dir))) = Some Directory →
  prior_registry w dir prior →
  json.MarshalIndent
    (setVault (initMaps prior) vaultID
       (mkVaultConfig vaultPath 1757173820641 true)) = Ok data →
  components (registryFile dir) ∈ readonly w →
  ∃ w', updateGlobalConfig vaultPath vaultID w
        = (Err (Wrap "failed to write config file" (Base EACCES)), w')
        ∧ fs w' = fs w.
Proof.
  intros Hdir Hisdir Hprior Hmar Hro.
  unfold updateGlobalConfig, bind, wrapping, os.UserConfigDir, os.MkdirAll.
  rewrite Hdir.
  rewrite mkdirAll_existing by (by rewrite rev_involutive).
  destruct (readConfig _ _) as [r w3] eqn:Hread.
  apply readConfig_inv in Hread as [-> ->].
  rewrite stat_registryFile. cbn [fs record unreadable].
  unfold prior_registry in Hprior.
  assert (∀ w0, fs w0 = fs w → readonly w0 = readonly w →
            os.WriteFile (registryFile dir) data w0
            = (Err (Base EACCES), record (EvWriteFile (registryFile dir)) w0))
    as Hwr.
  { intros w0 Hfs Hro0. unfold os.WriteFile. cbn zeta.
    change (stat (record (EvWriteFile (registryFile dir)) w0)) with (stat w0).
    change (readonly (record (EvWriteFile (registryFile dir)) w0))
      with (readonly w0).
    rewrite registryFile_parent, stat_registryFile.
    assert (stat w0 (components (filepath.Dir (registryFile dir)))
            = Some Directory) as ->.
    { rewrite <- Hisdir. unfold stat. by rewrite Hfs. }
    rewrite Hfs, Hro0. rewrite decide_True by done.
    by destruct (fs w !! components (registryFile dir)) as [[|d]|]. }
  destruct (fs w !! components (registryFile dir)) as [[|d]|]; [done| |].
  - destruct Hprior as [Hrd Hparse]. rewrite decide_False by done.
    rewrite Hparse, Hmar, Hwr by done. by eexists.
  - subst prior. rewrite Hmar, Hwr by done. by eexists.
Qed.



Lemma loadRegistry_ok w loaded w' :
  loadRegistry w = (Ok loaded, w') →
  ∃ dir prior,
    configDir w = Ok dir ∧ loaded = (registryFile dir, prior)
    ∧ prior_registry w dir prior
    ∧ env_eq w w'
    ∧ fs w' !! components (registryFile dir)
      = fs w !! components (registryFile dir)
    ∧ stat w' (components (filepath.Dir (registryFile dir)))
      = Some Directory.
Proof.
  unfold loadRegistry. intros H.
  apply bind_ok in H as (dir & w1 & Hdir%wrapping_ok & H).
  apply bind_ok in H as ([] & w2 & Hmk%wrapping_ok & H).
  apply bind_ok in H as (prior & w3 & Hread & H).
  injection H as <- <-.
  unfold os.UserConfigDir in Hdir. injection Hdir as Hdir <-.
  pose proof (MkdirAll_ok_dir _ _ _ Hmk) as Hisdir.
  apply MkdirAll_frame in Hmk as (Henv2 & _ & Hfs2).
  apply readConfig_inv in Hread as (-> & Hprior).
  assert (fs w2 !! components (registryFile dir)
          = fs w !! components (registryFile dir)) as Hsame.
  { destruct (Hfs2 (components (registryFile dir))) as [?|[Hpre _]]; [done|].
    by apply registryFile_not_prefix in Hpre. }
  exists dir, prior. split; [done|]. split; [done|].
  split; [|split; [|split; [done|done]]].
  - unfold prior_registry. rewrite <- Hsame.
    rewrite stat_registryFile in Hprior.
    destruct Henv2 as (_ & Hun & _). simpl in Hun. rewrite Hun in Hprior.
    destruct (fs w2 !! _) as [[|d]|]; [done| |by injection Hprior].
    case_decide; [done|]. destruct (json.Unmarshal d); [|done].
    by injection Hprior as ->.
  - eapply env_eq_trans; [apply Henv2|]. by repeat split.
Qed.

Lemma storeRegistry_ok vaultPath vaultID path prior w w' :
  storeRegistry vaultPath vaultID (path, prior) w = (Ok tt, w') →
  ∃ data,
    json.MarshalIndent
      (setVault (initMaps prior) vaultID
         (mkVaultConfig vaultPath 1757173820641 true)) = Ok data
    ∧ w' = set_fs (record (EvWriteFile path) w)
             (<[components path := Regular data]> (fs w))
    ∧ stat w (removelast (components path)) = Some Directory
    ∧ components path ∉ readonly w.
Proof.
  unfold storeRegistry. cbn [fst snd]. intros H.
  apply bind_ok in H as (data & w4 & Hmar%wrapping_ok & H).
  apply bind_ok in H as ([] & w5 & Hwr%wrapping_ok & H).
  injection H as <-. injection Hmar as Hmar <-.
  apply WriteFile_ok in Hwr as (-> & Hpar & _ & Hro).
  by exists data.
Qed.

(** After a successful update the registry directory is a directory and
    the registry file may be written again. *)
Lemma updateGlobalConfig_success_more vaultPath vaultID w w' dir :
  updateGlobalConfig vaultPath vaultID w = (Ok tt, w') →
  configDir w = Ok dir →
  stat w' (components (filepath.Dir (registryFile dir))) = Some Directory
  ∧ components (registryFile dir) ∉ readonly w'.
Proof.
  intros H Hdir. rewrite updateGlobalConfig_halves in H.
  apply bind_ok in H as ([path prior] & w1 & Hload & Hstore).
  apply loadRegistry_ok in Hload
    as (dir' & prior' & Hdir' & [= -> ->] & _ & _ & _ & Hisdir).
  assert (dir' = dir) as -> by congruence.
  apply storeRegistry_ok in Hstore as (data & _ & -> & _ & Hro).
  split; [|done].
  rewrite components_registryDir in *. rewrite stat_nonroot in *.
  cbn [fs set_fs record]. rewrite lookup_insert_ne; [done|].
  rewrite components_registryFile. intros Heq%(f_equal length).
  rewrite !length_app in Heq. simpl in Heq. lia.
Qed.

(** The update of a registry whose directory exists. *)
Lemma updateGlobalConfig_in_place vaultPath vaultID w dir prior data :
  configDir w = Ok dir →
  stat w (components (filepath.Dir (registryFile dir))) = Some Directory →
  prior_registry w dir prior →
  components (registryFile dir) ∉ readonly w →
  json.MarshalIndent
    (setVault (initMaps prior) vaultID
       (mkVaultConfig vaultPath 1757173820641 true)) = Ok data →
  ∃ w', updateGlobalConfig vaultPath vaultID w = (Ok tt, w')
        ∧ fs w' = <[components (registryFile dir) := Regular data]> (fs w).
Proof.
  intros Hdir Hisdir Hprior Hro Hmar.
  unfold updateGlobalConfig, bind, wrapping, os.UserConfigDir, os.MkdirAll.
  rewrite Hdir.
  rewrite mkdirAll_existing by (by rewrite rev_involutive).
  destruct (readConfig _ _) as [r w3] eqn:Hread.
  apply readConfig_inv in Hread as [-> ->].
  rewrite stat_registryFile. cbn [fs record unreadable].
  unfold prior_registry in Hprior.
  assert (∀ w0, fs w0 = fs w → readonly w0 = readonly w →
            os.WriteFile (registryFile dir) data w0
            = (Ok tt, set_fs (record (EvWriteFile (registryFile dir)) w0)
                        (<[components (registryFile dir) := Regular data]>
                           (fs w0)))) as Hwr.
  { intros w0 Hfs Hro0. apply WriteFile_succeeds.
    - rewrite registryFile_parent, <- Hisdir. unfold stat. by rewrite Hfs.
    - rewrite stat_registryFile, Hfs.
      by destruct (fs w !! components (registryFile dir)) as [[|d]|].
    - by rewrite Hro0. }
  destruct (fs w !! components (registryFile dir)) as [[|d]|]; [done| |].
  - destruct Hprior as [Hrd Hparse]. rewrite decide_False by done.
    rewrite Hparse, Hmar, Hwr by done. by eexists.
  - subst prior. rewrite Hmar, Hwr by done. by eexists.
Qed.


Lemma setVault_again config vaultID v :
  initMaps (setVault (initMaps config) vaultID v)
  = setVault (initMaps config) vaultID v
  ∧ setVault (setVault (initMaps config) vaultID v) vaultID v
    = setVault (initMaps config) vaultID v.
Proof.
  destruct config as [[vs|] [os|]]; unfold setVault, initMaps; cbn;
    by rewrite insert_insert_eq.
Qed.

(** X7.  Registering the same path under the same identifier once more
    succeeds and leaves the tree as the first registration left it, when the
    process may read the registry. *)
Theorem repeated_registration_changes_nothing
    {lossless : json.Lossless codec} vaultPath vaultID w w1 dir :
  updateGlobalConfig vaultPath vaultID w = (Ok tt, w1) →
  configDir w = Ok dir →
  components (registryFile dir) ∉ unreadable w →
  ∃ w2, updateGlobalConfig vaultPath vaultID w1 = (Ok tt, w2)
        ∧ fs w2 = fs w1.
Proof.
  intros H1 Hdir Hrd.
  destruct (updateGlobalConfig_success_more _ _ _ _ _ H1 Hdir)
    as [Hisdir Hro].
  apply updateGlobalConfig_success in H1
    as (dir' & prior & data & Hdir' & Hprior & Hdata & Hfile & _ & Henv).
  assert (dir' = dir) as -> by congruence.
  pose proof (lossless _ _ Hdata) as Hparse.
  destruct Henv as (_ & Hun & _ & Hcd & _).
  destruct (setVault_again prior vaultID
              (mkVaultConfig vaultPath 1757173820641 true)) as [Hinit Hset].
  destruct (updateGlobalConfig_in_place vaultPath vaultID w1 dir
              (setVault (initMaps prior) vaultID
                 (mkVaultConfig vaultPath 1757173820641 true)) data)
    as (w2 & Hok & Hfs).
  - congruence.
  - done.
  - unfold prior_registry. rewrite Hfile. split; [by rewrite Hun|done].
  - done.
  - by rewrite Hinit, Hset.
  - exists w2. split; [done|]. rewrite Hfs. by apply insert_id.
Qed.


End RegistryMore.
(** ** The writing loops, run *)

Section WritingLoopRuns.
Variable load : string → M string.
Variable loop : string → list (string * string) → M unit.
Variable blob : string → option string.
(** The error of a load that finds nothing, and the calls a load makes. *)
Variable missing : string → error.
Variable calls : string → list event.

Hypothesis loop_nil : ∀ dir, loop dir [] = ret tt.
Hypothesis loop_cons : ∀ dir filename x rest,
  loop dir ((filename, x) :: rest)
  = (let* content := load x in
     let* _ := wrapping ("failed to write " +:+ filename)
                 (os.WriteFile (filepath.Join [dir; filename]) content) in
     loop dir rest).
Hypothesis load_run : ∀ x w,
  ∃ w', load x w = (match blob x with
                    | Some content => Ok content
                    | None => Err (missing x)
                    end, w')
        ∧ fs w' = fs w ∧ env_eq w w' ∧ trace w' = trace w ++ calls x.

Lemma load_run_spec x w r w' :
  load x w = (r, w') →
  evolves (λ _, False) w w' ∧ ∀ content, r = Ok content → blob x = Some content.
Proof.
  destruct (load_run x w) as (w1 & Hrun & Hfs & Henv & _).
  rewrite Hrun. intros [= <- <-]. split.
  - split; [done|]. split; [by rewrite Hfs|].
    intros p n Hp. exists n. by rewrite Hfs.
  - destruct (blob x); [by intros ? [= ->]|done].
Qed.

Lemma loop_app dir a b w :
  loop dir (a ++ b) w = bind (loop dir a) (λ _, loop dir b) w.
Proof.
  revert w. induction a as [|[n x] a IH]; intros w.
  - by rewrite loop_nil.
  - rewrite <- app_comm_cons, !loop_cons. unfold bind in *.
    destruct (load x w) as [[c|e] w1]; [|done].
    destruct (wrapping _ _ w1) as [[[]|e] w2]; [|done].
    apply IH.
Qed.

Lemma stat_insert_file w w0 p q data :
  fs w0 = <[q := Regular data]> (fs w) →
  stat w p ≠ Some Directory → stat w0 p ≠ Some Directory.
Proof.
  intros Hfs Hnd. destruct p as [|x p]; [done|]. unfold stat in *.
  rewrite Hfs. destruct (decide (x :: p = q)) as [->|Hne].
  - by rewrite lookup_insert_eq.
  - by rewrite lookup_insert_ne.
Qed.

Lemma stat_insert_dir w w0 p q data :
  fs w0 = <[q := Regular data]> (fs w) → p ≠ q →
  stat w0 p = stat w p.
Proof.
  intros Hfs Hne. destruct p as [|x p]; [done|]. unfold stat.
  by rewrite Hfs, lookup_insert_ne.
Qed.

Lemma loop_succeeds dir entries w :
  stat w (components dir) = Some Directory →
  (∀ n x, (n, x) ∈ entries →
          components n = [n] ∧ writable w (components dir) n
          ∧ is_Some (blob x)) →
  ∃ w', loop dir entries w = (Ok tt, w')
        ∧ trace w' = trace w ++ loop_calls calls dir entries.
Proof.
  revert w. induction entries as [|[n x] rest IH]; intros w Hdir Hpre.
  - rewrite loop_nil. exists w. split; [done|]. by rewrite app_nil_r.
  - rewrite loop_cons. unfold bind at 1.
    destruct (Hpre n x ltac:(by left)) as (Hn & [Hnd Hro] & [c Hc]).
    destruct (load_run x w) as (w1 & -> & Hfs1 & Henv1 & Htr1).
    rewrite Hc. unfold bind at 1. unfold wrapping at 1.
    assert (∀ p, stat w1 p = stat w p) as Hstat1.
    { intros [|y p]; [done|]. unfold stat. by rewrite Hfs1. }
    rewrite WriteFile_succeeds; cycle 1.
    { rewrite components_Join2, removelast_last by done.
      by rewrite Hstat1. }
    { rewrite components_Join2 by done. by rewrite Hstat1. }
    { rewrite components_Join2 by done.
      destruct Henv1 as (-> & _). done. }
    rewrite components_Join2 by done.
    set (w2 := set_fs _ _).
    destruct (IH w2) as (w' & Hrun & Htr).
    + rewrite (stat_insert_dir w1 w2 _ (components dir ++ [n]) c);
        [by rewrite Hstat1|done|].
      intros Heq%(f_equal length). rewrite length_app in Heq. simpl in Heq.
      lia.
    + intros n' x' Hin.
      destruct (Hpre n' x' ltac:(by right)) as (Hn' & [Hnd' Hro'] & Hb').
      split; [done|]. split; [|done]. split.
      * eapply (stat_insert_file w1 w2); [done|]. by rewrite Hstat1.
      * destruct Henv1 as (Hro1 & _). cbn [readonly w2 set_fs record].
        by rewrite Hro1.
    + exists w'. split; [done|]. rewrite Htr. cbn [trace w2 set_fs record].
      rewrite Htr1. unfold loop_calls. cbn [flat_map fst snd].
      by rewrite <- !app_assoc.
Qed.

Lemma WriteFile_refused path data w c :
  (stat w (components path) = Some Directory ∧ c = EISDIR)
  ∨ (stat w (components path) ≠ Some Directory
     ∧ stat w (removelast (components path)) = Some Directory
     ∧ components path ∈ readonly w ∧ c = EACCES) →
  os.WriteFile path data w = (Err (Base c), record (EvWriteFile path) w).
Proof.
  unfold os.WriteFile. cbn zeta.
  change (stat (record (EvWriteFile path) w)) with (stat w).
  change (readonly (record (EvWriteFile path) w)) with (readonly w).
  intros [[-> ->]|(Hnd & -> & Hro & ->)]; [done|].
  rewrite decide_True by done.
  by destruct (stat w (components path)) as [[|d]|].
Qed.

Lemma loop_stops dir pre n x post w e :
  stat w (components dir) = Some Directory →
  (∀ m y, (m, y) ∈ pre →
          components m = [m] ∧ writable w (components dir) m
          ∧ is_Some (blob y)) →
  NoDup (pre.*1 ++ [n]) →
  components n = [n] →
  (blob x = None ∧ e = missing x)
  ∨ (is_Some (blob x)
     ∧ ∃ c, e = Wrap ("failed to write " +:+ n) (Base c)
            ∧ ((stat w (components dir ++ [n]) = Some Directory ∧ c = EISDIR)
               ∨ (stat w (components dir ++ [n]) ≠ Some Directory
                  ∧ components dir ++ [n] ∈ readonly w ∧ c = EACCES))) →
  ∃ w', loop dir (pre ++ (n, x) :: post) w = (Err e, w')
        ∧ (∀ m y, (m, y) ∈ pre →
                  ∃ content, blob y = Some content
                             ∧ fs w' !! (components dir ++ [m])
                               = Some (Regular content))
        ∧ ∀ q, (∀ m, m ∈ pre.*1 → q ≠ components dir ++ [m]) →
               fs w' !! q = fs w !! q.
Proof.
  intros Hdir Hpre Hnd Hn Hcase.
  apply NoDup_app in Hnd as (Hnd & Hfresh & _).
  assert (∀ m, m ∈ pre.*1 → components m = [m]) as Hsimple.
  { intros m ((m' & y) & -> & Hin)%list_elem_of_fmap. by apply (Hpre m' y). }
  destruct (loop_succeeds dir pre w Hdir Hpre) as (w1 & Hrun & _).
  pose proof (loop_written load loop blob loop_nil loop_cons load_run_spec
                dir pre w w1 Hrun Hnd Hsimple) as Hwritten.
  destruct (loop_evolves load loop blob loop_nil loop_cons load_run_spec
              dir pre w _ w1 Hrun Hsimple) as (Henv & Hframe & _).
  rewrite loop_app. unfold bind at 1. rewrite Hrun. rewrite loop_cons.
  unfold bind at 1.
  destruct (load_run x w1) as (w2 & -> & Hfs2 & Henv2 & _).
  assert (∀ q, (∀ m, m ∈ pre.*1 → q ≠ components dir ++ [m]) →
               fs w2 !! q = fs w !! q) as Hframe2.
  { intros q Hq. rewrite Hfs2. apply Hframe. intros (m & Hm & ->).
    by apply (Hq m). }
  assert (∀ p, (∀ m, m ∈ pre.*1 → p ≠ components dir ++ [m]) →
               stat w2 p = stat w p) as Hstat2.
  { intros [|y p] Hp; [done|]. unfold stat. by apply Hframe2. }
  assert (∀ m y, (m, y) ∈ pre →
                 ∃ content, blob y = Some content
                            ∧ fs w2 !! (components dir ++ [m])
                              = Some (Regular content)) as Hwritten2.
  { intros m y Hin. rewrite Hfs2. by apply Hwritten. }
  destruct Hcase as [[-> ->]|([c Hc] & c0 & -> & Hcase)].
  { by exists w2. }
  rewrite Hc. unfold bind at 1. unfold wrapping at 1.
  rewrite (WriteFile_refused _ _ _ c0).
  - eexists. split; [done|]. split; [done|].
    intros q Hq. by apply Hframe2.
  - rewrite components_Join2, removelast_last by done.
    assert (∀ m, m ∈ pre.*1 → components dir ++ [n] ≠ components dir ++ [m])
      as Hne.
    { intros m Hm [_ ->]%app_inj_tail. apply (Hfresh m Hm). by left. }
    rewrite !Hstat2; cycle 1.
    { intros m _ Heq%(f_equal length). rewrite length_app in Heq.
      simpl in Heq. lia. }
    { done. }
    destruct Henv as (Hro & _), Henv2 as (Hro2 & _).
    rewrite Hro2, Hro.
    destruct Hcase as [[? ->]|(? & ? & ->)]; [by left|by right].
Qed.

(** A run that succeeded started where every entry could be written. *)
Lemma loop_success_inv dir entries w w' :
  loop dir entries w = (Ok tt, w') →
  (∀ n, n ∈ entries.*1 → components n = [n]) →
  ∀ n x, (n, x) ∈ entries →
         stat w (components dir) = Some Directory
         ∧ writable w (components dir) n ∧ is_Some (blob x).
Proof.
  revert w. induction entries as [|[n x] rest IH]; intros w H Hsimple.
  { intros n x Hin. by apply elem_of_nil in Hin. }
  rewrite loop_cons in H.
  apply bind_ok in H as (c & w1 & Hload & H).
  apply bind_ok in H as ([] & w2 & Hwr%wrapping_ok & H).
  destruct (load_run x w) as (w1' & Hrun & Hfs1 & Henv1 & _).
  rewrite Hrun in Hload. injection Hload as Hc <-.
  assert (∀ p, stat w1' p = stat w p) as Hstat1.
  { intros [|y p]; [done|]. unfold stat. by rewrite Hfs1. }
  apply WriteFile_ok in Hwr as (Hw2 & Hpar & Hnd & Hro).
  rewrite components_Join2 in Hw2, Hpar, Hnd, Hro
    by (apply Hsimple; rewrite fmap_cons; by left).
  rewrite removelast_last in Hpar. rewrite Hstat1 in Hpar, Hnd.
  destruct Henv1 as (Hro1 & _). rewrite Hro1 in Hro.
  intros n' x' Hin. apply elem_of_cons in Hin as [[= -> ->]|Hin].
  { split; [done|]. split; [done|]. destruct (blob x); [done|discriminate]. }
  destruct (IH w2 H) with (n := n') (x := x') as (_ & [Hnd' Hro'] & Hb');
    [|done|].
  { intros m Hm. apply Hsimple. rewrite fmap_cons. by right. }
  split; [done|]. split; [|done]. split.
  - destruct (decide (n' = n)) as [->|Hne]; [done|].
    rewrite <- Hstat1.
    rewrite <- (stat_insert_dir w1' w2 _ (components dir ++ [n]) c); [done| |].
    + by rewrite Hw2.
    + by intros [_ ?]%app_inj_tail.
  - rewrite Hw2 in Hro'. cbn [readonly set_fs record] in Hro'.
    by rewrite Hro1 in Hro'.
Qed.

(** The order of the entries does not show in the tree. *)
Lemma loop_order dir entries1 entries2 w w1 :
  entries1 ≡ₚ entries2 →
  NoDup entries1.*1 →
  (∀ n, n ∈ entries1.*1 → components n = [n]) →
  loop dir entries1 w = (Ok tt, w1) →
  ∃ w2, loop dir entries2 w = (Ok tt, w2) ∧ fs w2 = fs w1.
Proof.
  intros Hperm Hnd Hsimple H1.
  assert (entries1.*1 ≡ₚ entries2.*1) as Hperm' by (by rewrite Hperm).
  assert (∀ n, n ∈ entries2.*1 → components n = [n]) as Hsimple2.
  { intros n Hn. apply Hsimple. by rewrite Hperm'. }
  pose proof (loop_success_inv dir entries1 w w1 H1 Hsimple) as Hpre.
  assert (entries1 = [] ∨ stat w (components dir) = Some Directory)
    as [->|Hdir].
  { destruct entries1 as [|[n x] rest1]; [by left|right].
    by destruct (Hpre n x ltac:(by left)) as (? & _). }
  { apply Permutation_nil_l in Hperm as <-. rewrite loop_nil in *.
    exists w. split; [done|]. by injection H1 as <-. }
  destruct (loop_succeeds dir entries2 w Hdir) as (w2 & H2 & _).
  { intros n x Hin. rewrite <- Hperm in Hin.
    destruct (Hpre n x Hin) as (_ & ? & ?).
    split; [|done]. apply Hsimple.
    apply list_elem_of_fmap. by exists (n, x). }
  exists w2. split; [done|]. apply map_eq. intros q.
  destruct (decide (q ∈ (λ n, components dir ++ [n]) <$> entries1.*1))
    as [Hin|Hout].
  - apply list_elem_of_fmap in Hin as (n & -> & Hn).
    apply list_elem_of_fmap in Hn as ([n' x] & -> & Hin). cbn [fst].
    destruct (loop_written load loop blob loop_nil loop_cons load_run_spec
                dir entries1 w w1 H1 Hnd Hsimple n' x Hin) as (c1 & Hc1 & ->).
    destruct (loop_written load loop blob loop_nil loop_cons load_run_spec
                dir entries2 w w2 H2) with (n := n') (x := x)
      as (c2 & Hc2 & ->).
    + by rewrite <- Hperm'.
    + done.
    + by rewrite <- Hperm.
    + congruence.
  - destruct (loop_evolves load loop blob loop_nil loop_cons load_run_spec
                dir entries1 w _ w1 H1 Hsimple) as (_ & Hf1 & _).
    destruct (loop_evolves load loop blob loop_nil loop_cons load_run_spec
                dir entries2 w _ w2 H2 Hsimple2) as (_ & Hf2 & _).
    rewrite Hf1, Hf2; [done| |].
    + intros (n & Hn & ->). apply Hout. apply list_elem_of_fmap.
      exists n. split; [done|]. by rewrite Hperm'.
    + intros (n & Hn & ->). apply Hout. apply list_elem_of_fmap.
      by exists n.
Qed.

Lemma loop_appends (Q : event → Prop) dir entries w r w' :
  (∀ x, Forall Q (calls x)) → (∀ p, Q (EvWriteFile p)) →
  loop dir entries w = (r, w') → env_eq w w' ∧ appends Q w w'.
Proof.
  intros Hcalls Hwrite. revert w.
  induction entries as [|[n x] rest IH]; intros w H.
  - rewrite loop_nil in H. injection H as _ <-.
    split; [apply env_eq_refl|apply appends_refl].
  - rewrite loop_cons in H. unfold bind at 1 in H.
    destruct (load_run x w) as (w1 & Hrun & _ & Henv1 & Htr1).
    rewrite Hrun in H.
    assert (appends Q w w1) as H1 by (by exists (calls x)).
    destruct (blob x) as [c|]; [|by injection H as _ <-].
    unfold bind at 1 in H. unfold wrapping at 1 in H.
    destruct (os.WriteFile _ c w1) as [[[]|e] w2] eqn:Hwr;
      pose proof (WriteFile_evolves _ _ _ _ _ Hwr) as (Henv2 & _);
      apply (WriteFile_appends Q) in Hwr; try done.
    + destruct (IH _ H) as [Henv3 H3]. split.
      * eapply env_eq_trans; [done|]. by eapply env_eq_trans.
      * eapply appends_trans; [done|]. by eapply appends_trans.
    + injection H as _ <-. split.
      * by eapply env_eq_trans.
      * by eapply appends_trans.
Qed.

Lemma loop_calls_ok dir entries w w' :
  loop dir entries w = (Ok tt, w') →
  trace w' = trace w ++ loop_calls calls dir entries.
Proof.
  revert w. induction entries as [|[n x] rest IH]; intros w H.
  { rewrite loop_nil in H. injection H as <-. by rewrite app_nil_r. }
  rewrite loop_cons in H.
  apply bind_ok in H as (c & w1 & Hload & H).
  apply bind_ok in H as ([] & w2 & Hwr%wrapping_ok & H).
  destruct (load_run x w) as (w1' & Hrun & _ & _ & Htr1).
  rewrite Hrun in Hload. injection Hload as _ <-.
  apply WriteFile_ok in Hwr as (-> & _).
  rewrite (IH _ H). cbn [trace set_fs record]. rewrite Htr1.
  unfold loop_calls. cbn [flat_map fst snd]. by rewrite <- !app_assoc.
Qed.

End WritingLoopRuns.
(** ** The two file-writing steps of each revision *)

Lemma Embedded_load_run templatesFS x w :
  ∃ w', Embedded.loadEmbeddedTemplate templatesFS x w
        = (match templatesFS !! x with
           | Some content => Ok content
           | None => Err (Wrap ("failed to read embedded template file " +:+ x)
                            (Base ENOENT))
           end, w')
        ∧ fs w' = fs w ∧ env_eq w w' ∧ trace w' = trace w ++ [EvTemplate x].
Proof.
  exists (record (EvTemplate x) w).
  unfold Embedded.loadEmbeddedTemplate, wrapping, Embedded.ReadTemplate.
  split; [by destruct (templatesFS !! x)|].
  split; [done|]. split; [apply env_eq_record|done].
Qed.

Lemma MainGo_load_run (x : string) w :
  ∃ w', ret x w = (match Some x with
                   | Some content => Ok content
                   | None => Err (Base EIO)
                   end, w')
        ∧ fs w' = fs w ∧ env_eq w w' ∧ trace w' = trace w ++ [].
Proof.
  exists w. split; [done|]. split; [done|].
  split; [apply env_eq_refl|by rewrite app_nil_r].
Qed.

Section FilesMore.
Variable range : list (string * string) → list (string * string).
Hypothesis range_perm : ∀ l, range l ≡ₚ l.
Variable templatesFS : gmap string string.
Variable corePlugins graph workspace : string.

Lemma range_split_names (l pre post : list (string * string)) n x :
  NoDup l.*1 →
  (∀ m, m ∈ l.*1 → components m = [m]) →
  range l = pre ++ (n, x) :: post →
  NoDup (pre.*1 ++ [n]) ∧ components n = [n]
  ∧ ∀ m, m ∈ pre.*1 → components m = [m].
Proof.
  intros Hnd Hsimple Heq.
  assert (NoDup (range l).*1) as Hnd' by (by rewrite range_perm).
  assert (∀ m, m ∈ (range l).*1 → components m = [m]) as Hsimple'.
  { intros m Hm. apply Hsimple. by rewrite <- (range_perm l). }
  rewrite Heq in Hnd', Hsimple'. rewrite fmap_app, fmap_cons in Hnd', Hsimple'.
  cbn [fst] in *. split; [|split].
  - rewrite cons_middle, app_assoc in Hnd'. by apply NoDup_app in Hnd' as [? _].
  - apply Hsimple'. rewrite elem_of_app, elem_of_cons. tauto.
  - intros m Hm. apply Hsimple'. rewrite elem_of_app. tauto.
Qed.

Lemma configTemplates_names :
  NoDup Embedded.configTemplates.*1
  ∧ ∀ m, m ∈ Embedded.configTemplates.*1 → components m = [m].
Proof.
  split; [compute_done|]. intros m Hm. simpl in Hm.
  repeat (apply elem_of_cons in Hm as [->|Hm]; [done|]).
  by apply elem_of_nil in Hm.
Qed.

Lemma configFiles_names :
  NoDup (MainGo.configFiles corePlugins graph workspace).*1
  ∧ ∀ m, m ∈ (MainGo.configFiles corePlugins graph workspace).*1 →
         components m = [m].
Proof.
  split; [compute_done|]. intros m Hm. simpl in Hm.
  repeat (apply elem_of_cons in Hm as [->|Hm]; [done|]).
  by apply elem_of_nil in Hm.
Qed.

(** X9.  The revision with embedded templates, when the template of a
    document is missing: createObsidianFiles returns the error of
    loadEmbeddedTemplate as it is, with the path of the template and without
    the words of a failed write; the documents whose turn came before are
    written with the content of their templates, and nothing else in the tree
    has changed. *)
Theorem missing_template_stops_the_writing dir w pre f t post :
  range Embedded.configTemplates = pre ++ (f, t) :: post →
  templatesFS !! t = None →
  (∀ n x, (n, x) ∈ pre → is_Some (templatesFS !! x)) →
  stat w (components dir) = Some Directory →
  (∀ n, n ∈ pre.*1 → writable w (components dir) n) →
  ∃ w', Embedded.createObsidianFiles range templatesFS dir w
        = (Err (Wrap ("failed to read embedded template file " +:+ t)
                  (Base ENOENT)), w')
        ∧ (∀ n x, (n, x) ∈ pre →
                  ∃ content, templatesFS !! x = Some content
                             ∧ fs w' !! (components dir ++ [n])
                               = Some (Regular content))
        ∧ ∀ q, (∀ n, n ∈ pre.*1 → q ≠ components dir ++ [n]) →
               fs w' !! q = fs w !! q.
Proof.
  intros Heq Hmiss Hpresent Hdir Hwr.
  destruct configTemplates_names as [Hnd Hsimple].
  destruct (range_split_names _ _ _ _ _ Hnd Hsimple Heq)
    as (Hnd' & Hf & Hsimple').
  unfold Embedded.createObsidianFiles. rewrite Heq.
  apply (loop_stops (Embedded.loadEmbeddedTemplate templatesFS)
           (Embedded.writeTemplates templatesFS)
           (λ x, templatesFS !! x)
           (λ x, Wrap ("failed to read embedded template file " +:+ x)
                   (Base ENOENT))
           (λ x, [EvTemplate x]) ltac:(done) ltac:(done)
           (Embedded_load_run templatesFS)); try done.
  - intros m y Hin.
    assert (m ∈ pre.*1) by (apply list_elem_of_fmap; by exists (m, y)).
    split; [by apply Hsimple'|]. split; [by apply Hwr|by eapply Hpresent].
  - by left.
Qed.

(** X10.  main.go, when a document cannot be written because a directory
    bears its name or the process may not write there: createObsidianFiles
    fails with the words failed to write and the name of the file; the
    documents whose turn came before keep the content written, and nothing else
    in the tree has changed. *)
Theorem write_failure_names_the_file dir w pre f content post c :
  range (MainGo.configFiles corePlugins graph workspace)
  = pre ++ (f, content) :: post →
  stat w (components dir) = Some Directory →
  (∀ n, n ∈ pre.*1 → writable w (components dir) n) →
  (stat w (components dir ++ [f]) = Some Directory ∧ c = EISDIR)
  ∨ (stat w (components dir ++ [f]) ≠ Some Directory
     ∧ components dir ++ [f] ∈ readonly w ∧ c = EACCES) →
  ∃ w', MainGo.createObsidianFiles range corePlugins graph workspace dir w
        = (Err (Wrap ("failed to write " +:+ f) (Base c)), w')
        ∧ (∀ n x, (n, x) ∈ pre →
                  fs w' !! (components dir ++ [n]) = Some (Regular x))
        ∧ ∀ q, (∀ n, n ∈ pre.*1 → q ≠ components dir ++ [n]) →
               fs w' !! q = fs w !! q.
Proof.
  intros Heq Hdir Hwr Hcase.
  destruct configFiles_names as [Hnd Hsimple].
  destruct (range_split_names _ _ _ _ _ Hnd Hsimple Heq)
    as (Hnd' & Hf & Hsimple').
  unfold MainGo.createObsidianFiles. rewrite Heq.
  destruct (loop_stops ret MainGo.writeFiles Some (λ _, Base EIO) (λ _, [])
              ltac:(done) ltac:(done) MainGo_load_run
              dir pre f content post w
              (Wrap ("failed to write " +:+ f) (Base c)))
    as (w' & Hrun & Hwritten & Hframe); try done.
  - intros m y Hin.
    assert (m ∈ pre.*1) by (apply list_elem_of_fmap; by exists (m, y)).
    split; [by apply Hsimple'|]. split; [by apply Hwr|done].
  - right. split; [done|]. by exists c.
  - exists w'. split; [done|]. split; [|done].
    intros n x Hin. by destruct (Hwritten n x Hin) as (? & [= <-] & ?).
Qed.

Lemma configTemplates_entries n x :
  (n, x) ∈ Embedded.configTemplates
  ↔ n ∈ configNames ∧ x = "templates/" +:+ n.
Proof.
  unfold Embedded.configTemplates, configNames. split.
  - intros Hin.
    repeat (apply elem_of_cons in Hin as [[= -> ->]|Hin];
            [split; [compute_done|done]|]).
    by apply elem_of_nil in Hin.
  - intros [Hn ->].
    repeat (apply elem_of_cons in Hn as [->|Hn]; [compute_done|]).
    by apply elem_of_nil in Hn.
Qed.

Lemma configFiles_entries n :
  n ∈ configNames
  ↔ ∃ x, (n, x) ∈ MainGo.configFiles corePlugins graph workspace.
Proof.
  unfold MainGo.configFiles, configNames. split.
  - intros Hn.
    repeat (apply elem_of_cons in Hn as [->|Hn];
            [eexists; apply list_elem_of_In; simpl; tauto|]).
    by apply elem_of_nil in Hn.
  - intros [x Hin].
    repeat (apply elem_of_cons in Hin as [[= -> ->]|Hin]; [compute_done|]).
    by apply elem_of_nil in Hin.
Qed.

Lemma Embedded_createObsidianFiles_iff dir w :
  (∃ w', Embedded.createObsidianFiles range templatesFS dir w = (Ok tt, w'))
  ↔ stat w (components dir) = Some Directory
    ∧ ∀ n, n ∈ configNames →
           writable w (components dir) n
           ∧ is_Some (embedded templatesFS n).
Proof.
  destruct configTemplates_names as [HndE HsimpleE]. split.
  - intros [w' H]. unfold Embedded.createObsidianFiles in H.
    pose proof (loop_success_inv (Embedded.loadEmbeddedTemplate templatesFS)
                  (Embedded.writeTemplates templatesFS)
                  (λ x, templatesFS !! x) _ (λ x, [EvTemplate x])
                  ltac:(done) (Embedded_load_run templatesFS)
                  dir _ w w' H) as Hinv.
    assert (∀ n x, (n, x) ∈ Embedded.configTemplates →
                   stat w (components dir) = Some Directory
                   ∧ writable w (components dir) n
                   ∧ is_Some (templatesFS !! x)) as Hall.
    { intros n x Hin. apply Hinv; [|by rewrite range_perm].
      intros m Hm. apply HsimpleE. by rewrite <- (range_perm _). }
    split.
    + by destruct (Hall "app.json" "templates/app.json" ltac:(compute_done)).
    + intros n Hn.
      destruct (Hall n ("templates/" +:+ n)) as (_ & ? & ?); [|done].
      by apply configTemplates_entries.
  - intros [Hdir Hall].
    destruct (loop_succeeds (Embedded.loadEmbeddedTemplate templatesFS)
                (Embedded.writeTemplates templatesFS)
                (λ x, templatesFS !! x) _ (λ x, [EvTemplate x])
                ltac:(done) ltac:(done) (Embedded_load_run templatesFS)
                dir (range Embedded.configTemplates) w Hdir)
      as (w' & Hrun & _); [|by exists w'].
    intros n x Hin. rewrite range_perm in Hin.
    apply configTemplates_entries in Hin as [Hn ->].
    destruct (Hall n Hn) as [? ?]. split; [|done].
    apply HsimpleE. apply list_elem_of_fmap.
    exists (n, "templates/" +:+ n). split; [done|].
    by apply configTemplates_entries.
Qed.

Lemma MainGo_createObsidianFiles_iff dir w :
  (∃ w', MainGo.createObsidianFiles range corePlugins graph workspace
           dir w = (Ok tt, w'))
  ↔ stat w (components dir) = Some Directory
    ∧ ∀ n, n ∈ configNames → writable w (components dir) n.
Proof.
  destruct configFiles_names as [HndM HsimpleM]. split.
  - intros [w' H]. unfold MainGo.createObsidianFiles in H.
    pose proof (loop_success_inv ret MainGo.writeFiles Some (λ _, Base EIO)
                  (λ _, []) ltac:(done) MainGo_load_run
                  dir _ w w' H) as Hinv.
    assert (∀ n x, (n, x) ∈ MainGo.configFiles corePlugins graph workspace →
                   stat w (components dir) = Some Directory
                   ∧ writable w (components dir) n
                   ∧ is_Some (Some x)) as Hall.
    { intros n x Hin. apply Hinv; [|by rewrite range_perm].
      intros m Hm. apply HsimpleM. by rewrite <- (range_perm _). }
    split.
    + by destruct (Hall "app.json" "{}" ltac:(compute_done)).
    + intros n [x Hin]%configFiles_entries.
      by destruct (Hall n x Hin) as (_ & ? & _).
  - intros [Hdir Hall].
    destruct (loop_succeeds ret MainGo.writeFiles Some (λ _, Base EIO)
                (λ _, []) ltac:(done) ltac:(done) MainGo_load_run
                dir (range (MainGo.configFiles corePlugins graph workspace))
                w Hdir)
      as (w' & Hrun & _); [|by exists w'].
    intros n x Hin. rewrite range_perm in Hin.
    assert (n ∈ configNames) as Hn by (apply configFiles_entries; by exists x).
    split; [|split; [by apply Hall|done]].
    apply HsimpleM. apply list_elem_of_fmap. by exists (n, x).
Qed.

Lemma range_singleton (e : string * string) : range [e] = [e].
Proof. apply Permutation_singleton_r. by rewrite range_perm. Qed.

Lemma Embedded_createInitialFiles_iff dir w :
  (∃ w', Embedded.createInitialFiles range templatesFS dir w = (Ok tt, w'))
  ↔ stat w (components dir) = Some Directory
    ∧ writable w (components dir) "Welcome.md"
    ∧ is_Some (embedded templatesFS "Welcome.md").
Proof.
  unfold Embedded.createInitialFiles, Embedded.initialTemplates.
  rewrite range_singleton. split.
  - intros [w' H].
    by apply (loop_success_inv (Embedded.loadEmbeddedTemplate templatesFS)
                (Embedded.writeTemplates templatesFS)
                (λ x, templatesFS !! x) _ (λ x, [EvTemplate x])
                ltac:(done) (Embedded_load_run templatesFS)
                dir _ w w' H ltac:(by intros n ->%list_elem_of_singleton)
                "Welcome.md" "templates/Welcome.md"
                ltac:(by apply list_elem_of_singleton)).
  - intros (Hdir & Hwr & Hp).
    destruct (loop_succeeds (Embedded.loadEmbeddedTemplate templatesFS)
                (Embedded.writeTemplates templatesFS)
                (λ x, templatesFS !! x) _ (λ x, [EvTemplate x])
                ltac:(done) ltac:(done) (Embedded_load_run templatesFS)
                dir [("Welcome.md", "templates/Welcome.md")] w Hdir)
      as (w' & Hrun & _); [|by exists w'].
    by intros n x [= -> ->]%list_elem_of_singleton.
Qed.

Lemma MainGo_createInitialFiles_iff dir w :
  (∃ w', MainGo.createInitialFiles range dir w = (Ok tt, w'))
  ↔ stat w (components dir) = Some Directory
    ∧ writable w (components dir) "Welcome.md".
Proof.
  unfold MainGo.createInitialFiles, MainGo.initialFiles.
  rewrite range_singleton. split.
  - intros [w' H].
    destruct (loop_success_inv ret MainGo.writeFiles Some (λ _, Base EIO)
                (λ _, []) ltac:(done) MainGo_load_run
                dir _ w w' H ltac:(by intros n ->%list_elem_of_singleton)
                "Welcome.md" MainGo.welcome
                ltac:(by apply list_elem_of_singleton)) as (? & ? & _).
    done.
  - intros (Hdir & Hwr).
    destruct (loop_succeeds ret MainGo.writeFiles Some (λ _, Base EIO)
                (λ _, []) ltac:(done) ltac:(done) MainGo_load_run
                dir [("Welcome.md", MainGo.welcome)] w Hdir)
      as (w' & Hrun & _); [|by exists w'].
    by intros n x [= -> ->]%list_elem_of_singleton.
Qed.

(** X11.  The functions that write the files of a vault succeed exactly when
    the directory they write into is there, no directory bears the name of a
    file to write, the process may write each of the files and, in the revision
    with embedded templates, each template is embedded. *)
Theorem files_written_exactly_when dir w :
  ((∃ w', Embedded.createObsidianFiles range templatesFS dir w = (Ok tt, w'))
   ↔ stat w (components dir) = Some Directory
     ∧ ∀ n, n ∈ configNames →
            writable w (components dir) n
            ∧ is_Some (embedded templatesFS n))
  ∧ ((∃ w', Embedded.createInitialFiles range templatesFS dir w
            = (Ok tt, w'))
     ↔ stat w (components dir) = Some Directory
       ∧ writable w (components dir) "Welcome.md"
       ∧ is_Some (embedded templatesFS "Welcome.md"))
  ∧ ((∃ w', MainGo.createObsidianFiles range corePlugins graph workspace
              dir w = (Ok tt, w'))
     ↔ stat w (components dir) = Some Directory
       ∧ ∀ n, n ∈ configNames → writable w (components dir) n)
  ∧ ((∃ w', MainGo.createInitialFiles range dir w = (Ok tt, w'))
     ↔ stat w (components dir) = Some Directory
       ∧ writable w (components dir) "Welcome.md").
Proof.
  split; [apply Embedded_createObsidianFiles_iff|].
  split; [apply Embedded_createInitialFiles_iff|].
  split; [apply MainGo_createObsidianFiles_iff
         |apply MainGo_createInitialFiles_iff].
Qed.

End FilesMore.

(** X12.  The order in which the map of the documents is iterated does not
    show in the tree: when createObsidianFiles succeeds with one order, it
    succeeds with any other and leaves the same tree. *)
Theorem iteration_order_is_immaterial
    (range1 range2 : list (string * string) → list (string * string))
    (templatesFS : gmap string string) (corePlugins graph workspace : string)
    (dir : string) (w w1 : World) :
  (∀ l, range1 l ≡ₚ l) → (∀ l, range2 l ≡ₚ l) →
  (Embedded.createObsidianFiles range1 templatesFS dir w = (Ok tt, w1) →
   ∃ w2, Embedded.createObsidianFiles range2 templatesFS dir w = (Ok tt, w2)
         ∧ fs w2 = fs w1)
  ∧ (MainGo.createObsidianFiles range1 corePlugins graph workspace dir w
     = (Ok tt, w1) →
     ∃ w2, MainGo.createObsidianFiles range2 corePlugins graph workspace
             dir w = (Ok tt, w2)
           ∧ fs w2 = fs w1).
Proof.
  intros Hperm1 Hperm2.
  destruct configTemplates_names as [HndE HsimpleE].
  destruct (configFiles_names corePlugins graph workspace)
    as [HndM HsimpleM].
  split; intros H.
  - eapply (loop_order (Embedded.loadEmbeddedTemplate templatesFS)
              (Embedded.writeTemplates templatesFS)
              (λ x, templatesFS !! x) _ (λ x, [EvTemplate x])
              ltac:(done) ltac:(done) (Embedded_load_run templatesFS));
      [| | |exact H].
    + by rewrite Hperm1, Hperm2.
    + by rewrite Hperm1.
    + intros n Hn. apply HsimpleE. by rewrite <- (Hperm1 _).
  - eapply (loop_order ret MainGo.writeFiles Some (λ _, Base EIO)
              (λ _, []) ltac:(done) ltac:(done) MainGo_load_run);
      [| | |exact H].
    + by rewrite Hperm1, Hperm2.
    + by rewrite Hperm1.
    + intros n Hn. apply HsimpleM. by rewrite <- (Hperm1 _).
Qed.
(** ** The calls of a run *)

Lemma generateVaultID_record w r w' :
  MainGo.generateVaultID w = (r, w') ∨ Embedded.generateVaultID w = (r, w') →
  w' = record EvRandom w.
Proof.
  intros [H|H].
  - unfold MainGo.generateVaultID, bind, OpenRandom, file.Read in H.
    destruct (random w) as [[delivered rerr]|e]; [|by injection H].
    cbn [fst snd] in H.
    destruct (take _ delivered), rerr; by injection H.
  - unfold Embedded.generateVaultID, bind, wrapping, rand.Read in H.
    cbn [random record] in H.
    destruct (random w) as [[delivered rerr]|e]; [|by injection H].
    case_decide; [by injection H|].
    destruct rerr; [by injection H|]. destruct delivered; by injection H.
Qed.



Section RegistryCalls.
Context {codec : json.Codec}.

Lemma updateGlobalConfig_appends vaultPath vaultID w r w' :
  updateGlobalConfig vaultPath vaultID w = (r, w') →
  appends (λ ev, is_print ev = false) w w'.
Proof.
  intros H. unfold updateGlobalConfig in H.
  unfold bind at 1 in H. unfold wrapping at 1 in H.
  unfold os.UserConfigDir in H.
  eapply appends_trans; [by apply (appends_record _ EvUserConfigDir)|].
  destruct (configDir w) as [dir|e0]; [|injection H as _ <-; apply appends_refl].
  revert H. generalize (record EvUserConfigDir w). clear w. intros w H.
  unfold bind at 1 in H. unfold wrapping at 1 in H.
  destruct (os.MkdirAll _ w) as [[[]|e0] w2] eqn:Hmk;
    apply (MkdirAll_appends (λ ev, is_print ev = false)) in Hmk; try done.
  2: { by injection H as _ <-. }
  eapply appends_trans; [done|]. clear Hmk w.
  unfold bind at 1 in H.
  destruct (readConfig _ w2) as [[prior|e0] w3] eqn:Hread;
    apply readConfig_inv in Hread as [-> _].
  2: { injection H as _ <-. by apply appends_record. }
  eapply appends_trans;
    [by apply (appends_record _ (EvReadFile (registryFile dir)))|].
  revert H. generalize (record (EvReadFile (registryFile dir)) w2).
  clear w2. intros w H.
  unfold bind at 1 in H. unfold wrapping at 1 in H.
  destruct (json.MarshalIndent _) as [data|e0].
  2: { injection H as _ <-. apply appends_refl. }
  unfold bind at 1 in H. unfold wrapping at 1 in H.
  destruct (os.WriteFile _ data w) as [[[]|e0] w5] eqn:Hwr;
    apply (WriteFile_appends (λ ev, is_print ev = false)) in Hwr; try done;
    by injection H as _ <-.
Qed.


End RegistryCalls.
Section RunCalls.
Context {codec : json.Codec}.
Variable generateVaultID : M string.
Variable createObsidianFiles : string → M unit.
Variable createInitialFiles : string → M unit.
Variable configCalls initialCalls : string → list event.

Hypothesis generateVaultID_record : ∀ w r w',
  generateVaultID w = (r, w') → w' = record EvRandom w.
Hypothesis generateVaultID_random : ∀ w1 w2,
  random w1 = random w2 → (generateVaultID w1).1 = (generateVaultID w2).1.
Hypothesis createObsidianFiles_calls : ∀ dir w w',
  createObsidianFiles dir w = (Ok tt, w') →
  env_eq w w' ∧ trace w' = trace w ++ configCalls dir.
Hypothesis createInitialFiles_calls : ∀ dir w w',
  createInitialFiles dir w = (Ok tt, w') →
  env_eq w w' ∧ trace w' = trace w ++ initialCalls dir.
Hypothesis createObsidianFiles_quiet : ∀ dir w r w',
  createObsidianFiles dir w = (r, w') → appends quiet w w'.
Hypothesis createInitialFiles_quiet : ∀ dir w r w',
  createInitialFiles dir w = (r, w') → appends quiet w w'.


Lemma generateVault_quiet vaultPath w e w' :
  generateVault generateVaultID createObsidianFiles createInitialFiles
    vaultPath w = (Err e, w') →
  appends (λ ev, is_print ev = false) w w'
  ∧ ((∀ e0, e ≠ Wrap "failed to update global config" e0) →
     appends (λ ev, consults_registry ev = false) w w').
Proof.
  intros H.
  assert (∀ w0 w0', appends quiet w0 w0' →
            appends (λ ev, is_print ev = false) w0 w0'
            ∧ appends (λ ev, consults_registry ev = false) w0 w0') as Hboth.
  { intros w0 w0' Hq.
    split; (eapply appends_weaken; [|exact Hq]); by intros ev []. }
  assert (∀ w0 w0' : World,
            appends quiet w w0 →
            (appends quiet w w0 → w0' = w0) →
            w' = w0' →
            appends (λ ev, is_print ev = false) w w'
            ∧ ((∀ e0, e ≠ Wrap "failed to update global config" e0) →
               appends (λ ev, consults_registry ev = false) w w')) as Hstop.
  { intros w0 w0' Hq Heq ->. rewrite (Heq Hq).
    destruct (Hboth _ _ Hq). by split. }
  unfold generateVault in H.
  unfold bind at 1 in H. unfold wrapping at 1 in H. unfold Abs in H.
  assert (appends quiet w (record (EvAbs vaultPath) w)) as A1
    by (by apply appends_record).
  destruct (abs w vaultPath) as [absPath|e0].
  2: { injection H as _ <-. by destruct (Hboth _ _ A1). }
  revert H A1. generalize (record (EvAbs vaultPath) w). intros w1 H A1.
  unfold bind at 1 in H. unfold wrapping at 1 in H.
  destruct (os.MkdirAll absPath w1) as [[[]|e0] w2] eqn:H2;
    apply (MkdirAll_appends quiet) in H2; try done;
    pose proof (appends_trans _ _ _ _ A1 H2) as A2.
  2: { injection H as _ <-. by destruct (Hboth _ _ A2). }
  unfold bind at 1 in H. unfold wrapping at 1 in H.
  destruct (os.MkdirAll _ w2) as [[[]|e0] w3] eqn:H3;
    apply (MkdirAll_appends quiet) in H3; try done;
    pose proof (appends_trans _ _ _ _ A2 H3) as A3.
  2: { injection H as _ <-. by destruct (Hboth _ _ A3). }
  unfold bind at 1 in H. unfold wrapping at 1 in H.
  destruct (generateVaultID w3) as [r4 w4] eqn:H4.
  apply generateVaultID_record in H4 as ->.
  assert (appends quiet w (record EvRandom w3)) as A4.
  { eapply appends_trans; [exact A3|]. by apply appends_record. }
  destruct r4 as [id|e0].
  2: { injection H as _ <-. by destruct (Hboth _ _ A4). }
  unfold bind at 1 in H. unfold wrapping at 1 in H.
  destruct (createObsidianFiles _ _) as [[[]|e0] w5] eqn:H5;
    apply createObsidianFiles_quiet in H5;
    pose proof (appends_trans _ _ _ _ A4 H5) as A5.
  2: { injection H as _ <-. by destruct (Hboth _ _ A5). }
  unfold bind at 1 in H. unfold wrapping at 1 in H.
  destruct (createInitialFiles _ _) as [[[]|e0] w6] eqn:H6;
    apply createInitialFiles_quiet in H6;
    pose proof (appends_trans _ _ _ _ A5 H6) as A6.
  2: { injection H as _ <-. by destruct (Hboth _ _ A6). }
  unfold bind at 1 in H. unfold wrapping at 1 in H.
  destruct (updateGlobalConfig _ _ w6) as [[[]|e0] w7] eqn:H7.
  { unfold bind, Print, ret in H. done. }
  injection H as <- <-. split.
  - eapply appends_trans; [by destruct (Hboth _ _ A6)|].
    by eapply updateGlobalConfig_appends.
  - intros Hne. by destruct (Hne e0).
Qed.

End RunCalls.
(** ** The calls of each revision *)

Section RevisionCalls.
Context {codec : json.Codec}.
Variable range : list (string * string) → list (string * string).
Variable templatesFS : gmap string string.
Variable corePlugins graph workspace : string.

Lemma template_calls_quiet (x : string) : Forall quiet [EvTemplate x].
Proof. by repeat constructor. Qed.

Lemma no_calls_quiet (x : string) : Forall quiet [].
Proof. constructor. Qed.

Lemma write_quiet p : quiet (EvWriteFile p).
Proof. done. Qed.

Lemma Embedded_files_calls entries dir w r w' :
  Embedded.writeTemplates templatesFS dir entries w = (r, w') →
  env_eq w w' ∧ appends quiet w w'
  ∧ (r = Ok tt →
     trace w' = trace w ++ loop_calls (λ t, [EvTemplate t]) dir entries).
Proof.
  intros H.
  destruct (loop_appends (Embedded.loadEmbeddedTemplate templatesFS)
              (Embedded.writeTemplates templatesFS)
              (λ x, templatesFS !! x) _ (λ x, [EvTemplate x])
              ltac:(done) ltac:(done) (Embedded_load_run templatesFS)
              quiet dir entries w r w' template_calls_quiet write_quiet H)
    as [Henv Hq].
  split; [done|]. split; [done|]. intros ->.
  by apply (loop_calls_ok (Embedded.loadEmbeddedTemplate templatesFS)
              (Embedded.writeTemplates templatesFS)
              (λ x, templatesFS !! x) _ (λ x, [EvTemplate x])
              ltac:(done) ltac:(done) (Embedded_load_run templatesFS)).
Qed.

Lemma MainGo_files_calls entries dir w r w' :
  MainGo.writeFiles dir entries w = (r, w') →
  env_eq w w' ∧ appends quiet w w'
  ∧ (r = Ok tt → trace w' = trace w ++ loop_calls (λ _, []) dir entries).
Proof.
  intros H.
  destruct (loop_appends ret MainGo.writeFiles Some (λ _, Base EIO)
              (λ _, []) ltac:(done) ltac:(done) MainGo_load_run
              quiet dir entries w r w' no_calls_quiet write_quiet H)
    as [Henv Hq].
  split; [done|]. split; [done|]. intros ->.
  by apply (loop_calls_ok ret MainGo.writeFiles Some (λ _, Base EIO)
              (λ _, []) ltac:(done) ltac:(done) MainGo_load_run).
Qed.




(** X15.  A run that fails prints nothing; and unless the failure is that of
    the registration, the run has neither asked for the configuration directory
    nor read a file. *)
Theorem failed_run_is_silent vaultPath w e w' :
  Embedded.generateVault range templatesFS vaultPath w = (Err e, w')
  ∨ MainGo.generateVault range corePlugins graph workspace vaultPath w
    = (Err e, w') →
  appends (λ ev, is_print ev = false) w w'
  ∧ ((∀ e0, e ≠ Wrap "failed to update global config" e0) →
     appends (λ ev, consults_registry ev = false) w w').
Proof.
  intros [H|H].
  - apply (generateVault_quiet Embedded.generateVaultID
             (Embedded.createObsidianFiles range templatesFS)
             (Embedded.createInitialFiles range templatesFS)) in H; [done|..].
    + intros w0 r w0' H0. apply (generateVaultID_record w0 r). by right.
    + intros dir w0 r w0' H0. by apply Embedded_files_calls in H0 as (_ & ? & _).
    + intros dir w0 r w0' H0. by apply Embedded_files_calls in H0 as (_ & ? & _).
  - apply (generateVault_quiet MainGo.generateVaultID
             (MainGo.createObsidianFiles range corePlugins graph workspace)
             (MainGo.createInitialFiles range)) in H; [done|..].
    + intros w0 r w0' H0. apply (generateVaultID_record w0 r). by left.
    + intros dir w0 r w0' H0. by apply MainGo_files_calls in H0 as (_ & ? & _).
    + intros dir w0 r w0' H0. by apply MainGo_files_calls in H0 as (_ & ? & _).
Qed.

End RevisionCalls.
(** ** Runs that succeed *)






Section RegistrySucceeds.
Context {codec : json.Codec}.


End RegistrySucceeds.




Section RunSucceeds.
Context {codec : json.Codec} {total : json.Total codec}.
Variable generateVaultID : M string.
Variable createObsidianFiles : string → M unit.
Variable createInitialFiles : string → M unit.
(** The content of a file of the vault is at hand. *)
Variable present : string → Prop.

Hypothesis generateVaultID_record : ∀ w r w',
  generateVaultID w = (r, w') → w' = record EvRandom w.
Hypothesis generateVaultID_random : ∀ w1 w2,
  random w1 = random w2 → (generateVaultID w1).1 = (generateVaultID w2).1.
Hypothesis createObsidianFiles_when : ∀ dir w,
  stat w (components dir) = Some Directory →
  (∀ n, n ∈ configNames → writable w (components dir) n ∧ present n) →
  ∃ w', createObsidianFiles dir w = (Ok tt, w').
Hypothesis createInitialFiles_when : ∀ dir w,
  stat w (components dir) = Some Directory →
  writable w (components dir) "Welcome.md" → present "Welcome.md" →
  ∃ w', createInitialFiles dir w = (Ok tt, w').
Hypothesis createObsidianFiles_frame : ∀ dir w w',
  createObsidianFiles dir w = (Ok tt, w') →
  evolves (λ q, ∃ n, n ∈ configNames ∧ q = components dir ++ [n]) w w'.
Hypothesis createInitialFiles_frame : ∀ dir w w',
  createInitialFiles dir w = (Ok tt, w') →
  evolves (λ q, q = components dir ++ ["Welcome.md"]) w w'.


End RunSucceeds.


Section RevisionsSucceed.
Context {codec : json.Codec} {total : json.Total codec}.
Variable range : list (string * string) → list (string * string).
Hypothesis range_perm : ∀ l, range l ≡ₚ l.
Variable templatesFS : gmap string string.
Variable corePlugins graph workspace : string.




End RevisionsSucceed.

Section RunAgain.
Context {codec : json.Codec} {total : json.Total codec}
  {lossless : json.Lossless codec}.
Variable generateVaultID : M string.
Variable createObsidianFiles : string → M unit.
Variable createInitialFiles : string → M unit.
Variable present : string → Prop.

Hypothesis generateVaultID_record : ∀ w r w',
  generateVaultID w = (r, w') → w' = record EvRandom w.
Hypothesis generateVaultID_random : ∀ w1 w2,
  random w1 = random w2 → (generateVaultID w1).1 = (generateVaultID w2).1.
Hypothesis createObsidianFiles_iff : ∀ dir w,
  (∃ w', createObsidianFiles dir w = (Ok tt, w'))
  ↔ stat w (components dir) = Some Directory
    ∧ ∀ n, n ∈ configNames → writable w (components dir) n ∧ present n.
Hypothesis createInitialFiles_iff : ∀ dir w,
  (∃ w', createInitialFiles dir w = (Ok tt, w'))
  ↔ stat w (components dir) = Some Directory
    ∧ writable w (components dir) "Welcome.md" ∧ present "Welcome.md".
Hypothesis createObsidianFiles_spec : ∀ dir w w',
  createObsidianFiles dir w = (Ok tt, w') →
  evolves (λ q, ∃ n, n ∈ configNames ∧ q = components dir ++ [n]) w w'
  ∧ ∀ n, n ∈ configNames →
         ∃ content, fs w' !! (components dir ++ [n])
                    = Some (Regular content).
Hypothesis createInitialFiles_spec : ∀ dir w w',
  createInitialFiles dir w = (Ok tt, w') →
  evolves (λ q, q = components dir ++ ["Welcome.md"]) w w'
  ∧ ∃ content, fs w' !! (components dir ++ ["Welcome.md"])
               = Some (Regular content).


End RunAgain.

Section RevisionsAgain.
Context {codec : json.Codec} {total : json.Total codec}
  {lossless : json.Lossless codec}.
Variable range : list (string * string) → list (string * string).
Hypothesis range_perm : ∀ l, range l ≡ₚ l.
Variable templatesFS : gmap string string.
Variable corePlugins graph workspace : string.


End RevisionsAgain.
(** ** A file in the way of the vault *)

Lemma mkdirAll_blocked q d k w :
  stat w q = Some (Regular d) →
  (∀ j, j ≠ [] → j `prefix_of` k → fs w !! (q ++ j) = None) →
  os.mkdirAll (rev (q ++ k)) w = (Err (Base ENOTDIR), w).
Proof.
  intros Hq. induction k as [|x k IH] using rev_ind; intros Hnone.
  - rewrite app_nil_r. destruct (rev q) as [|y rq] eqn:Hrev.
    + apply (f_equal (@rev _)) in Hrev. rewrite rev_involutive in Hrev.
      by subst q.
    + cbn [os.mkdirAll]. change (rev rq ++ [y]) with (rev (y :: rq)).
      by rewrite <- Hrev, rev_involutive, Hq.
  - rewrite app_assoc, rev_app_distr. cbn [rev app os.mkdirAll].
    rewrite rev_involutive, stat_nonroot, <- app_assoc.
    rewrite Hnone; [|by destruct k|done].
    rewrite IH; [done|]. intros j Hj Hpre. apply Hnone; [done|].
    by apply prefix_app_r.
Qed.

Section BlockedRun.
Context {codec : json.Codec}.
Variable generateVaultID : M string.
Variable createObsidianFiles : string → M unit.
Variable createInitialFiles : string → M unit.

Lemma generateVault_blocked vaultPath w absPath q d k :
  abs w vaultPath = Ok absPath →
  components absPath = q ++ k →
  stat w q = Some (Regular d) →
  (∀ j, j ≠ [] → j `prefix_of` k → fs w !! (q ++ j) = None) →
  generateVault generateVaultID createObsidianFiles createInitialFiles
    vaultPath w
  = (Err (Wrap "failed to create vault directory" (Base ENOTDIR)),
     record (EvMkdirAll absPath) (record (EvAbs vaultPath) w)).
Proof.
  intros Habs Hsplit Hq Hnone.
  unfold generateVault, bind, wrapping, Abs, os.MkdirAll.
  rewrite Habs, Hsplit.
  rewrite (mkdirAll_blocked q d k); [done| |done].
  by destruct q.
Qed.

End BlockedRun.

Section RevisionsBlocked.
Context {codec : json.Codec}.
Variable range : list (string * string) → list (string * string).
Variable templatesFS : gmap string string.
Variable corePlugins graph workspace : string.

(** X25.  When a file stands where the vault should go, or where one of
    the directories on the way to it should be, and there is nothing below
    that file, the run fails with the words failed to create vault directory
    over ENOTDIR, in both revisions.  It has resolved the path and called
    MkdirAll and nothing else, and the tree is as it was. *)
Theorem vault_path_blocked_by_a_file vaultPath w absPath q d k :
  abs w vaultPath = Ok absPath →
  components absPath = q ++ k →
  stat w q = Some (Regular d) →
  (∀ j, j ≠ [] → j `prefix_of` k → fs w !! (q ++ j) = None) →
  let e := Wrap "failed to create vault directory" (Base ENOTDIR) in
  ∃ w', Embedded.generateVault range templatesFS vaultPath w = (Err e, w')
        ∧ MainGo.generateVault range corePlugins graph workspace vaultPath w
          = (Err e, w')
        ∧ fs w' = fs w
        ∧ trace w' = trace w ++ [EvAbs vaultPath; EvMkdirAll absPath].
Proof.
  intros Habs Hsplit Hq Hnone e.
  exists (record (EvMkdirAll absPath) (record (EvAbs vaultPath) w)).
  split; [|split; [|split]].
  - by apply generateVault_blocked with (q := q) (d := d) (k := k).
  - by apply generateVault_blocked with (q := q) (d := d) (k := k).
  - done.
  - cbn [trace record]. by rewrite <- app_assoc.
Qed.

End RevisionsBlocked.

(** ** A vault whose registration fails *)


Section LayoutBeforeRegistration.
Context {codec : json.Codec}.
Variable generateVaultID : M string.
Variable createObsidianFiles : string → M unit.
Variable createInitialFiles : string → M unit.
Variable blob : string → option string.

Hypothesis generateVaultID_keeps : ∀ w r w',
  generateVaultID w = (r, w') → evolves (λ _, False) w w'.
Hypothesis createObsidianFiles_spec : ∀ dir w w',
  createObsidianFiles dir w = (Ok tt, w') →
  evolves (λ q, ∃ n, n ∈ configNames ∧ q = components dir ++ [n]) w w'
  ∧ ∀ n, n ∈ configNames →
         ∃ content, blob n = Some content
                    ∧ fs w' !! (components dir ++ [n])
                      = Some (Regular content).
Hypothesis createInitialFiles_spec : ∀ dir w w',
  createInitialFiles dir w = (Ok tt, w') →
  evolves (λ q, q = components dir ++ ["Welcome.md"]) w w'
  ∧ ∃ content, blob "Welcome.md" = Some content
               ∧ fs w' !! (components dir ++ ["Welcome.md"])
                 = Some (Regular content).


End LayoutBeforeRegistration.

Section RevisionsUnregistered.
Context {codec : json.Codec}.
Variable range : list (string * string) → list (string * string).
Hypothesis range_perm : ∀ l, range l ≡ₚ l.
Variable templatesFS : gmap string string.
Variable corePlugins graph workspace : string.


End RevisionsUnregistered.

(** ** Further properties of the identifier *)

(** X18.  When main.go and the revision with crypto/rand both return an
    identifier from the same answer of the device, it is the same identifier,
    and both have read the device once. *)
Theorem revisions_agree_on_the_identifier w id1 w1 id2 w2 :
  MainGo.generateVaultID w = (Ok id1, w1) →
  Embedded.generateVaultID w = (Ok id2, w2) →
  id1 = id2 ∧ w1 = w2.
Proof.
  intros H1 H2.
  pose proof (generateVaultID_record _ _ _ (or_introl H1)) as ->.
  pose proof (generateVaultID_record _ _ _ (or_intror H2)) as ->.
  split; [|done].
  apply MainGo_generateVaultID_ok in H1 as (d1 & Hr1 & _ & ->).
  apply Embedded_generateVaultID_ok in H2 as (d2 & r2 & Hr2 & Hlen & ->).
  rewrite Hr1 in Hr2. injection Hr2 as <- _.
  rewrite length_take, Nat.min_l by done.
  change (drop 8 (zeros 8)) with (@nil byte). by rewrite app_nil_r.
Qed.

(** X19.  The revision with crypto/rand returns an identifier exactly when
    the device delivers at least eight bytes; main.go returns one exactly when
    the read delivers at least one byte and reports no error. *)
Theorem identifier_returned_exactly_when w :
  ((∃ id w', Embedded.generateVaultID w = (Ok id, w'))
   ↔ ∃ delivered rerr,
       random w = Ok (delivered, rerr) ∧ (8 ≤ length delivered)%nat)
  ∧ ((∃ id w', MainGo.generateVaultID w = (Ok id, w'))
     ↔ ∃ delivered, random w = Ok (delivered, None) ∧ delivered ≠ []).
Proof.
  split; split.
  - intros (id & w' & H).
    apply Embedded_generateVaultID_ok in H as (d & r & ? & ? & _).
    by exists d, r.
  - intros (d & r & Hrnd & Hlen).
    unfold Embedded.generateVaultID, bind, wrapping, rand.Read.
    cbn [random record]. change (length (zeros 8)) with 8%nat. rewrite Hrnd.
    rewrite decide_True by done. by eexists _, _.
  - intros (id & w' & H).
    apply MainGo_generateVaultID_ok in H as (d & ? & ? & _). by exists d.
  - intros (d & Hrnd & Hne).
    unfold MainGo.generateVaultID, bind, OpenRandom, file.Read.
    rewrite Hrnd. cbn [fst snd]. change (length (zeros 8)) with 8%nat.
    destruct d as [|b d]; [done|]. by eexists _, _.
Qed.

(** X20.  Two identifiers built from reads of eight bytes or more are equal
    only if the first eight bytes read are equal. *)
Theorem equal_identifiers_equal_bytes w1 w2 id w1' w2' d1 d2 r1 r2 :
  MainGo.generateVaultID w1 = (Ok id, w1')
  ∨ Embedded.generateVaultID w1 = (Ok id, w1') →
  MainGo.generateVaultID w2 = (Ok id, w2')
  ∨ Embedded.generateVaultID w2 = (Ok id, w2') →
  random w1 = Ok (d1, r1) → (8 ≤ length d1)%nat →
  random w2 = Ok (d2, r2) → (8 ≤ length d2)%nat →
  take 8 d1 = take 8 d2.
Proof.
  intros H1 H2 Hr1 Hl1 Hr2 Hl2.
  assert (∀ w w' d r, MainGo.generateVaultID w = (Ok id, w')
                      ∨ Embedded.generateVaultID w = (Ok id, w') →
                      random w = Ok (d, r) → (8 ≤ length d)%nat →
                      unhex id = Some (take 8 d)) as Hun.
  { intros w w' d r [H|H] Hr Hl.
    - apply MainGo_generateVaultID_ok in H as (d' & Hr' & _ & ->).
      rewrite Hr in Hr'. injection Hr' as <- _.
      rewrite length_take, Nat.min_l by done.
      change (drop 8 (zeros 8)) with (@nil byte). rewrite app_nil_r.
      by destruct (Sprintf_x_spec (take 8 d)) as (_ & _ & ?).
    - apply Embedded_generateVaultID_ok in H as (d' & r' & Hr' & _ & ->).
      rewrite Hr in Hr'. injection Hr' as <- _.
      by destruct (Sprintf_x_spec (take 8 d)) as (_ & _ & ?). }
  pose proof (Hun _ _ _ _ H1 Hr1 Hl1) as U1.
  pose proof (Hun _ _ _ _ H2 Hr2 Hl2) as U2.
  congruence.
Qed.
(** ** The diagnostics of main.go *)

Lemma erases_say_then {A} level fmt args (m : L A) f :
  erases m f → erases (bindL (say level fmt args) (λ _, m)) f.
Proof.
  intros H v w. unfold bindL, say. specialize (H v w).
  by destruct (m v w) as [[r w1] l].
Qed.

Lemma erases_bind {A B} (m : L A) (k : A → L B) f g :
  erases m f → (∀ a, erases (k a) (g a)) → erases (bindL m k) (bind f g).
Proof.
  intros Hm Hk v w. unfold bindL, bind. specialize (Hm v w).
  destruct (m v w) as [[[a|e] w1] l1]; cbn [fst] in Hm; rewrite <- Hm; [|done].
  specialize (Hk a v w1). by destruct (k a v w1) as [[r w2] l2].
Qed.

Lemma erases_then_say {A} (m : L A) level fmt args f :
  erases m f →
  erases (bindL m (λ a, bindL (say level fmt (args a)) (λ _, retL a))) f.
Proof.
  intros Hm v w. unfold bindL, say, retL. specialize (Hm v w).
  by destruct (m v w) as [[[a|e] w1] l1].
Qed.

Lemma erases_verbosity {A} (k : Z → L A) f :
  (∀ v, erases (k v) f) → erases (bindL verbosity k) f.
Proof.
  intros H v w. unfold bindL, verbosity. specialize (H v v w).
  by destruct (k v v w) as [[r w1] l].
Qed.

Lemma erases_attempt {A} (m : L A) level fmt args msg f :
  erases m f → erases (attempt m level fmt args (Wrap msg)) (wrapping msg f).
Proof.
  intros Hm v w. unfold attempt, wrapping. specialize (Hm v w).
  destruct (m v w) as [[[a|e] w1] l1]; cbn [fst] in Hm; by rewrite <- Hm.
Qed.

Lemma erases_lift {A} (m : M A) : erases (lift m) m.
Proof. done. Qed.

Lemma erases_ret {A} (a : A) : erases (retL a) (ret a).
Proof. done. Qed.

Lemma says_ret {A} (a : A) : says (retL a).
Proof. intros v w. constructor. Qed.

Lemma says_fail {A} e : says (@failL A e).
Proof. intros v w. constructor. Qed.

Lemma says_lift {A} (m : M A) : says (lift m).
Proof. intros v w. constructor. Qed.

Lemma says_call {A} (m : M A) : says (call m).
Proof. intros v w. unfold call. destruct (m w). constructor. Qed.

Lemma says_pure {A} (r : result A) : says (pure r).
Proof. intros v w. constructor. Qed.

Lemma says_verbosity : says verbosity.
Proof. intros v w. constructor. Qed.

Lemma says_bind {A B} (m : L A) (k : A → L B) :
  says m → (∀ a, says (k a)) → says (bindL m k).
Proof.
  intros Hm Hk v w. unfold bindL. specialize (Hm v w).
  destruct (m v w) as [[[a|e] w1] l1]; [|done].
  specialize (Hk a v w1). destruct (k a v w1) as [[r w2] l2].
  by apply Forall_app.
Qed.

Lemma debugLog_well_formed v level fmt args :
  1 ≤ level ≤ 3 → verbs fmt = verb <$> args →
  Forall (well_formed v) (debugLog v level fmt args).
Proof.
  intros Hlevel Hverbs. unfold debugLog.
  destruct (Z.leb_spec level v); [|constructor].
  constructor; [|constructor]. exists level, fmt. cbn [format operands].
  split; [done|]. split; [done|]. split; [lia|done].
Qed.

Lemma says_say level fmt args :
  1 ≤ level ≤ 3 → verbs fmt = verb <$> args → says (say level fmt args).
Proof. intros ?? v w. by apply debugLog_well_formed. Qed.

Lemma says_attempt {A} (m : L A) level fmt args wrap :
  says m → 1 ≤ level ≤ 3 → (∀ err, verbs fmt = verb <$> args err) →
  says (attempt m level fmt args wrap).
Proof.
  intros Hm ?? v w. unfold attempt. specialize (Hm v w).
  destruct (m v w) as [[[a|e] w1] l1]; [done|].
  apply Forall_app. split; [done|]. by apply debugLog_well_formed.
Qed.

Ltac solve_says :=
  repeat first
    [ apply says_ret | apply says_fail | apply says_lift | apply says_call
    | apply says_pure | apply says_verbosity
    | apply says_say; [lia|reflexivity]
    | apply says_attempt; [|lia|intros; reflexivity]
    | apply says_bind; [|intros]
    | match goal with
      | |- says (match ?x with _ => _ end) => destruct x
      | |- says (if ?b then _ else _) => destruct b
      end ].

Lemma generateVaultID_says : says Verbose.Main.generateVaultID.
Proof.
  unfold Verbose.Main.generateVaultID. solve_says.
Qed.

Lemma generateVaultID_erases :
  erases Verbose.Main.generateVaultID MainGo.generateVaultID.
Proof.
  intros v w.
  unfold Verbose.Main.generateVaultID, MainGo.generateVaultID, bindL, bind, say,
    call, OpenRandom, retL, failL, fail, ret.
  destruct (random w) as [file|err]; [|done].
  by destruct (file.Read file (zeros 8)) as [[bytes n] [err|]].
Qed.

Section FilesLogged.
Variable range : list (string * string) → list (string * string).
Variable corePlugins graph workspace : string.

Lemma writeFiles_says writing wrote dir entries :
  verbs writing = [verb (AString EmptyString)] →
  verbs wrote = [verb (AString EmptyString)] →
  says (Verbose.Main.writeFiles writing wrote dir entries).
Proof.
  intros H1 H2. induction entries as [|[n x] rest IH]; cbn [Verbose.Main.writeFiles].
  - solve_says.
  - apply says_bind; [by apply says_say; [lia|]|intros _].
    apply says_bind; [solve_says|intros _].
    apply says_bind; [by apply says_say; [lia|]|intros _]. done.
Qed.

Lemma writeFiles_erases writing wrote dir entries :
  erases (Verbose.Main.writeFiles writing wrote dir entries)
    (MainGo.writeFiles dir entries).
Proof.
  induction entries as [|[n x] rest IH];
    cbn [Verbose.Main.writeFiles MainGo.writeFiles]; [done|].
  apply erases_say_then. apply erases_bind.
  - apply erases_attempt, erases_lift.
  - intros _. by apply erases_say_then.
Qed.

Lemma createObsidianFiles_says dir :
  says (Verbose.Main.createObsidianFiles range corePlugins graph workspace dir).
Proof.
  unfold Verbose.Main.createObsidianFiles. solve_says. by apply writeFiles_says.
Qed.

Lemma createInitialFiles_says dir :
  says (Verbose.Main.createInitialFiles range dir).
Proof.
  unfold Verbose.Main.createInitialFiles. solve_says. by apply writeFiles_says.
Qed.

Lemma createObsidianFiles_erases dir :
  erases (Verbose.Main.createObsidianFiles range corePlugins graph workspace dir)
    (MainGo.createObsidianFiles range corePlugins graph workspace dir).
Proof.
  unfold Verbose.Main.createObsidianFiles, MainGo.createObsidianFiles.
  do 2 apply erases_say_then. apply writeFiles_erases.
Qed.

Lemma createInitialFiles_erases dir :
  erases (Verbose.Main.createInitialFiles range dir)
    (MainGo.createInitialFiles range dir).
Proof.
  unfold Verbose.Main.createInitialFiles, MainGo.createInitialFiles.
  do 2 apply erases_say_then. apply writeFiles_erases.
Qed.

End FilesLogged.

Lemma Embed_generateVaultID_says : says Verbose.Embed.generateVaultID.
Proof. unfold Verbose.Embed.generateVaultID. solve_says. Qed.

Lemma Embed_generateVaultID_erases :
  erases Verbose.Embed.generateVaultID Embedded.generateVaultID.
Proof.
  unfold Verbose.Embed.generateVaultID, Embedded.generateVaultID.
  apply erases_say_then. apply erases_bind.
  - apply erases_attempt, erases_lift.
  - intros r. by apply erases_say_then.
Qed.

Section TemplatesLogged.
Variable range : list (string * string) → list (string * string).
Variable templatesFS : gmap string string.

Lemma loadEmbeddedTemplate_says x :
  says (Verbose.Embed.loadEmbeddedTemplate templatesFS x).
Proof. unfold Verbose.Embed.loadEmbeddedTemplate. solve_says. Qed.

Lemma loadEmbeddedTemplate_erases x :
  erases (Verbose.Embed.loadEmbeddedTemplate templatesFS x)
    (Embedded.loadEmbeddedTemplate templatesFS x).
Proof.
  unfold Verbose.Embed.loadEmbeddedTemplate, Embedded.loadEmbeddedTemplate.
  apply erases_say_then.
  apply (erases_then_say _ 3 _ (λ _, [AString x])).
  apply erases_attempt, erases_lift.
Qed.

Lemma writeTemplates_says writing wrote dir entries :
  verbs writing = [verb (AString EmptyString)] →
  verbs wrote = [verb (AString EmptyString)] →
  says (Verbose.Embed.writeTemplates templatesFS writing wrote dir entries).
Proof.
  intros H1 H2.
  induction entries as [|[n x] rest IH]; cbn [Verbose.Embed.writeTemplates].
  - solve_says.
  - apply says_bind; [solve_says|intros _].
    apply says_bind; [apply loadEmbeddedTemplate_says|intros content].
    apply says_bind; [by apply says_say; [lia|]|intros _].
    apply says_bind; [solve_says|intros _].
    apply says_bind; [by apply says_say; [lia|]|intros _]. done.
Qed.

Lemma writeTemplates_erases writing wrote dir entries :
  erases (Verbose.Embed.writeTemplates templatesFS writing wrote dir entries)
    (Embedded.writeTemplates templatesFS dir entries).
Proof.
  induction entries as [|[n x] rest IH];
    cbn [Verbose.Embed.writeTemplates Embedded.writeTemplates]; [done|].
  apply erases_say_then. apply erases_bind.
  { apply loadEmbeddedTemplate_erases. }
  intros content. apply erases_say_then. apply erases_bind.
  - apply erases_attempt, erases_lift.
  - intros _. by apply erases_say_then.
Qed.

Lemma Embed_createObsidianFiles_says dir :
  says (Verbose.Embed.createObsidianFiles range templatesFS dir).
Proof.
  unfold Verbose.Embed.createObsidianFiles. solve_says.
  by apply writeTemplates_says.
Qed.

Lemma Embed_createInitialFiles_says dir :
  says (Verbose.Embed.createInitialFiles range templatesFS dir).
Proof.
  unfold Verbose.Embed.createInitialFiles. solve_says.
  by apply writeTemplates_says.
Qed.

Lemma Embed_createObsidianFiles_erases dir :
  erases (Verbose.Embed.createObsidianFiles range templatesFS dir)
    (Embedded.createObsidianFiles range templatesFS dir).
Proof.
  unfold Verbose.Embed.createObsidianFiles, Embedded.createObsidianFiles.
  do 2 apply erases_say_then. apply writeTemplates_erases.
Qed.

Lemma Embed_createInitialFiles_erases dir :
  erases (Verbose.Embed.createInitialFiles range templatesFS dir)
    (Embedded.createInitialFiles range templatesFS dir).
Proof.
  unfold Verbose.Embed.createInitialFiles, Embedded.createInitialFiles.
  do 2 apply erases_say_then. apply writeTemplates_erases.
Qed.

End TemplatesLogged.

Section RegistryLogged.
Context {codec : json.Codec}.

Lemma readConfig_says path : says (Verbose.readConfig path).
Proof.
  unfold Verbose.readConfig. solve_says.
Qed.

Lemma initMaps_says config : says (Verbose.initMaps config).
Proof.
  unfold Verbose.initMaps. solve_says.
Qed.

Lemma updateGlobalConfig_says vaultPath vaultID :
  says (Verbose.updateGlobalConfig vaultPath vaultID).
Proof.
  unfold Verbose.updateGlobalConfig. solve_says.
Qed.

Lemma readConfig_erases path : erases (Verbose.readConfig path) (readConfig path).
Proof.
  intros v w.
  unfold Verbose.readConfig, readConfig, bindL, call, say, attempt, pure,
    retL, failL.
  destruct (os.ReadFile path w) as [[data|err] w1].
  - by destruct (json.Unmarshal data).
  - by destruct (negb (IsNotExist err)).
Qed.

Lemma initMaps_erases config :
  erases (Verbose.initMaps config) (ret (initMaps config)).
Proof. intros v w. by destruct config as [[vs|] [os|]]. Qed.

Lemma updateGlobalConfig_erases vaultPath vaultID :
  erases (Verbose.updateGlobalConfig vaultPath vaultID)
    (updateGlobalConfig vaultPath vaultID).
Proof.
  unfold Verbose.updateGlobalConfig, updateGlobalConfig.
  apply erases_say_then. apply erases_bind.
  { apply erases_attempt, erases_lift. }
  intros dir. do 3 apply erases_say_then. apply erases_bind.
  { apply erases_attempt, erases_lift. }
  intros _. do 2 apply erases_say_then. apply erases_bind.
  { apply readConfig_erases. }
  intros config v w. unfold bindL at 1.
  pose proof (initMaps_erases config v w) as Hi.
  destruct (Verbose.initMaps config v w) as [[r w1] l1].
  cbn [fst] in Hi. injection Hi as -> ->.
  enough (∀ c, erases
                 (let+ _ := say 2 "Adding new vault to config: %s -> %s"
                              [AString vaultID; AString vaultPath] in
                  let+ _ := say 3 "Vault added to config" [] in
                  let+ _ := say 2 "Marshaling updated config to JSON" [] in
                  let+ data :=
                    attempt (pure (json.MarshalIndent c))
                      2 "Failed to marshal config: %v" (λ err, [AError err])
                      (Wrap "failed to marshal config") in
                  let+ _ := say 3 "Config marshaled successfully" [] in
                  let+ _ := say 2 "Writing updated config to: %s"
                              [AString (registryFile dir)] in
                  let+ _ :=
                    attempt (lift (os.WriteFile (registryFile dir) data))
                      2 "Failed to write config file: %v"
                      (λ err, [AError err])
                      (Wrap "failed to write config file") in
                  let+ _ := say 3 "Global config file written successfully"
                              [] in
                  retL tt)
                 (let* data := wrapping "failed to marshal config"
                                 (λ w0, (json.MarshalIndent c, w0)) in
                  let* _ := wrapping "failed to write config file"
                              (os.WriteFile (registryFile dir) data) in
                  ret tt)) as Hrest.
  { specialize (Hrest (setVault (initMaps config) vaultID
                         (mkVaultConfig vaultPath 1757173820641 true)) v w).
    destruct (bindL _ _ v w) as [[r2 w2] l2]. exact Hrest. }
  intros c. do 3 apply erases_say_then. apply erases_bind.
  { apply (erases_attempt (pure (json.MarshalIndent c))). done. }
  intros data. do 2 apply erases_say_then. apply erases_bind.
  { apply erases_attempt, erases_lift. }
  intros _. by apply erases_say_then.
Qed.

End RegistryLogged.

Section OrchestratorLogged.
Context {codec : json.Codec}.
Variable generateVaultID : L string.
Variable createObsidianFiles createInitialFiles : string → L unit.
Variable generateVaultID' : M string.
Variable createObsidianFiles' createInitialFiles' : string → M unit.

Lemma generateVault_says vaultPath :
  says generateVaultID →
  (∀ dir, says (createObsidianFiles dir)) →
  (∀ dir, says (createInitialFiles dir)) →
  says (Verbose.generateVault generateVaultID createObsidianFiles
          createInitialFiles vaultPath).
Proof.
  intros H1 H2 H3. unfold Verbose.generateVault.
  solve_says; first [apply H1 | apply H2 | apply H3].
Qed.

Lemma generateVault_erases vaultPath :
  erases generateVaultID generateVaultID' →
  (∀ dir, erases (createObsidianFiles dir) (createObsidianFiles' dir)) →
  (∀ dir, erases (createInitialFiles dir) (createInitialFiles' dir)) →
  erases (Verbose.generateVault generateVaultID createObsidianFiles
            createInitialFiles vaultPath)
    (generateVault generateVaultID' createObsidianFiles' createInitialFiles'
       vaultPath).
Proof.
  intros H1 H2 H3. unfold Verbose.generateVault, generateVault.
  apply erases_say_then. apply erases_verbosity. intros v0.
  apply erases_say_then.
  apply erases_say_then. apply erases_bind.
  { apply erases_attempt, erases_lift. }
  intros absPath. do 2 apply erases_say_then. apply erases_bind.
  { apply erases_attempt, erases_lift. }
  intros _. do 2 apply erases_say_then. apply erases_bind.
  { apply erases_attempt, erases_lift. }
  intros _. do 2 apply erases_say_then. apply erases_bind.
  { apply erases_attempt, H1. }
  intros vaultID. do 2 apply erases_say_then. apply erases_bind.
  { apply erases_attempt, H2. }
  intros _. do 2 apply erases_say_then. apply erases_bind.
  { apply erases_attempt, H3. }
  intros _. do 2 apply erases_say_then. apply erases_bind.
  { apply erases_attempt, updateGlobalConfig_erases. }
  intros _. apply erases_say_then. apply erases_bind.
  { apply erases_lift. }
  intros _. apply erases_bind.
  { apply erases_lift. }
  intros _. by apply erases_say_then.
Qed.

End OrchestratorLogged.

Section DiagnosticsOfARun.
Context {codec : json.Codec}.
Variable range : list (string * string) → list (string * string).
Variable corePlugins graph workspace : string.
Variable templatesFS : gmap string string.

Lemma Main_generateVault_says vaultPath :
  says (Verbose.Main.generateVault range corePlugins graph workspace
          vaultPath).
Proof.
  apply generateVault_says;
    [apply generateVaultID_says|apply createObsidianFiles_says
    |apply createInitialFiles_says].
Qed.

Lemma Embed_generateVault_says vaultPath :
  says (Verbose.Embed.generateVault range templatesFS vaultPath).
Proof.
  apply generateVault_says;
    [apply Embed_generateVaultID_says|apply Embed_createObsidianFiles_says
    |apply Embed_createInitialFiles_says].
Qed.

(** X21.  The diagnostics change nothing.  At every verbosity each function
    of main.go, and each function of the revision with embedded templates,
    returns what the same function without its calls of debugLog returns and
    leaves the world that one leaves. *)
Theorem diagnostics_change_nothing :
  (erases Verbose.Main.generateVaultID MainGo.generateVaultID
   ∧ (∀ dir,
        erases (Verbose.Main.createObsidianFiles range corePlugins graph
                  workspace dir)
          (MainGo.createObsidianFiles range corePlugins graph workspace dir))
   ∧ (∀ dir,
        erases (Verbose.Main.createInitialFiles range dir)
          (MainGo.createInitialFiles range dir))
   ∧ (∀ vaultPath vaultID,
        erases (Verbose.updateGlobalConfig vaultPath vaultID)
          (MainGo.updateGlobalConfig vaultPath vaultID))
   ∧ ∀ vaultPath,
       erases (Verbose.Main.generateVault range corePlugins graph workspace
                 vaultPath)
         (MainGo.generateVault range corePlugins graph workspace vaultPath))
  ∧ (erases Verbose.Embed.generateVaultID Embedded.generateVaultID
     ∧ (∀ filename,
          erases (Verbose.Embed.loadEmbeddedTemplate templatesFS filename)
            (Embedded.loadEmbeddedTemplate templatesFS filename))
     ∧ (∀ dir,
          erases (Verbose.Embed.createObsidianFiles range templatesFS dir)
            (Embedded.createObsidianFiles range templatesFS dir))
     ∧ (∀ dir,
          erases (Verbose.Embed.createInitialFiles range templatesFS dir)
            (Embedded.createInitialFiles range templatesFS dir))
     ∧ (∀ vaultPath vaultID,
          erases (Verbose.updateGlobalConfig vaultPath vaultID)
            (Embedded.updateGlobalConfig vaultPath vaultID))
     ∧ ∀ vaultPath,
         erases (Verbose.Embed.generateVault range templatesFS vaultPath)
           (Embedded.generateVault range templatesFS vaultPath)).
Proof.
  split.
  - split; [apply generateVaultID_erases|].
    split; [apply createObsidianFiles_erases|].
    split; [apply createInitialFiles_erases|].
    split; [apply updateGlobalConfig_erases|].
    intros vaultPath.
    apply generateVault_erases;
      [apply generateVaultID_erases|apply createObsidianFiles_erases
      |apply createInitialFiles_erases].
  - split; [apply Embed_generateVaultID_erases|].
    split; [apply loadEmbeddedTemplate_erases|].
    split; [apply Embed_createObsidianFiles_erases|].
    split; [apply Embed_createInitialFiles_erases|].
    split; [apply updateGlobalConfig_erases|].
    intros vaultPath.
    apply generateVault_erases;
      [apply Embed_generateVaultID_erases
      |apply Embed_createObsidianFiles_erases
      |apply Embed_createInitialFiles_erases].
Qed.

(** X22.  Every line a run logs, in main.go and in the revision with
    embedded templates, carries the tag of a level from 1 to 3 that is not
    above the verbosity, and its format has one verb for each operand: s for a
    string, d for a number, v for an error. *)
Theorem diagnostics_are_well_formed vaultPath v w :
  Forall (well_formed v)
    (Verbose.Main.generateVault range corePlugins graph workspace vaultPath
       v w).2
  ∧ Forall (well_formed v)
      (Verbose.Embed.generateVault range templatesFS vaultPath v w).2.
Proof.
  split; [apply Main_generateVault_says|apply Embed_generateVault_says].
Qed.

(** X23.  Without the verbose flag a run logs nothing, in main.go and in the
    revision with embedded templates. *)
Theorem no_diagnostics_without_the_flag vaultPath v w :
  v ≤ 0 →
  (Verbose.Main.generateVault range corePlugins graph workspace vaultPath
     v w).2 = []
  ∧ (Verbose.Embed.generateVault range templatesFS vaultPath v w).2 = [].
Proof.
  intros Hv.
  assert (∀ l, Forall (well_formed v) l → l = []) as Hnone.
  { intros [|l rest] Hall; [done|].
    apply Forall_cons in Hall as [(level & _ & _ & ? & ? & _) _]. lia. }
  split; apply Hnone;
    [apply Main_generateVault_says|apply Embed_generateVault_says].
Qed.

End DiagnosticsOfARun.

(** ** The last line of the log *)

Lemma closes_bind {A} (m : L A) (k : A → L unit) v w a w1 l1 :
  m v w = (Ok a, w1, l1) → closes (k a) v w1 → closes (bindL m k) v w.
Proof.
  unfold closes, bindL. intros -> (l & Hlast & Hline).
  destruct (k a v w1) as [[r w2] l2]. exists l. split; [|done].
  cbn [snd] in *. by rewrite last_app, Hlast.
Qed.

Lemma closes_say level fmt args (k : unit → L unit) v w :
  closes (k tt) v w → closes (bindL (say level fmt args) k) v w.
Proof. intros Hk. eapply closes_bind; [reflexivity|done]. Qed.

Lemma closes_verbosity (k : Z → L unit) v w :
  closes (k v) v w → closes (bindL verbosity k) v w.
Proof. intros Hk. eapply closes_bind; [reflexivity|done]. Qed.

Lemma closes_lift {A} (m : M A) (k : A → L unit) v w a w1 :
  m w = (Ok a, w1) → closes (k a) v w1 → closes (bindL (lift m) k) v w.
Proof.
  intros Hm. apply closes_bind with (l1 := []). unfold lift. by rewrite Hm.
Qed.

(** A step of the run: its failure is logged at level 1 in the words of the
    error returned. *)
Lemma closes_attempt {A} what (m : L A) (k : A → L unit) v w :
  1 ≤ v →
  (∀ a w1, closes (k a) v w1) →
  closes (bindL (attempt m 1 ("Failed to " +:+ what +:+ ": %v")
                   (λ err, [AError err]) (Wrap ("failed to " +:+ what))) k)
    v w.
Proof.
  intros Hv Hk. destruct (m v w) as [[[a|e] w1] l1] eqn:Hm.
  - apply closes_bind with (a := a) (w1 := w1) (l1 := l1); [|done].
    unfold attempt. by rewrite Hm.
  - unfold closes, bindL, attempt, debugLog. rewrite Hm.
    rewrite (proj2 (Z.leb_le 1 v)) by done. eexists. split.
    + cbn [snd]. apply last_snoc.
    + cbn [fst]. by exists what, e.
Qed.

Section OrchestratorCloses.
Context {codec : json.Codec}.
Variable generateVaultID : L string.
Variable createObsidianFiles createInitialFiles : string → L unit.

Lemma generateVault_closes vaultPath v w :
  1 ≤ v →
  closes (Verbose.generateVault generateVaultID createObsidianFiles
            createInitialFiles vaultPath) v w.
Proof.
  intros Hv. unfold Verbose.generateVault.
  apply closes_say, closes_verbosity. do 2 apply closes_say.
  apply (closes_attempt "get absolute path"); [done|]. intros absPath w1.
  do 2 apply closes_say.
  apply (closes_attempt "create vault directory"); [done|]. intros _ w2.
  do 2 apply closes_say.
  apply (closes_attempt "create .obsidian directory"); [done|]. intros _ w3.
  do 2 apply closes_say.
  apply (closes_attempt "generate vault ID"); [done|]. intros vaultID w4.
  do 2 apply closes_say.
  apply (closes_attempt "create obsidian config files"); [done|].
  intros _ w5. do 2 apply closes_say.
  apply (closes_attempt "create initial files"); [done|]. intros _ w6.
  do 2 apply closes_say.
  apply (closes_attempt "update global config"); [done|]. intros _ w7.
  apply closes_say.
  eapply closes_lift; [reflexivity|]. eapply closes_lift; [reflexivity|].
  unfold closes, bindL, say, retL, debugLog.
  rewrite (proj2 (Z.leb_le 1 v)) by done. by eexists.
Qed.

End OrchestratorCloses.

Section RevisionsClose.
Context {codec : json.Codec}.
Variable range : list (string * string) → list (string * string).
Variable corePlugins graph workspace : string.
Variable templatesFS : gmap string string.

(** X26.  With the verbose flag given at least once, the last line of the
    log tells how the run ended: after a success it is the line Vault
    generation completed successfully, after a failure it is a line of level
    1 that names the step that failed, in the words of the error returned,
    with the error below it as its operand. *)
Theorem last_line_tells_the_outcome vaultPath v w :
  1 ≤ v →
  closes (Verbose.Main.generateVault range corePlugins graph workspace
            vaultPath) v w
  ∧ closes (Verbose.Embed.generateVault range templatesFS vaultPath) v w.
Proof.
  intros Hv. split; by apply generateVault_closes.
Qed.

End RevisionsClose.

(** ** The theorems above, at work *)

Lemma prior_registry_file {codec : json.Codec} w dir d prior :
  fs w !! components (registryFile dir) = Some (Regular d) →
  components (registryFile dir) ∉ unreadable w →
  json.Unmarshal d = Ok prior →
  prior_registry w dir prior.
Proof. unfold prior_registry. by intros -> ? ?. Qed.


Lemma registration_failure_taxonomy_witness :
  let w := Example.corrupt in
  let e := Wrap "failed to parse existing config" (Base ErrSyntax) in
  let w' := (updateGlobalConfig (codec := RefJSON.codec)
               "/tmp/vault" "3f00a71c9e52d408" w).2 in
  (∃ e0, e = Wrap "failed to get user config directory" e0
         ∧ configDir w = Err e0 ∧ fs w' = fs w)
  ∨ ∃ dir,
      configDir w = Ok dir
      ∧ ((∃ e0, e = Wrap "failed to create obsidian config directory" e0
                ∧ ¬ creatable w (components (filepath.Dir (registryFile dir)))
                ∧ only_directories_added w w')
         ∨ (e = Wrap "failed to read config file" (Base EISDIR)
            ∧ fs w !! components (registryFile dir) = Some Directory
            ∧ only_directories_added w w')
         ∨ (∃ d, e = Wrap "failed to read config file" (Base EACCES)
                 ∧ fs w !! components (registryFile dir) = Some (Regular d)
                 ∧ components (registryFile dir) ∈ unreadable w
                 ∧ only_directories_added w w')
         ∨ (∃ d e0, e = Wrap "failed to parse existing config" e0
                    ∧ fs w !! components (registryFile dir)
                      = Some (Regular d)
                    ∧ json.Unmarshal (Codec := RefJSON.codec) d = Err e0
                    ∧ only_directories_added w w')
         ∨ (∃ prior e0, e = Wrap "failed to marshal config" e0
                        ∧ prior_registry (codec := RefJSON.codec) w dir prior
                        ∧ json.MarshalIndent (Codec := RefJSON.codec)
                            (setVault (initMaps prior) "3f00a71c9e52d408"
                               (mkVaultConfig "/tmp/vault" 1757173820641
                                  true))
                          = Err e0
                        ∧ only_directories_added w w')
         ∨ (∃ e0, e = Wrap "failed to write config file" e0)).
Proof.
  intros w e w'.
  apply (registration_failure_taxonomy (codec := RefJSON.codec)
           "/tmp/vault" "3f00a71c9e52d408" w e w').
  vm_compute. reflexivity.
Defined.

Lemma unreadable_registry_is_not_reset_witness :
  ∃ c w', updateGlobalConfig (codec := RefJSON.codec)
            "/tmp/vault" "3f00a71c9e52d408" Scenario.locked
          = (Err (Wrap "failed to read config file" (Base c)), w')
          ∧ fs w' = fs Scenario.locked.
Proof.
  apply (unreadable_registry_is_not_reset (codec := RefJSON.codec)
           "/tmp/vault" "3f00a71c9e52d408" Scenario.locked
           "/home/u/.config").
  - reflexivity.
  - vm_compute. reflexivity.
  - right. split.
    + eexists. vm_compute. reflexivity.
    + cbn [unreadable Scenario.locked Scenario.world_with].
      apply elem_of_singleton_2. reflexivity.
Defined.

Lemma config_directory_blocked_by_a_file_witness :
  ∃ w', updateGlobalConfig (codec := RefJSON.codec)
          "/tmp/vault" "3f00a71c9e52d408" Scenario.blocked
        = (Err (Wrap "failed to create obsidian config directory"
                  (Base ENOTDIR)), w')
        ∧ fs w' = fs Scenario.blocked.
Proof.
  apply (config_directory_blocked_by_a_file (codec := RefJSON.codec)
           "/tmp/vault" "3f00a71c9e52d408" Scenario.blocked
           "/home/u/.config" "notes").
  - reflexivity.
  - vm_compute. reflexivity.
Defined.

Lemma read_only_registry_is_kept_witness :
  ∃ w', updateGlobalConfig (codec := RefJSON.codec)
          "/tmp/vault" "3f00a71c9e52d408" Scenario.sealed
        = (Err (Wrap "failed to write config file" (Base EACCES)), w')
        ∧ fs w' = fs Scenario.sealed.
Proof.
  apply (read_only_registry_is_kept (codec := RefJSON.codec)
           "/tmp/vault" "3f00a71c9e52d408" Scenario.sealed
           "/home/u/.config" Example.known
           (RefJSON.encode
              (setVault (initMaps Example.known) "3f00a71c9e52d408"
                 (mkVaultConfig "/tmp/vault" 1757173820641 true)))).
  - reflexivity.
  - vm_compute. reflexivity.
  - apply (prior_registry_file (codec := RefJSON.codec) _ _
             (RefJSON.encode Example.known)).
    + vm_compute. reflexivity.
    + apply not_elem_of_empty.
    + apply RefJSONFacts.decode_encode.
  - reflexivity.
  - cbn [readonly Scenario.sealed Scenario.world_with].
    apply elem_of_singleton_2. reflexivity.
Defined.



Lemma repeated_registration_changes_nothing_witness :
  let w1 := (updateGlobalConfig (codec := RefJSON.codec)
               "/tmp/vault" "3f00a71c9e52d408" Example.populated).2 in
  ∃ w2, updateGlobalConfig (codec := RefJSON.codec)
          "/tmp/vault" "3f00a71c9e52d408" w1 = (Ok tt, w2)
        ∧ fs w2 = fs w1.
Proof.
  intros w1.
  apply (repeated_registration_changes_nothing (codec := RefJSON.codec)
           (lossless := RefJSON_lossless)
           "/tmp/vault" "3f00a71c9e52d408" Example.populated w1
           "/home/u/.config").
  - vm_compute. reflexivity.
  - reflexivity.
  - apply not_elem_of_empty.
Defined.


Lemma missing_template_stops_the_writing_witness :
  let pre := [ ("app.json", "templates/app.json");
               ("appearance.json", "templates/appearance.json");
               ("core-plugins.json", "templates/core-plugins.json") ] in
  ∃ w', Embedded.createObsidianFiles Example.in_order Scenario.incomplete
          "/tmp/vault/.obsidian" Scenario.prepared
        = (Err (Wrap ("failed to read embedded template file "
                      +:+ "templates/graph.json") (Base ENOENT)), w')
        ∧ (∀ n x, (n, x) ∈ pre →
                  ∃ content, Scenario.incomplete !! x = Some content
                             ∧ fs w' !! (components "/tmp/vault/.obsidian"
                                         ++ [n])
                               = Some (Regular content))
        ∧ ∀ q, (∀ n, n ∈ pre.*1 →
                     q ≠ components "/tmp/vault/.obsidian" ++ [n]) →
               fs w' !! q = fs Scenario.prepared !! q.
Proof.
  intros pre.
  apply (missing_template_stops_the_writing Example.in_order
           (λ l, reflexivity l) Scenario.incomplete
           "/tmp/vault/.obsidian" Scenario.prepared pre
           "graph.json" "templates/graph.json"
           [("workspace.json", "templates/workspace.json")]).
  - reflexivity.
  - vm_compute. reflexivity.
  - intros n x Hin.
    repeat (apply elem_of_cons in Hin as [[= -> ->]|Hin];
            [eexists; vm_compute; reflexivity|]).
    by apply elem_of_nil in Hin.
  - vm_compute. reflexivity.
  - intros n Hin. simpl in Hin.
    repeat (apply elem_of_cons in Hin as [->|Hin];
            [split; [vm_compute; discriminate|apply not_elem_of_empty]|]).
    by apply elem_of_nil in Hin.
Defined.

Lemma write_failure_names_the_file_witness :
  let pre := [ ("app.json", "{}"); ("appearance.json", "{}") ] in
  ∃ w', MainGo.createObsidianFiles Example.in_order
          "{ plugins }" "{ graph }" "{ workspace }"
          "/tmp/vault/.obsidian" Scenario.guarded
        = (Err (Wrap ("failed to write " +:+ "core-plugins.json")
                  (Base EACCES)), w')
        ∧ (∀ n x, (n, x) ∈ pre →
                  fs w' !! (components "/tmp/vault/.obsidian" ++ [n])
                  = Some (Regular x))
        ∧ ∀ q, (∀ n, n ∈ pre.*1 →
                     q ≠ components "/tmp/vault/.obsidian" ++ [n]) →
               fs w' !! q = fs Scenario.guarded !! q.
Proof.
  intros pre.
  apply (write_failure_names_the_file Example.in_order
           (λ l, reflexivity l) "{ plugins }" "{ graph }" "{ workspace }"
           "/tmp/vault/.obsidian" Scenario.guarded pre
           "core-plugins.json" "{ plugins }"
           [("graph.json", "{ graph }"); ("workspace.json", "{ workspace }")]
           EACCES).
  - reflexivity.
  - vm_compute. reflexivity.
  - intros n Hin. simpl in Hin.
    repeat (apply elem_of_cons in Hin as [->|Hin];
            [split; [vm_compute; discriminate
                    |cbn [readonly Scenario.guarded Scenario.world_with];
                     intros [=]%elem_of_singleton_1]|]).
    by apply elem_of_nil in Hin.
  - right. split; [vm_compute; discriminate|]. split; [|done].
    cbn [readonly Scenario.guarded Scenario.world_with].
    apply elem_of_singleton_2. reflexivity.
Defined.

Lemma files_written_exactly_when_witness :
  let dir := "/tmp/vault/.obsidian" in
  let w := Scenario.prepared in
  ((∃ w', Embedded.createObsidianFiles Example.in_order Example.templates
            dir w = (Ok tt, w'))
   ↔ stat w (components dir) = Some Directory
     ∧ ∀ n, n ∈ configNames →
            writable w (components dir) n
            ∧ is_Some (embedded Example.templates n))
  ∧ ((∃ w', Embedded.createInitialFiles Example.in_order Example.templates
              dir w = (Ok tt, w'))
     ↔ stat w (components dir) = Some Directory
       ∧ writable w (components dir) "Welcome.md"
       ∧ is_Some (embedded Example.templates "Welcome.md"))
  ∧ ((∃ w', MainGo.createObsidianFiles Example.in_order
              "{ plugins }" "{ graph }" "{ workspace }" dir w = (Ok tt, w'))
     ↔ stat w (components dir) = Some Directory
       ∧ ∀ n, n ∈ configNames → writable w (components dir) n)
  ∧ ((∃ w', MainGo.createInitialFiles Example.in_order dir w = (Ok tt, w'))
     ↔ stat w (components dir) = Some Directory
       ∧ writable w (components dir) "Welcome.md").
Proof.
  intros dir w.
  apply (files_written_exactly_when Example.in_order (λ l, reflexivity l)
           Example.templates "{ plugins }" "{ graph }" "{ workspace }"
           dir w).
Defined.

Lemma iteration_order_is_immaterial_witness :
  let w := Scenario.prepared in
  let dir := "/tmp/vault/.obsidian" in
  let w1 := (Embedded.createObsidianFiles Example.in_order Example.templates
               dir w).2 in
  ∃ w2, Embedded.createObsidianFiles Scenario.backwards Example.templates
          dir w = (Ok tt, w2)
        ∧ fs w2 = fs w1.
Proof.
  intros w dir w1.
  refine (proj1 (iteration_order_is_immaterial Example.in_order
                   Scenario.backwards Example.templates
                   "{ plugins }" "{ graph }" "{ workspace }" dir w w1
                   (λ l, reflexivity l) reverse_Permutation) _).
  vm_compute. reflexivity.
Defined.



Lemma failed_run_is_silent_witness :
  let w := Example.blind in
  let e := Wrap "failed to generate vault ID" (Base ENOENT) in
  let w' := (MainGo.generateVault (codec := RefJSON.codec) Example.in_order
               "{ plugins }" "{ graph }" "{ workspace }" "/tmp/vault" w).2 in
  appends (λ ev, is_print ev = false) w w'
  ∧ ((∀ e0, e ≠ Wrap "failed to update global config" e0) →
     appends (λ ev, consults_registry ev = false) w w').
Proof.
  intros w e w'.
  apply (failed_run_is_silent (codec := RefJSON.codec)
           Example.in_order Example.templates
           "{ plugins }" "{ graph }" "{ workspace }" "/tmp/vault" w e w').
  right. vm_compute. reflexivity.
Defined.





Lemma revisions_agree_on_the_identifier_witness :
  "3f00a71c9e52d408" = "3f00a71c9e52d408"
  ∧ record EvRandom Example.clean = record EvRandom Example.clean.
Proof.
  apply (revisions_agree_on_the_identifier Example.clean
           "3f00a71c9e52d408" (record EvRandom Example.clean)
           "3f00a71c9e52d408" (record EvRandom Example.clean)).
  - reflexivity.
  - reflexivity.
Defined.

Lemma equal_identifiers_equal_bytes_witness :
  take 8 Example.entropy = take 8 (Example.entropy ++ [xff; x00]).
Proof.
  apply (equal_identifiers_equal_bytes
           Example.clean
           (Example.world Example.bare
              (Ok (Example.entropy ++ [xff; x00], None)))
           "3f00a71c9e52d408"
           (record EvRandom Example.clean)
           (record EvRandom
              (Example.world Example.bare
                 (Ok (Example.entropy ++ [xff; x00], None))))
           Example.entropy (Example.entropy ++ [xff; x00]) None None).
  - left. reflexivity.
  - right. reflexivity.
  - reflexivity.
  - simpl. lia.
  - reflexivity.
  - simpl. lia.
Defined.

Lemma no_diagnostics_without_the_flag_witness :
  (Verbose.Main.generateVault (codec := RefJSON.codec) Example.in_order
     "{ plugins }" "{ graph }" "{ workspace }" "/tmp/vault"
     0 Example.clean).2 = []
  ∧ (Verbose.Embed.generateVault (codec := RefJSON.codec) Example.in_order
       Example.templates "/tmp/vault" 0 Example.clean).2 = [].
Proof.
  apply (no_diagnostics_without_the_flag (codec := RefJSON.codec)
           Example.in_order "{ plugins }" "{ graph }" "{ workspace }"
           Example.templates "/tmp/vault" 0 Example.clean).
  lia.
Defined.


Lemma vault_path_blocked_by_a_file_witness :
  let w := Scenario.blocked in
  let e := Wrap "failed to create vault directory" (Base ENOTDIR) in
  ∃ w', Embedded.generateVault (codec := RefJSON.codec) Example.in_order
          Example.templates "/home/u/.config/obsidian/vault" w = (Err e, w')
        ∧ MainGo.generateVault (codec := RefJSON.codec) Example.in_order
            "{ plugins }" "{ graph }" "{ workspace }"
            "/home/u/.config/obsidian/vault" w = (Err e, w')
        ∧ fs w' = fs w
        ∧ trace w' = trace w ++ [EvAbs "/home/u/.config/obsidian/vault";
                                 EvMkdirAll "/home/u/.config/obsidian/vault"].
Proof.
  intros w.
  apply (vault_path_blocked_by_a_file (codec := RefJSON.codec)
           Example.in_order Example.templates
           "{ plugins }" "{ graph }" "{ workspace }"
           "/home/u/.config/obsidian/vault" w
           "/home/u/.config/obsidian/vault"
           ["home"; "u"; ".config"; "obsidian"] "notes" ["vault"]).
  - reflexivity.
  - reflexivity.
  - vm_compute. reflexivity.
  - intros j Hj [k Hk]. destruct j as [|x [|y j]]; [done| |discriminate Hk].
    injection Hk as <-. vm_compute. reflexivity.
Defined.

Lemma last_line_tells_the_outcome_witness :
  closes (Verbose.Main.generateVault (codec := RefJSON.codec)
            Example.in_order "{ plugins }" "{ graph }" "{ workspace }"
            "/tmp/vault") 1 Example.blind
  ∧ closes (Verbose.Embed.generateVault (codec := RefJSON.codec)
              Example.in_order Example.templates "/tmp/vault")
      1 Example.clean.
Proof.
  split.
  - apply (proj1 (last_line_tells_the_outcome (codec := RefJSON.codec)
                    Example.in_order "{ plugins }" "{ graph }" "{ workspace }"
                    Example.templates "/tmp/vault" 1 Example.blind
                    ltac:(lia))).
  - apply (proj2 (last_line_tells_the_outcome (codec := RefJSON.codec)
                    Example.in_order "{ plugins }" "{ graph }" "{ workspace }"
                    Example.templates "/tmp/vault" 1 Example.clean
                    ltac:(lia))).
Defined.
